(** * Colocalization patch extractor: a shallow embedding

    The development follows [extract_colocalized_patches.py]:
    [calculate_colocalization_score], [find_colocalization_hotspots] and
    [extract_patch].  numpy arrays are kept as a shape together with the
    row-major (C order) flat buffer, integer coordinates are in [Z], and
    intensities are exact rationals ([Q]) standing for the float64 values
    of the source (rounding is not part of that model).  Where rounding
    decides a statement, the normalizer and the scorer are embedded a
    second time over binary64 itself.  Python exceptions are values of
    [result]. *)

From Stdlib Require Import ZArith QArith Qround List Bool Lia Lqa Sorted Floats.
From stdpp Require Import gmap.
Import ListNotations.
Local Open Scope Z_scope.

(** ** Exceptions *)

Inductive exn : Set := ValueError | RuntimeError | IndexError | TypeError.

Inductive result (A : Type) : Type :=
| Ok (a : A)
| Raise (e : exn).
Arguments Ok {A} a.
Arguments Raise {A} e.

Definition rbind {A B} (r : result A) (k : A -> result B) : result B :=
  match r with
  | Ok a => k a
  | Raise e => Raise e
  end.

Declare Scope result_scope.
Delimit Scope result_scope with result.
Notation "'do' x <- r ; k" := (rbind r (fun x => k))
  (at level 10, x name, r at level 100, k at level 200) : result_scope.
Local Open Scope result_scope.

(** ** Index arithmetic of row-major arrays *)

Definition idx3 : Type := Z * Z * Z.

(** [range(n)] *)
Definition zrange (n : Z) : list Z := map Z.of_nat (seq 0 (Z.to_nat n)).

Definition size3 (sh : idx3) : Z := let '(sz, sy, sx) := sh in sz * sy * sx.

(** flat offset of [(z, y, x)] in a C-ordered buffer of shape [sh] *)
Definition ravel3 (sh : idx3) (p : idx3) : Z :=
  let '(_, sy, sx) := sh in let '(z, y, x) := p in (z * sy + y) * sx + x.

(** [np.unravel_index(i, sh)] *)
Definition unravel_index (i : Z) (sh : idx3) : idx3 :=
  let '(_, sy, sx) := sh in (i / (sy * sx), (i / sx) mod sy, i mod sx).

Definition in_bounds (sh p : idx3) : Prop :=
  let '(sz, sy, sx) := sh in let '(z, y, x) := p in
  0 <= z < sz /\ 0 <= y < sy /\ 0 <= x < sx.

Definition nonneg_shape (sh : idx3) : Prop :=
  let '(sz, sy, sx) := sh in 0 <= sz /\ 0 <= sy /\ 0 <= sx.

(** Bounds of the Python slice [start:stop] on an axis of length [n]:
    negative positions count from the end, everything is clipped to
    [0..n]. *)
Definition slice_pos (n i : Z) : Z :=
  if i <? 0 then Z.max (i + n) 0 else Z.min i n.

Definition slice_len (n start stop : Z) : Z :=
  Z.max 0 (slice_pos n stop - slice_pos n start).

Definition in_slice (n start stop i : Z) : bool :=
  (slice_pos n start <=? i) && (i <? slice_pos n stop).

(** ** Arrays *)

Section Arrays.
Context {A : Type}.

Record ndarray : Type := mk_ndarray { shape : idx3; data : list A }.

Record ndarray4 : Type :=
    mk_ndarray4 { nchan : Z; shape4 : idx3; data4 : list A }.

Definition wf_array (a : ndarray) : Prop :=
    nonneg_shape (shape a) /\ Z.of_nat (length (data a)) = size3 (shape a).

Definition wf_array4 (a : ndarray4) : Prop :=
    0 <= nchan a /\ nonneg_shape (shape4 a) /\
    Z.of_nat (length (data4 a)) = nchan a * size3 (shape4 a).

  (** array comprehension: the buffer of shape [sh] holding [f z y x] at
      [(z, y, x)], filled in row-major order *)
Definition tab3 (sh : idx3) (f : idx3 -> A) : list A :=
    map (fun i => f (unravel_index i sh)) (zrange (size3 sh)).

Definition tab4 (nc : Z) (sh : idx3) (f : Z -> idx3 -> A) : list A :=
    map (fun i => f (i / size3 sh) (unravel_index (i mod size3 sh) sh))
        (zrange (nc * size3 sh)).

Variable zero : A.

  (** [a[z, y, x]] *)
Definition get3 (a : ndarray) (p : idx3) : A :=
    nth (Z.to_nat (ravel3 (shape a) p)) (data a) zero.

  (** [a[c, z, y, x]] *)
Definition get4 (a : ndarray4) (c : Z) (p : idx3) : A :=
    nth (Z.to_nat (c * size3 (shape4 a) + ravel3 (shape4 a) p)) (data4 a) zero.

  (** [np.zeros(sh)]: a negative dimension is a ValueError *)
Definition np_zeros (sh : idx3) : result ndarray :=
    let '(sz, sy, sx) := sh in
    if (sz <? 0) || (sy <? 0) || (sx <? 0) then Raise ValueError
    else Ok (mk_ndarray sh (tab3 sh (fun _ => zero))).

Definition np_zeros4 (nc : Z) (sh : idx3) : result ndarray4 :=
    let '(sz, sy, sx) := sh in
    if (nc <? 0) || (sz <? 0) || (sy <? 0) || (sx <? 0) then Raise ValueError
    else Ok (mk_ndarray4 nc sh (tab4 nc sh (fun _ _ => zero))).

  (** [a[z0:z1, y0:y1, x0:x1]] (a copy of the selected block) *)
Definition slice3 (a : ndarray) (lo hi : idx3) : ndarray :=
    let '(sz, sy, sx) := shape a in
    let '(z0, y0, x0) := lo in let '(z1, y1, x1) := hi in
    let sh := (slice_len sz z0 z1, slice_len sy y0 y1, slice_len sx x0 x1) in
    mk_ndarray sh
      (tab3 sh (fun '(i, j, k) =>
         get3 a (slice_pos sz z0 + i, slice_pos sy y0 + j, slice_pos sx x0 + k))).

  (** [a[:, z0:z1, y0:y1, x0:x1]] *)
Definition slice4 (a : ndarray4) (lo hi : idx3) : ndarray4 :=
    let '(sz, sy, sx) := shape4 a in
    let '(z0, y0, x0) := lo in let '(z1, y1, x1) := hi in
    let sh := (slice_len sz z0 z1, slice_len sy y0 y1, slice_len sx x0 x1) in
    mk_ndarray4 (nchan a) sh
      (tab4 (nchan a) sh (fun c '(i, j, k) =>
         get4 a c (slice_pos sz z0 + i, slice_pos sy y0 + j, slice_pos sx x0 + k))).

  (** [a[z0:z1, y0:y1, x0:x1] = v] for a scalar [v] *)
Definition fill_slice3 (a : ndarray) (lo hi : idx3) (v : A) : ndarray :=
    let '(sz, sy, sx) := shape a in
    let '(z0, y0, x0) := lo in let '(z1, y1, x1) := hi in
    mk_ndarray (shape a)
      (tab3 (shape a) (fun '(z, y, x) =>
         if in_slice sz z0 z1 z && in_slice sy y0 y1 y && in_slice sx x0 x1 x
         then v else get3 a (z, y, x))).

  (** One axis of numpy's assignment broadcasting: a source axis of
      length [s] can fill a target axis of length [r] when [s = r] or
      [s = 1]. *)
Definition bcast_ok (r s : Z) : bool := (s =? r) || (s =? 1).
Definition bcast_ix (s i : Z) : Z := if s =? 1 then 0 else i.

  (** [dst[:n0, :n1, :n2] = src] *)
Definition assign_prefix3 (dst : ndarray) (n : idx3) (src : ndarray)
    : result ndarray :=
    let '(sz, sy, sx) := shape dst in
    let '(n0, n1, n2) := n in
    let '(s0, s1, s2) := shape src in
    if bcast_ok (slice_len sz 0 n0) s0 && bcast_ok (slice_len sy 0 n1) s1
       && bcast_ok (slice_len sx 0 n2) s2
    then Ok (mk_ndarray (shape dst)
           (tab3 (shape dst) (fun '(z, y, x) =>
              if in_slice sz 0 n0 z && in_slice sy 0 n1 y && in_slice sx 0 n2 x
              then get3 src (bcast_ix s0 z, bcast_ix s1 y, bcast_ix s2 x)
              else get3 dst (z, y, x))))
    else Raise ValueError.

  (** [dst[:, :n0, :n1, :n2] = src] *)
Definition assign_prefix4 (dst : ndarray4) (n : idx3) (src : ndarray4)
    : result ndarray4 :=
    let '(sz, sy, sx) := shape4 dst in
    let '(n0, n1, n2) := n in
    let '(s0, s1, s2) := shape4 src in
    if bcast_ok (nchan dst) (nchan src)
       && bcast_ok (slice_len sz 0 n0) s0 && bcast_ok (slice_len sy 0 n1) s1
       && bcast_ok (slice_len sx 0 n2) s2
    then Ok (mk_ndarray4 (nchan dst) (shape4 dst)
           (tab4 (nchan dst) (shape4 dst) (fun c '(z, y, x) =>
              if in_slice sz 0 n0 z && in_slice sy 0 n1 y && in_slice sx 0 n2 x
              then get4 src (bcast_ix (nchan src) c)
                        (bcast_ix s0 z, bcast_ix s1 y, bcast_ix s2 x)
              else get4 dst c (z, y, x))))
    else Raise ValueError.

  (** ** Patch Extractor *)

  (** The two array ranks [extract_patch] is written for:
      [(Z, Y, X)] and [(C, Z, Y, X)]. *)
Inductive volume : Type :=
  | Single (a : ndarray)
  | Multi (a : ndarray4).

Definition ndim (v : volume) : Z :=
    match v with Single _ => 3 | Multi _ => 4 end.

Definition wf_volume (v : volume) : Prop :=
    match v with Single a => wf_array a | Multi a => wf_array4 a end.

Definition spatial_shape (v : volume) : idx3 :=
    match v with Single a => shape a | Multi a => shape4 a end.

Definition idx3_eqb (p q : idx3) : bool :=
    let '(a, b, c) := p in let '(a', b', c') := q in
    (a =? a') && (b =? b') && (c =? c').

Definition extract_patch (vol : volume) (center patch_size : idx3)
    : result volume :=
    let '(s0, s1, s2) := spatial_shape vol in
    let '(z, y, x) := center in
    let '(pz, py, px) := patch_size in
    let z_start := Z.max 0 (z - pz / 2) in
    let z_end := Z.min s0 (z + pz / 2) in
    let y_start := Z.max 0 (y - py / 2) in
    let y_end := Z.min s1 (y + py / 2) in
    let x_start := Z.max 0 (x - px / 2) in
    let x_end := Z.min s2 (x + px / 2) in
    match vol with
    | Multi v =>
        let patch := slice4 v (z_start, y_start, x_start) (z_end, y_end, x_end) in
        let actual_size := shape4 patch in
        if negb (idx3_eqb actual_size patch_size) then
          do padded <- np_zeros4 (nchan v) patch_size;
          do padded <- assign_prefix4 padded actual_size patch;
          Ok (Multi padded)
        else Ok (Multi patch)
    | Single v =>
        let patch := slice3 v (z_start, y_start, x_start) (z_end, y_end, x_end) in
        let actual_size := shape patch in
        if negb (idx3_eqb actual_size patch_size) then
          do padded <- np_zeros patch_size;
          do padded <- assign_prefix3 padded actual_size patch;
          Ok (Single padded)
        else Ok (Single patch)
    end.

End Arrays.

Arguments ndarray A : clear implicits.
Arguments ndarray4 A : clear implicits.
Arguments volume A : clear implicits.

(** ** Density Mapper *)

Definition Qsum (l : list Q) : Q := fold_right Qplus 0%Q l.

(** [mask.astype(float)]: a new array, [False -> 0.0], [True -> 1.0] *)
Definition astype_float (m : ndarray bool) : ndarray Q :=
  mk_ndarray (shape m) (map (fun b : bool => if b then 1%Q else 0%Q) (data m)).

(** [np.ones(sh)] *)
Definition np_ones (sh : idx3) : result (ndarray Q) :=
  let '(sz, sy, sx) := sh in
  if (sz <? 0) || (sy <? 0) || (sx <? 0) then Raise ValueError
  else Ok (mk_ndarray sh (tab3 sh (fun _ => 1%Q))).

Definition in_boundsb (sh p : idx3) : bool :=
  let '(sz, sy, sx) := sh in let '(z, y, x) := p in
  (0 <=? z) && (z <? sz) && (0 <=? y) && (y <? sy) && (0 <=? x) && (x <? sx).

(** reading the input of a filter with [mode='constant'], [cval=0.0] *)
Definition get3_padded (a : ndarray Q) (p : idx3) : Q :=
  if in_boundsb (shape a) p then get3 0%Q a p else 0%Q.

(** [scipy.ndimage.convolve(input, weights, mode='constant')] with the
    default origin.  The library refuses a kernel with an axis of length
    0 (RuntimeError); otherwise
    [out[i] = sum_m weights[m] * input[i + k//2 - m]] per axis of kernel
    length [k], cells outside the input reading as 0.  The result is a new
    array of the input's shape. *)
Definition ndimage_convolve (input weights : ndarray Q) : result (ndarray Q) :=
  let '(kz, ky, kx) := shape weights in
  if (kz <=? 0) || (ky <=? 0) || (kx <=? 0) then Raise RuntimeError
  else Ok (mk_ndarray (shape input)
         (tab3 (shape input) (fun '(z, y, x) =>
            Qsum (tab3 (shape weights) (fun '(m0, m1, m2) =>
              Qmult (get3 0%Q weights (m0, m1, m2))
                (get3_padded input
                   (z + kz / 2 - m0, y + ky / 2 - m1, x + kx / 2 - m2))))))).

(** ** Hotspot Selector *)

(** [a.argmax()] on the flat buffer: the first position of the largest
    value; an empty array is a ValueError. *)
Fixpoint argmax_from (best_i : Z) (best : Q) (i : Z) (l : list Q) : Z :=
  match l with
  | [] => best_i
  | v :: t =>
      if Qlt_le_dec best v then argmax_from i v (i + 1) t
      else argmax_from best_i best (i + 1) t
  end.

Definition np_argmax (l : list Q) : result Z :=
  match l with
  | [] => Raise ValueError
  | v :: t => Ok (argmax_from 0 v 1 t)
  end.

(** the test of lines 88-89 on one axis *)
Definition too_close (c s p : Z) : bool := (c <? p / 2) || (c >? s - p / 2).

Definition center_valid (max_idx volume_shape patch_size : idx3) : bool :=
  let '(z, y, x) := max_idx in
  let '(s0, s1, s2) := volume_shape in
  let '(pz, py, px) := patch_size in
  negb (too_close z s0 pz || too_close y s1 py || too_close x s2 px).

(** The index box [c - h, c + h) per axis, open at the high end: the
    cells the suppression slice addresses around a candidate [c], and
    the cells [extract_patch] reads around a center. *)
Definition in_box (c h p : idx3) : Prop :=
  let '(cz, cy, cx) := c in let '(hz, hy, hx) := h in let '(z, y, x) := p in
  cz - hz <= z < cz + hz /\ cy - hy <= y < cy + hy /\ cx - hx <= x < cx + hx.

Definition half (patch_size : idx3) : idx3 :=
  let '(pz, py, px) := patch_size in (pz / 2, py / 2, px / 2).

(** [density_map[max(0,z-pad[0]):min(shape[0],z+pad[0]), ...] = 0] *)
Definition suppress (volume_shape patch_size : idx3) (density_map : ndarray Q)
  (max_idx : idx3) : ndarray Q :=
  let '(z, y, x) := max_idx in
  let '(s0, s1, s2) := volume_shape in
  let '(pad0, pad1, pad2) := half patch_size in
  fill_slice3 0%Q density_map
    (Z.max 0 (z - pad0), Z.max 0 (y - pad1), Z.max 0 (x - pad2))
    (Z.min s0 (z + pad0), Z.min s1 (y + pad1), Z.min s2 (x + pad2))
    0%Q.

(** the loop variables: the density map and the list built so far *)
Definition hotspot_state : Type := ndarray Q * list idx3.

(** the candidate of one iteration *)
Definition candidate (density_map : ndarray Q) : result idx3 :=
  do i <- np_argmax (data density_map);
  Ok (unravel_index i (shape density_map)).

(** one pass through the body of the [for] loop (lines 82-103) *)
Definition hotspot_iter (volume_shape patch_size : idx3) (st : hotspot_state)
  : result hotspot_state :=
  let '(density_map, patch_centers) := st in
  do max_idx <- candidate density_map;
  let valid := center_valid max_idx volume_shape patch_size in
  let patch_centers :=
    if valid then patch_centers ++ [max_idx] else patch_centers in
  Ok (suppress volume_shape patch_size density_map max_idx, patch_centers).

(** [for i in range(n)] *)
Fixpoint hotspot_loop (n : nat) (volume_shape patch_size : idx3)
  (st : hotspot_state) : result hotspot_state :=
  match n with
  | O => Ok st
  | S k =>
      do st' <- hotspot_iter volume_shape patch_size st;
      hotspot_loop k volume_shape patch_size st'
  end.

(** the selection loop started on a given density map *)
Definition select_hotspots (density_map : ndarray Q) (num_patches : Z)
  (patch_size : idx3) : result (list idx3) :=
  do st <- hotspot_loop (Z.to_nat num_patches) (shape density_map) patch_size
             (density_map, []);
  Ok (snd st).

Definition find_colocalization_hotspots (coloc_mask : ndarray bool)
  (num_patches : Z) (patch_size : idx3) : result (list idx3) :=
  let kernel_size := half patch_size in
  do kernel <- np_ones kernel_size;
  do density_map <- ndimage_convolve (astype_float coloc_mask) kernel;
  do st <- hotspot_loop (Z.to_nat num_patches) (shape coloc_mask) patch_size
             (density_map, []);
  Ok (snd st).

(** ** Normalizer, Thresholder and Colocalization Scorer *)

(** [1e-10] *)
Definition eps : Q := 1 # 10000000000.

Definition Qltb (a b : Q) : bool := negb (Qle_bool b a).
Definition Qmin2 (a b : Q) : Q := if Qle_bool a b then a else b.
Definition Qmax2 (a b : Q) : Q := if Qle_bool a b then b else a.

(** [a.min()], [a.max()]: a zero-size array is a ValueError *)
Definition np_min (l : list Q) : result Q :=
  match l with
  | [] => Raise ValueError
  | v :: t => Ok (fold_left Qmin2 t v)
  end.

Definition np_max (l : list Q) : result Q :=
  match l with
  | [] => Raise ValueError
  | v :: t => Ok (fold_left Qmax2 t v)
  end.

(** [(ch - ch.min()) / (ch.max() - ch.min() + 1e-10)] (lines 32-33) *)
Definition normalize (ch : ndarray Q) : result (ndarray Q) :=
  do mn <- np_min (data ch);
  do mx <- np_max (data ch);
  Ok (mk_ndarray (shape ch)
        (map (fun v => (v - mn) / (mx - mn + eps))%Q (data ch))).

(** ascending sort of the flattened array *)
Fixpoint insert_sorted (x : Q) (l : list Q) : list Q :=
  match l with
  | [] => [x]
  | y :: t => if Qle_bool x y then x :: l else y :: insert_sorted x t
  end.

Definition np_sort (l : list Q) : list Q := fold_right insert_sorted [] l.

(** linear interpolation of the sorted values [s] at the virtual index
    [virt]: with [prev = floor virt], [next = prev + 1] (kept inside the
    array) and [gamma = virt - prev], the value is
    [s[prev] + (s[next] - s[prev]) * gamma] *)
Definition interpolate (s : list Q) (d : Q) (virt : Q) : Q :=
  let n := Z.of_nat (length s) in
  let prev := Qfloor virt in
  let next := Z.min (prev + 1) (n - 1) in
  let gamma := (virt - inject_Z prev)%Q in
  let lo := nth (Z.to_nat prev) s d in
  let hi := nth (Z.to_nat next) s d in
  (lo + (hi - lo) * gamma)%Q.

(** [np.percentile(a, q)] with the default linear interpolation: [q]
    outside [0, 100] is a ValueError; the virtual index
    [(n - 1) * q / 100] is split into its floor and its fractional part
    [gamma], and the two neighbouring order statistics are interpolated.
    (On a zero-size array numpy yields NaN; the scorer never gets there,
    since [min] has raised before.) *)
Definition np_percentile (a : list Q) (q : Q) : result Q :=
  if negb (Qle_bool 0 q && Qle_bool q 100) then Raise ValueError
  else
    match np_sort a with
    | [] => Raise ValueError
    | (d :: _) as s =>
        let n := Z.of_nat (length s) in
        let virt := (q / 100 * inject_Z (n - 1))%Q in
        Ok (interpolate s d virt)
    end.

(** [a > t], elementwise *)
Definition greater (a : ndarray Q) (t : Q) : ndarray bool :=
  mk_ndarray (shape a) (map (fun v => Qltb t v) (data a)).

(** the Thresholder: lines 36 and 40 for one channel *)
Definition threshold_mask (normalized : ndarray Q) (percentile : Q)
  : result (ndarray bool) :=
  do thresh <- np_percentile (data normalized) percentile;
  Ok (greater normalized thresh).

(** [m.sum()] of a boolean array *)
Definition count_true (m : ndarray bool) : Z :=
  Z.of_nat (length (filter (fun b : bool => b) (data m))).

(** numpy broadcasting of two axis lengths *)
Definition bcast_dim (a b : Z) : option Z :=
  if a =? b then Some a
  else if a =? 1 then Some b
  else if b =? 1 then Some a
  else None.

(** [m1 & m2] with broadcasting *)
Definition logical_and (m1 m2 : ndarray bool) : result (ndarray bool) :=
  let '(a0, a1, a2) := shape m1 in
  let '(b0, b1, b2) := shape m2 in
  match bcast_dim a0 b0, bcast_dim a1 b1, bcast_dim a2 b2 with
  | Some s0, Some s1, Some s2 =>
      Ok (mk_ndarray (s0, s1, s2)
            (tab3 (s0, s1, s2) (fun '(z, y, x) =>
               get3 false m1 (bcast_ix a0 z, bcast_ix a1 y, bcast_ix a2 x)
               && get3 false m2 (bcast_ix b0 z, bcast_ix b1 y, bcast_ix b2 x))))
  | _, _, _ => Raise ValueError
  end.

(** the selected values of [a[mask]], in row-major order *)
Fixpoint select (l : list Q) (m : list bool) : list Q :=
  match l, m with
  | v :: l', b :: m' => if b then v :: select l' m' else select l' m'
  | _, _ => []
  end.

(** [a[mask]]: the mask must have the shape of [a] (IndexError) *)
Definition bool_index (a : ndarray Q) (mask : ndarray bool) : result (list Q) :=
  if idx3_eqb (shape mask) (shape a) then Ok (select (data a) (data mask))
  else Raise IndexError.

Definition calculate_colocalization_score (ch1 ch2 : ndarray Q)
  (threshold_percentile : Q) : result (Q * ndarray bool) :=
  do ch1_norm <- normalize ch1;
  do ch2_norm <- normalize ch2;
  do thresh1 <- np_percentile (data ch1_norm) threshold_percentile;
  do thresh2 <- np_percentile (data ch2_norm) threshold_percentile;
  let mask1 := greater ch1_norm thresh1 in
  let mask2 := greater ch2_norm thresh2 in
  do coloc_mask <- logical_and mask1 mask2;
  if count_true mask1 >? 0 then
    do overlap <- bool_index ch1_norm coloc_mask;
    do signal <- bool_index ch1_norm mask1;
    Ok ((Qsum overlap / Qsum signal)%Q, coloc_mask)
  else Ok (0%Q, coloc_mask).

(** ** The scorer in binary64

    Whether the coefficient stays inside [0, 1] is decided by rounding,
    so the scorer is embedded a second time, on float64 channels, with
    the primitive binary64 numbers: every [+], [-], [*], [/] and
    comparison below is the IEEE 754 operation that numpy performs.
    Channels of another dtype are outside this embedding: numpy
    subtracts the minimum in the channel's own dtype, so that signed
    integers can wrap around and float32 rounds differently. *)

(** [1e-10]: the binary64 number nearest to it *)
Definition eps64 : float := 0x1.b7cdfd9d7bdbbp-34%float.

(** one step of [a.min()] and of [a.max()]: numpy keeps the accumulator
    when it is not larger (not smaller), or when it is NaN, so that a NaN
    propagates *)
Definition fmin (acc x : float) : float :=
  if (acc <=? x)%float || is_nan acc then acc else x.

Definition fmax (acc x : float) : float :=
  if (x <=? acc)%float || is_nan acc then acc else x.

Definition np_min_f64 (l : list float) : result float :=
  match l with
  | [] => Raise ValueError
  | v :: t => Ok (fold_left fmin t v)
  end.

Definition np_max_f64 (l : list float) : result float :=
  match l with
  | [] => Raise ValueError
  | v :: t => Ok (fold_left fmax t v)
  end.

(** [(ch - ch.min()) / (ch.max() - ch.min() + 1e-10)] (lines 32-33) *)
Definition normalize_f64 (ch : ndarray float) : result (ndarray float) :=
  do mn <- np_min_f64 (data ch);
  do mx <- np_max_f64 (data ch);
  Ok (mk_ndarray (shape ch)
        (map (fun v => ((v - mn) / (mx - mn + eps64))%float) (data ch))).

(** ascending sort of an array without NaN *)
Fixpoint insert_sorted_f64 (x : float) (l : list float) : list float :=
  match l with
  | [] => [x]
  | y :: t => if (x <=? y)%float then x :: l else y :: insert_sorted_f64 x t
  end.

Definition np_sort_f64 (l : list float) : list float :=
  fold_right insert_sorted_f64 [] l.

(** an array index as a float (exact below 2^53) *)
Definition float_of_Z (z : Z) : float := of_uint63 (Uint63.of_Z z).

(** [floor] of a non-negative float, as an index *)
Definition floor_index (v : float) : Z :=
  match Prim2SF v with
  | S754_finite false m e => Z.shiftl (Z.pos m) e
  | _ => 0
  end.

(** numpy's [_lerp]: [a + (b - a) * t], replaced by
    [b - (b - a) * (1 - t)] where [t >= 0.5] *)
Definition lerp (a b t : float) : float :=
  let diff_b_a := (b - a)%float in
  if (0.5 <=? t)%float then (b - diff_b_a * (1 - t))%float
  else (a + diff_b_a * t)%float.

(** the test of [np.percentile] on its argument: [q / 100] must lie in
    [0, 1] *)
Definition percentile_accepted (q : float) : bool :=
  ((0 <=? q / 100) && (q / 100 <=? 1))%float.

(** [np.percentile(a, q)] in binary64, linear method: the virtual index
    [(n - 1) * (q / 100)] is computed in floating point; at or above
    [n - 1] both neighbours are the last element (index -1), otherwise
    they are the elements at its floor and one further; [gamma] is the
    virtual index minus the previous index.  An array that holds a NaN
    gives NaN.  (The scorer never gets here with a zero-size array:
    [min] has raised before.) *)
Definition np_percentile_f64 (a : list float) (q : float) : result float :=
  let quantiles := (q / 100)%float in
  if negb (percentile_accepted q) then Raise ValueError
  else
    match np_sort_f64 a with
    | [] => Raise ValueError
    | (d :: _) as s =>
        if existsb is_nan a then Ok nan
        else
          let n := Z.of_nat (length s) in
          let virtual := (float_of_Z (n - 1) * quantiles)%float in
          if (float_of_Z (n - 1) <=? virtual)%float then
            let last := nth (Z.to_nat (n - 1)) s d in
            Ok (lerp last last (virtual - (-1))%float)
          else if (virtual <? 0)%float then Ok (lerp d d virtual)
          else
            let prev := floor_index virtual in
            Ok (lerp (nth (Z.to_nat prev) s d) (nth (Z.to_nat (prev + 1)) s d)
                  (virtual - float_of_Z prev)%float)
    end.

(** [a > t], elementwise *)
Definition greater_f64 (a : ndarray float) (t : float) : ndarray bool :=
  mk_ndarray (shape a) (map (fun v => (t <? v)%float) (data a)).

(** the selected values of [a[mask]], in row-major order *)
Fixpoint select_f64 (l : list float) (m : list bool) : list float :=
  match l, m with
  | v :: l', b :: m' => if b then v :: select_f64 l' m' else select_f64 l' m'
  | _, _ => []
  end.

(** [a[mask]]: the mask must have the shape of [a] (IndexError) *)
Definition bool_index_f64 (a : ndarray float) (mask : ndarray bool)
  : result (list float) :=
  if idx3_eqb (shape mask) (shape a) then Ok (select_f64 (data a) (data mask))
  else Raise IndexError.

(** [a.sum()] of a contiguous float64 array is numpy's pairwise sum.
    Fewer than 8 numbers are added from left to right.  Up to 128 numbers
    go into 8 accumulators, [r[j] += a[i + j]] over the whole blocks of 8;
    the accumulators are added as
    [((r0 + r1) + (r2 + r3)) + ((r4 + r5) + (r6 + r7))], and the numbers
    left over are added one by one.  A longer array is cut at
    [n / 2 - (n / 2) % 8] and the sums of its two parts are added. *)
Fixpoint zip_add (r a : list float) : list float :=
  match r, a with
  | x :: r', y :: a' => (x + y)%float :: zip_add r' a'
  | _, _ => r
  end.

Fixpoint accumulate8 (r rest : list float) : list float * list float :=
  match rest with
  | a0 :: a1 :: a2 :: a3 :: a4 :: a5 :: a6 :: a7 :: rest' =>
      accumulate8 (zip_add r [a0; a1; a2; a3; a4; a5; a6; a7]) rest'
  | _ => (r, rest)
  end.

(** the 8 accumulators added up (a list of another length does not
    occur) *)
Definition tree8 (r : list float) : float :=
  match r with
  | [r0; r1; r2; r3; r4; r5; r6; r7] =>
      (((r0 + r1) + (r2 + r3)) + ((r4 + r5) + (r6 + r7)))%float
  | _ => 0%float
  end.

(** [fuel] bounds the depth of the halving; the length of the array is
    always enough ([pairwise_sum_fuel]) *)
Fixpoint pairwise_sum (fuel : nat) (a : list float) : float :=
  let n := length a in
  if (n <? 8)%nat then fold_left PrimFloat.add a 0%float
  else if (n <=? 128)%nat then
    let '(r, rest) := accumulate8 (firstn 8 a) (skipn 8 a) in
    fold_left PrimFloat.add rest (tree8 r)
  else
    match fuel with
    | O => 0%float
    | S k =>
        let n2 := (n / 2 - (n / 2) mod 8)%nat in
        (pairwise_sum k (firstn n2 a) + pairwise_sum k (skipn n2 a))%float
    end.

(** the reduction starts from the identity of [+] and adds the pairwise
    sum of the whole array to it *)
Definition np_sum_f64 (a : list float) : float :=
  (0 + pairwise_sum (length a) a)%float.

(** lines 32 to 52, in binary64 *)
Definition calculate_colocalization_score_f64 (ch1 ch2 : ndarray float)
  (threshold_percentile : float) : result (float * ndarray bool) :=
  do ch1_norm <- normalize_f64 ch1;
  do ch2_norm <- normalize_f64 ch2;
  do thresh1 <- np_percentile_f64 (data ch1_norm) threshold_percentile;
  do thresh2 <- np_percentile_f64 (data ch2_norm) threshold_percentile;
  let mask1 := greater_f64 ch1_norm thresh1 in
  let mask2 := greater_f64 ch2_norm thresh2 in
  do coloc_mask <- logical_and mask1 mask2;
  if count_true mask1 >? 0 then
    do overlap <- bool_index_f64 ch1_norm coloc_mask;
    do signal <- bool_index_f64 ch1_norm mask1;
    Ok ((np_sum_f64 overlap / np_sum_f64 signal)%float, coloc_mask)
  else Ok (0%float, coloc_mask).

(** ** The extraction run (steps 4 to 6 of [main], without the I/O) *)

(** [np.stack([a, b], axis=0)] *)
Definition np_stack2 (a b : ndarray Q) : result (ndarray4 Q) :=
  if idx3_eqb (shape a) (shape b)
  then Ok (mk_ndarray4 2 (shape a) (data a ++ data b))
  else Raise ValueError.

Record patch_record : Type := mk_patch_record {
  pr_center : idx3;
  pr_patch : volume Q;
  pr_coloc_patch : volume bool
}.

Fixpoint extract_all (multichannel_volume : ndarray4 Q) (coloc_mask : ndarray bool)
  (patch_size : idx3) (patch_centers : list idx3) : result (list patch_record) :=
  match patch_centers with
  | [] => Ok []
  | center :: rest =>
      do patch <- extract_patch 0%Q (Multi multichannel_volume) center patch_size;
      do coloc_patch <- extract_patch false (Single coloc_mask) center patch_size;
      do more <- extract_all multichannel_volume coloc_mask patch_size rest;
      Ok (mk_patch_record center patch coloc_patch :: more)
  end.

Definition extraction_run (iba1_data abeta_data : ndarray Q) (num_patches : Z)
  (patch_size : idx3) : result (Q * ndarray bool * list patch_record) :=
  do sc <- calculate_colocalization_score iba1_data abeta_data 50%Q;
  let '(manders, coloc_mask) := sc in
  do patch_centers <- find_colocalization_hotspots coloc_mask num_patches patch_size;
  do multichannel_volume <- np_stack2 iba1_data abeta_data;
  do patches <- extract_all multichannel_volume coloc_mask patch_size patch_centers;
  Ok (manders, coloc_mask, patches).

(** ** The selector over a store of arrays

    numpy arrays are objects: [find_colocalization_hotspots] receives a
    reference to the mask and writes into [density_map] in place.  The
    store maps references to arrays; allocation picks an unused
    reference. *)

Inductive cell : Type :=
| BoolArr (a : ndarray bool)
| FloatArr (a : ndarray Q).

Abbreviation heap := (gmap positive cell).

Definition M (A : Type) : Type := heap -> result A * heap.

Definition ret {A} (a : A) : M A := fun h => (Ok a, h).

Definition bind {A B} (m : M A) (k : A -> M B) : M B :=
  fun h =>
    match m h with
    | (Ok a, h') => k a h'
    | (Raise e, h') => (Raise e, h')
    end.

Definition lift {A} (r : result A) : M A := fun h => (r, h).

Notation "'run' x <- m ; k" := (bind m (fun x => k))
  (at level 10, x name, m at level 100, k at level 200) : result_scope.

Definition alloc (c : cell) : M positive :=
  fun h => let l := fresh (dom h) in (Ok l, <[l := c]> h).

Definition read_bool (l : positive) : M (ndarray bool) :=
  fun h =>
    match h !! l with
    | Some (BoolArr a) => (Ok a, h)
    | _ => (Raise TypeError, h)
    end.

Definition read_float (l : positive) : M (ndarray Q) :=
  fun h =>
    match h !! l with
    | Some (FloatArr a) => (Ok a, h)
    | _ => (Raise TypeError, h)
    end.

(** in-place update of the array behind [l] *)
Definition write_float (l : positive) (a : ndarray Q) : M unit :=
  fun h => (Ok tt, <[l := FloatArr a]> h).

Definition np_ones_st (sh : idx3) : M positive :=
  run k <- lift (np_ones sh); alloc (FloatArr k).

Definition astype_float_st (l : positive) : M positive :=
  run m <- read_bool l; alloc (FloatArr (astype_float m)).

Definition ndimage_convolve_st (input weights : positive) : M positive :=
  run i <- read_float input;
  run w <- read_float weights;
  run o <- lift (ndimage_convolve i w);
  alloc (FloatArr o).

Fixpoint hotspot_loop_st (n : nat) (volume_shape patch_size : idx3)
  (density_map : positive) (patch_centers : list idx3) : M (list idx3) :=
  match n with
  | O => ret patch_centers
  | S k =>
      run d <- read_float density_map;
      run max_idx <- lift (candidate d);
      let valid := center_valid max_idx volume_shape patch_size in
      let patch_centers :=
        if valid then patch_centers ++ [max_idx] else patch_centers in
      run _u <- write_float density_map (suppress volume_shape patch_size d max_idx);
      hotspot_loop_st k volume_shape patch_size density_map patch_centers
  end.

Definition find_colocalization_hotspots_st (coloc_mask : positive)
  (num_patches : Z) (patch_size : idx3) : M (list idx3) :=
  let kernel_size := half patch_size in
  run kernel <- np_ones_st kernel_size;
  run as_float <- astype_float_st coloc_mask;
  run density_map <- ndimage_convolve_st as_float kernel;
  run m <- read_bool coloc_mask;
  hotspot_loop_st (Z.to_nat num_patches) (shape m) patch_size density_map [].

(** ** Vocabulary of the statements about [extract_patch] *)

Definition positive_size (ps : idx3) : Prop :=
  let '(pz, py, px) := ps in 0 < pz /\ 0 < py /\ 0 < px.

(** a center inside the spatial extents, both faces included *)
Definition center_in_volume (sh c : idx3) : Prop :=
  let '(sz, sy, sx) := sh in let '(z, y, x) := c in
  0 <= z <= sz /\ 0 <= y <= sy /\ 0 <= x <= sx.

Definition channels {A} (v : volume A) : Z :=
  match v with Single _ => 1 | Multi a => nchan a end.

Definition same_rank {A} (v p : volume A) : Prop :=
  match v, p with
  | Single _, Single _ => True
  | Multi a, Multi b => nchan b = nchan a
  | _, _ => False
  end.

(** [v[c, z, y, x]], the channel being ignored on a 3D volume *)
Definition voxel {A} (zero : A) (v : volume A) (c : Z) (p : idx3) : A :=
  match v with Single a => get3 zero a p | Multi a => get4 zero a c p end.

(** the bounds computed at lines 131-136 and the extents of the slice *)
Definition patch_start (center patch_size : idx3) : idx3 :=
  let '(z, y, x) := center in let '(pz, py, px) := patch_size in
  (Z.max 0 (z - pz / 2), Z.max 0 (y - py / 2), Z.max 0 (x - px / 2)).

Definition patch_end (sh center patch_size : idx3) : idx3 :=
  let '(s0, s1, s2) := sh in
  let '(z, y, x) := center in let '(pz, py, px) := patch_size in
  (Z.min s0 (z + pz / 2), Z.min s1 (y + py / 2), Z.min s2 (x + px / 2)).

Definition actual_size (sh center patch_size : idx3) : idx3 :=
  let '(s0, s1, s2) := sh in
  let '(z0, y0, x0) := patch_start center patch_size in
  let '(z1, y1, x1) := patch_end sh center patch_size in
  (slice_len s0 z0 z1, slice_len s1 y0 y1, slice_len s2 x0 x1).

Definition idx3_add (p q : idx3) : idx3 :=
  let '(a, b, c) := p in let '(a', b', c') := q in (a + a', b + b', c + c').

Definition idx3_ltb (p q : idx3) : bool :=
  let '(a, b, c) := p in let '(a', b', c') := q in
  (a <? a') && (b <? b') && (c <? c').

(** the clamped slice falls short of the requested size on some axis *)
Definition short_on_some_axis (actual patch_size : idx3) : Prop :=
  let '(a0, a1, a2) := actual in let '(pz, py, px) := patch_size in
  a0 < pz \/ a1 < py \/ a2 < px.

(** a small volume used in the examples: the values 1..8 on a 2x2x2 grid *)
Definition cube8 : ndarray Q :=
  mk_ndarray (2, 2, 2) (map inject_Z [1; 2; 3; 4; 5; 6; 7; 8]).

(** two channels of 2x2x1 voxels *)
Definition pair4 : ndarray4 Q :=
  mk_ndarray4 2 (2, 2, 1) (map inject_Z [1; 2; 3; 4; 5; 6; 7; 8]).

(** ** Vocabulary of the statements about the selector *)

Definition nonneg_density (d : ndarray Q) : Prop :=
  forall p, in_bounds (shape d) p -> (0 <= get3 0%Q d p)%Q.

(** every cell of the box around [c] that lies inside the array reads 0 *)
Definition box_suppressed (d : ndarray Q) (c h : idx3) : Prop :=
  forall p, in_bounds (shape d) p -> in_box c h p -> (get3 0%Q d p == 0)%Q.

(** two boxes of half-extent [h] share a cell *)
Definition boxes_overlap (h a b : idx3) : Prop :=
  exists p, in_box a h p /\ in_box b h p.

(** no center lies in the box of a center selected before it *)
Definition separated (h : idx3) (centers : list idx3) : Prop :=
  ForallOrdPairs (fun a b => ~ in_box a h b) centers.

(** a mask given by the list of its true voxels *)
Definition mask_of (sh : idx3) (on : list idx3) : ndarray bool :=
  mk_ndarray sh (tab3 sh (fun p => existsb (idx3_eqb p) on)).

(** what every state of the selection loop satisfies when it is started
    on a non-negative density map of shape [sh] *)
Definition selector_inv (sh ps : idx3) (st : hotspot_state) : Prop :=
  let '(d, cs) := st in
  wf_array d /\ shape d = sh /\ nonneg_density d /\
  (forall c, In c cs -> box_suppressed d c (half ps)) /\
  separated (half ps) cs.

Definition all_zero_density (d : ndarray Q) : Prop :=
  forall p, in_bounds (shape d) p -> (get3 0%Q d p == 0)%Q.

Definition all_false (m : ndarray bool) : Prop :=
  Forall (fun b : bool => b = false) (data m).

(** every extent at least 2, so that no half-extent vanishes *)
Definition size_at_least_2 (ps : idx3) : Prop :=
  let '(pz, py, px) := ps in 2 <= pz /\ 2 <= py /\ 2 <= px.

(** a density map with two peaks one voxel apart *)
Definition two_peaks : ndarray Q :=
  mk_ndarray (3, 2, 2) (map inject_Z [0; 0; 0; 0; 0; 0; 0; 5; 0; 0; 0; 4]).

(** ** Vocabulary of the statements about the scorer *)

(** the mask of one channel: lines 32, 36 and 40 (or 33, 37 and 41) *)
Definition channel_mask (ch : ndarray Q) (percentile : Q) : result (ndarray bool) :=
  do ch_norm <- normalize ch;
  threshold_mask ch_norm percentile.

(** every true voxel of [m1] is true in [m2] *)
Definition mask_subset (m1 m2 : ndarray bool) : Prop :=
  forall i, nth i (data m1) false = true -> nth i (data m2) false = true.

Definition all_zero_volume (ch : ndarray Q) : Prop :=
  Forall (fun v => (v == 0)%Q) (data ch).

(** a single voxel of intensity 0 *)
Definition dark_voxel : ndarray Q := mk_ndarray (1, 1, 1) [0%Q].

(** elementwise conjunction of two flat buffers of the same length *)
Fixpoint andb_list (l1 l2 : list bool) : list bool :=
  match l1, l2 with
  | a :: l1', b :: l2' => (a && b) :: andb_list l1' l2'
  | _, _ => []
  end.

(** the list of centers of a final loop state *)
Definition centers_of (r : result hotspot_state) : result (list idx3) :=
  do st <- r; Ok (snd st).

(** the second store agrees with the first wherever the first is defined *)
Definition preserves (h h' : heap) : Prop :=
  forall l c, h !! l = Some c -> h' !! l = Some c.

(** ** Vocabulary of the statement about invalid inputs *)

(** the inputs the design calls invalid: channels of different shapes, a
    zero-size channel, a non-positive patch size or patch count *)
Definition invalid_input (ch1 ch2 : ndarray Q) (num_patches : Z)
  (patch_size : idx3) : Prop :=
  shape ch1 <> shape ch2 \/ data ch1 = [] \/ data ch2 = [] \/
  ~ positive_size patch_size \/ num_patches <= 0.

(** a store holding one mask *)
Definition one_mask_store : heap :=
  {[ 1%positive := BoolArr (mask_of (3, 2, 2) [(1, 1, 1); (2, 1, 1)]) ]}.

(** ** Vocabulary of the further statements *)

(** the test of lines 88-89 passed on every axis: the center keeps half
    a patch of distance from both faces *)
Definition far_from_edges (sh ps c : idx3) : Prop :=
  let '(s0, s1, s2) := sh in let '(pz, py, px) := ps in let '(z, y, x) := c in
  pz / 2 <= z <= s0 - pz / 2 /\ py / 2 <= y <= s1 - py / 2 /\
  px / 2 <= x <= s2 - px / 2.

Definition even_size (ps : idx3) : Prop :=
  let '(pz, py, px) := ps in
  Z.even pz = true /\ Z.even py = true /\ Z.even px = true.

(** where the slice of [extract_patch] really starts, after the clipping
    of the slice bounds *)
Definition slice_start (sh center ps : idx3) : idx3 :=
  let '(s0, s1, s2) := sh in
  let '(z0, y0, x0) := patch_start center ps in
  (slice_pos s0 z0, slice_pos s1 y0, slice_pos s2 x0).

Definition nonneg_center (c : idx3) : Prop :=
  let '(z, y, x) := c in 0 <= z /\ 0 <= y /\ 0 <= x.

(** [patch[c]]: one channel of a 4D array, as a 3D array *)
Definition take_channel {A} (zero : A) (patch : ndarray4 A) (c : Z) : ndarray A :=
  mk_ndarray (shape4 patch) (tab3 (shape4 patch) (fun p => get4 zero patch c p)).

(** [100 * coloc_patch.sum() / coloc_patch.size] (line 281; line 241 for
    the whole mask) *)
Definition coloc_density (coloc_patch : ndarray bool) : Q :=
  (inject_Z (100 * count_true coloc_patch) /
   inject_Z (Z.of_nat (length (data coloc_patch))))%Q.

(** two axis lengths that numpy can broadcast *)
Definition broadcastable (a b : Z) : Prop := a = b \/ a = 1 \/ b = 1.

(** every voxel has the same intensity *)
Definition constant_volume (ch : ndarray Q) : Prop :=
  exists k, Forall (fun v => (v == k)%Q) (data ch).

(** the whole patch lies past the far face of the volume on some axis *)
Definition beyond_far_face (sh ps c : idx3) : Prop :=
  let '(s0, s1, s2) := sh in let '(pz, py, px) := ps in let '(z, y, x) := c in
  s0 <= z - pz / 2 \/ s1 <= y - py / 2 \/ s2 <= x - px / 2.

Definition idx3_sub (p q : idx3) : idx3 :=
  let '(a, b, c) := p in let '(a', b', c') := q in (a - a', b - b', c - c').

Definition shapes_broadcastable (sh1 sh2 : idx3) : Prop :=
  let '(a0, a1, a2) := sh1 in let '(b0, b1, b2) := sh2 in
  broadcastable a0 b0 /\ broadcastable a1 b1 /\ broadcastable a2 b2.

(** a record of the run: two channels of exactly the patch size, and the
    mask patch of the same size *)
Definition well_shaped_record (ps : idx3) (r : patch_record) : Prop :=
  exists p q,
    pr_patch r = Multi p /\ wf_array4 p /\ nchan p = 2 /\ shape4 p = ps /\
    pr_coloc_patch r = Single q /\ wf_array q /\ shape q = ps.

(** a mask with two true voxels next to each other *)
Definition two_voxels : ndarray bool := mask_of (3, 2, 2) [(1, 1, 1); (2, 1, 1)].

(** a channel of constant intensity 7 *)
Definition flat_cube : ndarray Q := mk_ndarray (2, 2, 2) (repeat 7%Q 8).

(** a second channel for the examples: the values of [cube8] doubled *)
Definition two_cube8 : ndarray Q :=
  mk_ndarray (2, 2, 2) (map inject_Z [2; 4; 6; 8; 10; 12; 14; 16]).

(** ** Vocabulary of the statements in binary64 *)

(** the mask of one float64 channel: lines 32, 36 and 40 *)
Definition channel_mask_f64 (ch : ndarray float) (percentile : float)
  : result (ndarray bool) :=
  do ch_norm <- normalize_f64 ch;
  do thresh <- np_percentile_f64 (data ch_norm) percentile;
  Ok (greater_f64 ch_norm thresh).









(** a float64 channel of 27 voxels: 14 dark ones, one of intensity 2^-60,
    and three times the intensities 1, 2, 3, 4 *)
Definition faint_channel : ndarray float :=
  mk_ndarray (3, 3, 3)
    (repeat 0%float 14 ++ [0x1p-60; 1; 2; 3; 4; 1; 2; 3; 4; 1; 2; 3; 4]%float).

(** the same channel without the faint voxel *)
Definition clear_channel : ndarray float :=
  mk_ndarray (3, 3, 3)
    (repeat 0%float 15 ++ [1; 2; 3; 4; 1; 2; 3; 4; 1; 2; 3; 4]%float).

(** a float64 channel with the intensities 1 to 8 *)
Definition ramp8 : ndarray float :=
  mk_ndarray (2, 2, 2) [1; 2; 3; 4; 5; 6; 7; 8]%float.

(** * Properties *)

(** ** Row-major indexing *)

Lemma length_zrange n : length (zrange n) = Z.to_nat n.
Proof. unfold zrange. now rewrite length_map, length_seq. Qed.

Lemma nth_zrange n i d : 0 <= i < n -> nth (Z.to_nat i) (zrange n) d = i.
Proof.
  intros H. unfold zrange.
  rewrite (nth_indep _ d (Z.of_nat 0)) by (rewrite length_map, length_seq; lia).
  rewrite map_nth, seq_nth by lia. lia.
Qed.

Lemma ravel3_range sh p :
  in_bounds sh p -> 0 <= ravel3 sh p < size3 sh.
Proof.
  destruct sh as [[sz sy] sx], p as [[z y] x]; simpl. intros (Hz & Hy & Hx).
  assert (0 <= z * sy) by (apply Z.mul_nonneg_nonneg; lia).
  assert (0 <= (z * sy + y) * sx) by (apply Z.mul_nonneg_nonneg; lia).
  assert ((z + 1) * sy <= sz * sy) by (apply Z.mul_le_mono_nonneg_r; lia).
  assert ((z * sy + y + 1) * sx <= (sz * sy) * sx)
    by (apply Z.mul_le_mono_nonneg_r; lia).
  lia.
Qed.

Lemma unravel_ravel sh p :
  in_bounds sh p -> unravel_index (ravel3 sh p) sh = p.
Proof.
  destruct sh as [[sz sy] sx], p as [[z y] x]; simpl. intros (Hz & Hy & Hx).
  assert (E1 : ((z * sy + y) * sx + x) / sx = z * sy + y).
  { symmetry. apply (Z.div_unique_pos _ _ _ x); lia. }
  assert (E2 : ((z * sy + y) * sx + x) mod sx = x).
  { symmetry. apply (Z.mod_unique_pos _ _ (z * sy + y)); lia. }
  assert (E3 : ((z * sy + y) * sx + x) / (sy * sx) = z).
  { rewrite (Z.mul_comm sy sx), <- Z.div_div, E1 by lia.
    symmetry. apply (Z.div_unique_pos _ _ _ y); lia. }
  rewrite E1, E2, E3. f_equal. f_equal.
  symmetry. apply (Z.mod_unique_pos _ _ z); lia.
Qed.

Lemma unravel_in_bounds sh i :
  nonneg_shape sh -> 0 <= i < size3 sh -> in_bounds sh (unravel_index i sh).
Proof.
  destruct sh as [[sz sy] sx]; simpl. intros (Hz & Hy & Hx) Hi.
  assert (0 < sx) by nia. assert (0 < sy) by nia.
  repeat split; try (apply Z.mod_pos_bound; lia); try (apply Z.div_pos; nia).
  - apply Z.div_lt_upper_bound; nia.
Qed.

Lemma ravel_unravel sh i :
  nonneg_shape sh -> 0 <= i < size3 sh -> ravel3 sh (unravel_index i sh) = i.
Proof.
  destruct sh as [[sz sy] sx]; simpl. intros (Hz & Hy & Hx) Hi.
  assert (0 < sx) by nia. assert (0 < sy) by nia.
  rewrite (Z.mul_comm sy sx), <- Z.div_div by lia.
  pose proof (Z.div_mod i sx ltac:(lia)).
  pose proof (Z.div_mod (i / sx) sy ltac:(lia)).
  nia.
Qed.

Lemma nth_map_zrange {B} (g : Z -> B) n i d :
  0 <= i < n -> nth (Z.to_nat i) (map g (zrange n)) d = g i.
Proof.
  intros H.
  rewrite (nth_indep _ d (g 0)) by (rewrite length_map, length_zrange; lia).
  now rewrite map_nth, nth_zrange.
Qed.

Section ArrayFacts.
Context {A : Type} (zero : A).

Lemma length_tab3 sh (f : idx3 -> A) :
  length (tab3 sh f) = Z.to_nat (size3 sh).
Proof. unfold tab3. now rewrite length_map, length_zrange. Qed.

Lemma length_tab4 nc sh (f : Z -> idx3 -> A) :
  length (tab4 nc sh f) = Z.to_nat (nc * size3 sh).
Proof. unfold tab4. now rewrite length_map, length_zrange. Qed.

Lemma size3_nonneg sh : nonneg_shape sh -> 0 <= size3 sh.
Proof.
  destruct sh as [[sz sy] sx]; simpl. intros (Hz & Hy & Hx).
  repeat apply Z.mul_nonneg_nonneg; lia.
Qed.

Lemma wf_tab3 sh (f : idx3 -> A) :
  nonneg_shape sh -> wf_array (mk_ndarray sh (tab3 sh f)).
Proof.
  intros H. split; [exact H|]. simpl. rewrite length_tab3.
  pose proof (size3_nonneg sh H). lia.
Qed.

Lemma wf_tab4 nc sh (f : Z -> idx3 -> A) :
  0 <= nc -> nonneg_shape sh -> wf_array4 (mk_ndarray4 nc sh (tab4 nc sh f)).
Proof.
  intros Hc H. repeat split; try assumption. simpl. rewrite length_tab4.
  pose proof (size3_nonneg sh H). nia.
Qed.

Lemma get3_tab3 sh (f : idx3 -> A) p :
  in_bounds sh p -> get3 zero (mk_ndarray sh (tab3 sh f)) p = f p.
Proof.
  intros H. unfold get3, tab3; simpl.
  rewrite nth_map_zrange by (apply ravel3_range; exact H).
  now rewrite unravel_ravel.
Qed.

Lemma get4_tab4 nc sh (f : Z -> idx3 -> A) c p :
  0 <= c < nc -> in_bounds sh p ->
  get4 zero (mk_ndarray4 nc sh (tab4 nc sh f)) c p = f c p.
Proof.
  intros Hc H. unfold get4, tab4; simpl.
  pose proof (ravel3_range sh p H) as Hr.
  assert (Hq : (c * size3 sh + ravel3 sh p) / size3 sh = c).
  { symmetry. apply (Z.div_unique_pos _ _ _ (ravel3 sh p)); lia. }
  assert (Hm : (c * size3 sh + ravel3 sh p) mod size3 sh = ravel3 sh p).
  { symmetry. apply (Z.mod_unique_pos _ _ c); lia. }
  rewrite nth_map_zrange by nia.
  now rewrite Hq, Hm, unravel_ravel.
Qed.

(** every cell of a well-formed array is reached by its coordinates *)
Lemma nth_get3 (a : ndarray A) i :
  wf_array a -> 0 <= i < size3 (shape a) ->
  nth (Z.to_nat i) (data a) zero = get3 zero a (unravel_index i (shape a)).
Proof.
  intros [Hs _] Hi. unfold get3. now rewrite ravel_unravel.
Qed.

End ArrayFacts.

(** ** Patch Extractor *)

Lemma idx3_eqb_eq p q : idx3_eqb p q = true <-> p = q.
Proof.
  destruct p as [[a b] c], q as [[a' b'] c']; simpl.
  rewrite !andb_true_iff, !Z.eqb_eq. split.
  - intros [[-> ->] ->]; reflexivity.
  - intros E; inversion E; auto.
Qed.

Lemma slice_pos_nonneg n i : 0 <= i -> slice_pos n i = Z.min i n.
Proof. intros H. unfold slice_pos. destruct (Z.ltb_spec i 0); lia. Qed.

Lemma half_le p : 0 < p -> 0 <= p / 2 /\ 2 * (p / 2) <= p.
Proof.
  intros H. split; [apply Z.div_pos; lia | apply Z.mul_div_le; lia].
Qed.

Lemma half_ge_1 ps :
  size_at_least_2 ps ->
  let '(hz, hy, hx) := half ps in 1 <= hz /\ 1 <= hy /\ 1 <= hx.
Proof.
  destruct ps as [[pz py] px]; simpl. intros (Hz & Hy & Hx).
  repeat split; apply Z.div_le_lower_bound; lia.
Qed.

Lemma size_at_least_2_positive ps : size_at_least_2 ps -> positive_size ps.
Proof. destruct ps as [[pz py] px]; simpl. lia. Qed.

(** the extent of the clamped slice along one axis *)
Lemma slice_len_axis s c p :
  0 <= s -> 0 <= c <= s -> 0 < p ->
  let a := slice_len s (Z.max 0 (c - p / 2)) (Z.min s (c + p / 2)) in
  0 <= a <= 2 * (p / 2) /\ a <= p /\ slice_len p 0 a = a /\
  slice_pos s (Z.max 0 (c - p / 2)) = Z.max 0 (c - p / 2).
Proof.
  intros Hs Hc Hp. destruct (half_le p Hp) as [H0 H2].
  cbv zeta. unfold slice_len. rewrite !slice_pos_nonneg by lia. lia.
Qed.

Section PatchFacts.
Context {A : Type} (zero : A).

Lemma in_slice_prefix p a i :
  0 <= a <= p -> 0 <= i -> in_slice p 0 a i = (i <? a).
Proof.
  intros Ha Hi. unfold in_slice. rewrite !slice_pos_nonneg by lia.
  destruct (Z.ltb_spec i a), (Z.leb_spec (Z.min 0 p) i), (Z.ltb_spec i (Z.min a p));
    simpl; try reflexivity; lia.
Qed.

Lemma bcast_ix_lt s i : 0 <= i < s -> bcast_ix s i = i.
Proof. intros H. unfold bcast_ix. destruct (Z.eqb_spec s 1); lia. Qed.

Lemma bcast_ok_refl s : bcast_ok s s = true.
Proof. unfold bcast_ok. now rewrite Z.eqb_refl. Qed.

Local Arguments idx3_eqb : simpl never.

Lemma extract_patch_spec (vol : volume A) center ps :
  wf_volume vol -> center_in_volume (spatial_shape vol) center ->
  positive_size ps ->
  exists patch,
    extract_patch zero vol center ps = Ok patch /\
    wf_volume patch /\ spatial_shape patch = ps /\ same_rank vol patch /\
    forall c p, 0 <= c < channels vol -> in_bounds ps p ->
      voxel zero patch c p =
      if idx3_ltb p (actual_size (spatial_shape vol) center ps)
      then voxel zero vol c (idx3_add (patch_start center ps) p)
      else zero.
Proof.
  intros Hwf Hc Hps.
  destruct center as [[z y] x], ps as [[pz py] px].
  destruct Hps as (Hpz & Hpy & Hpx).
  destruct vol as [v|v]; simpl in Hwf, Hc |- *.
  - destruct v as [[[s0 s1] s2] d]. simpl in *.
    destruct Hwf as [(Hs0 & Hs1 & Hs2) Hlen].
    destruct Hc as (Hz & Hy & Hx).
    pose proof (slice_len_axis s0 z pz Hs0 Hz Hpz) as (Ha0 & Hb0 & Hc0 & Hd0).
    pose proof (slice_len_axis s1 y py Hs1 Hy Hpy) as (Ha1 & Hb1 & Hc1 & Hd1).
    pose proof (slice_len_axis s2 x px Hs2 Hx Hpx) as (Ha2 & Hb2 & Hc2 & Hd2).
    unfold extract_patch, slice3; simpl.
    set (a0 := slice_len s0 _ _) in *.
    set (a1 := slice_len s1 _ _) in *.
    set (a2 := slice_len s2 _ _) in *.
    destruct (idx3_eqb (a0, a1, a2) (pz, py, px)) eqn:E; simpl.
    + apply idx3_eqb_eq in E. injection E as E0 E1 E2.
      eexists; split; [reflexivity|].
      split; [apply wf_tab3; simpl; lia|].
      split; [simpl; congruence|]. split; [exact I|].
      intros c [[i j] k] _ Hp. simpl in Hp. simpl.
      rewrite get3_tab3 by (simpl; lia).
      rewrite Hd0, Hd1, Hd2.
      replace (i <? a0) with true by (symmetry; apply Z.ltb_lt; lia).
      replace (j <? a1) with true by (symmetry; apply Z.ltb_lt; lia).
      replace (k <? a2) with true by (symmetry; apply Z.ltb_lt; lia).
      reflexivity.
    + replace ((pz <? 0) || (py <? 0) || (px <? 0)) with false
        by (symmetry; rewrite !orb_false_iff, !Z.ltb_ge; lia).
      simpl. unfold assign_prefix3; simpl.
      rewrite Hc0, Hc1, Hc2, !bcast_ok_refl. simpl.
      eexists; split; [reflexivity|].
      split; [apply wf_tab3; simpl; lia|].
      split; [reflexivity|]. split; [exact I|].
      intros c [[i j] k] _ Hp. simpl in Hp. simpl.
      rewrite get3_tab3 by (simpl; lia).
      rewrite !in_slice_prefix by lia.
      destruct (Z.ltb_spec i a0); simpl;
        [|now rewrite get3_tab3 by (simpl; lia)].
      destruct (Z.ltb_spec j a1); simpl;
        [|now rewrite get3_tab3 by (simpl; lia)].
      destruct (Z.ltb_spec k a2); simpl;
        [|now rewrite get3_tab3 by (simpl; lia)].
      rewrite !bcast_ix_lt by lia.
      rewrite get3_tab3 by (simpl; lia).
      now rewrite Hd0, Hd1, Hd2.
  - destruct v as [nc [[s0 s1] s2] d]. simpl in *.
    destruct Hwf as (Hnc & (Hs0 & Hs1 & Hs2) & Hlen). simpl in Hnc.
    destruct Hc as (Hz & Hy & Hx).
    pose proof (slice_len_axis s0 z pz Hs0 Hz Hpz) as (Ha0 & Hb0 & Hc0 & Hd0).
    pose proof (slice_len_axis s1 y py Hs1 Hy Hpy) as (Ha1 & Hb1 & Hc1 & Hd1).
    pose proof (slice_len_axis s2 x px Hs2 Hx Hpx) as (Ha2 & Hb2 & Hc2 & Hd2).
    unfold extract_patch, slice4; simpl.
    set (a0 := slice_len s0 _ _) in *.
    set (a1 := slice_len s1 _ _) in *.
    set (a2 := slice_len s2 _ _) in *.
    destruct (idx3_eqb (a0, a1, a2) (pz, py, px)) eqn:E; simpl.
    + apply idx3_eqb_eq in E. injection E as E0 E1 E2.
      eexists; split; [reflexivity|].
      split; [apply wf_tab4; simpl; lia|].
      split; [simpl; congruence|]. split; [reflexivity|].
      intros c [[i j] k] Hcc Hp. simpl in Hp, Hcc. simpl.
      rewrite get4_tab4 by (simpl; lia).
      rewrite Hd0, Hd1, Hd2.
      replace (i <? a0) with true by (symmetry; apply Z.ltb_lt; lia).
      replace (j <? a1) with true by (symmetry; apply Z.ltb_lt; lia).
      replace (k <? a2) with true by (symmetry; apply Z.ltb_lt; lia).
      reflexivity.
    + replace ((nc <? 0) || (pz <? 0) || (py <? 0) || (px <? 0)) with false
        by (symmetry; rewrite !orb_false_iff, !Z.ltb_ge; lia).
      simpl. unfold assign_prefix4; simpl.
      rewrite Hc0, Hc1, Hc2, !bcast_ok_refl. simpl.
      eexists; split; [reflexivity|].
      split; [apply wf_tab4; simpl; lia|].
      split; [reflexivity|]. split; [reflexivity|].
      intros c [[i j] k] Hcc Hp. simpl in Hp, Hcc. simpl.
      rewrite get4_tab4 by (simpl; lia).
      rewrite !in_slice_prefix by lia.
      destruct (Z.ltb_spec i a0); simpl;
        [|now rewrite get4_tab4 by (simpl; lia)].
      destruct (Z.ltb_spec j a1); simpl;
        [|now rewrite get4_tab4 by (simpl; lia)].
      destruct (Z.ltb_spec k a2); simpl;
        [|now rewrite get4_tab4 by (simpl; lia)].
      rewrite !bcast_ix_lt by lia.
      rewrite get4_tab4 by (simpl; lia).
      now rewrite Hd0, Hd1, Hd2.
Qed.

(** C4: on a well-formed 3D or 4D volume, for a center anywhere inside the
    spatial extents (faces included) and a positive patch size,
    [extract_patch] returns an array whose spatial shape is exactly
    [patch_size], with the channel axis of the input kept. *)
Theorem extract_patch_exact_shape (vol : volume A) center ps :
  wf_volume vol -> center_in_volume (spatial_shape vol) center ->
  positive_size ps ->
  exists patch,
    extract_patch zero vol center ps = Ok patch /\
    wf_volume patch /\ spatial_shape patch = ps /\ same_rank vol patch.
Proof.
  intros Hwf Hc Hps.
  destruct (extract_patch_spec vol center ps Hwf Hc Hps)
    as (patch & E & W & S & R & _).
  exists patch; auto.
Qed.

(** C5: when the clamped slice is shorter than the patch on some axis, the
    patch holds the slice at its low-index corner (positions below
    [actual_size] on every axis) and the fill value 0 everywhere else: the
    padding sits at the high-index end of each axis. *)
Theorem extract_patch_pads_high_end (vol : volume A) center ps :
  wf_volume vol -> center_in_volume (spatial_shape vol) center ->
  positive_size ps ->
  short_on_some_axis (actual_size (spatial_shape vol) center ps) ps ->
  exists patch,
    extract_patch zero vol center ps = Ok patch /\
    forall c p, 0 <= c < channels vol -> in_bounds ps p ->
      voxel zero patch c p =
      if idx3_ltb p (actual_size (spatial_shape vol) center ps)
      then voxel zero vol c (idx3_add (patch_start center ps) p)
      else zero.
Proof.
  intros Hwf Hc Hps _.
  destruct (extract_patch_spec vol center ps Hwf Hc Hps)
    as (patch & E & _ & _ & _ & V).
  exists patch; auto.
Qed.

Lemma actual_size_le (sh center ps : idx3) :
  nonneg_shape sh -> center_in_volume sh center -> positive_size ps ->
  let '(a0, a1, a2) := actual_size sh center ps in
  let '(pz, py, px) := ps in
  a0 <= 2 * (pz / 2) /\ a1 <= 2 * (py / 2) /\ a2 <= 2 * (px / 2).
Proof.
  destruct sh as [[s0 s1] s2], center as [[z y] x], ps as [[pz py] px].
  simpl. intros (Hs0 & Hs1 & Hs2) (Hz & Hy & Hx) (Hpz & Hpy & Hpx).
  pose proof (slice_len_axis s0 z pz Hs0 Hz Hpz) as (Ha0 & _).
  pose proof (slice_len_axis s1 y py Hs1 Hy Hpy) as (Ha1 & _).
  pose proof (slice_len_axis s2 x px Hs2 Hx Hpx) as (Ha2 & _).
  lia.
Qed.

Lemma odd_half p : Z.odd p = true -> 2 * (p / 2) = p - 1.
Proof.
  intros H. rewrite (Zodd_div2 p) at 2 by (now apply Zodd_bool_iff).
  rewrite Z.div2_div. lia.
Qed.

Lemma wf_spatial (vol : volume A) : wf_volume vol -> nonneg_shape (spatial_shape vol).
Proof. destruct vol; simpl; intros H; apply H. Qed.

(** C9: along an axis whose patch extent [p] is odd the copied slice has
    at most [2 * (p // 2) = p - 1] voxels, so the last position of the
    patch on that axis holds 0, wherever the center lies. *)
Theorem extract_patch_odd_axis_padded (vol : volume A) center ps :
  wf_volume vol -> center_in_volume (spatial_shape vol) center ->
  positive_size ps ->
  exists patch,
    extract_patch zero vol center ps = Ok patch /\
    let '(a0, a1, a2) := actual_size (spatial_shape vol) center ps in
    let '(pz, py, px) := ps in
    (Z.odd pz = true ->
       a0 <= 2 * (pz / 2) /\ 2 * (pz / 2) = pz - 1 /\
       forall c y x, 0 <= c < channels vol -> 0 <= y < py -> 0 <= x < px ->
         voxel zero patch c (pz - 1, y, x) = zero) /\
    (Z.odd py = true ->
       a1 <= 2 * (py / 2) /\ 2 * (py / 2) = py - 1 /\
       forall c z x, 0 <= c < channels vol -> 0 <= z < pz -> 0 <= x < px ->
         voxel zero patch c (z, py - 1, x) = zero) /\
    (Z.odd px = true ->
       a2 <= 2 * (px / 2) /\ 2 * (px / 2) = px - 1 /\
       forall c z y, 0 <= c < channels vol -> 0 <= z < pz -> 0 <= y < py ->
         voxel zero patch c (z, y, px - 1) = zero).
Proof.
  intros Hwf Hc Hps.
  destruct (extract_patch_spec vol center ps Hwf Hc Hps)
    as (patch & E & _ & _ & _ & V).
  exists patch; split; [exact E|].
  pose proof (actual_size_le _ center ps (wf_spatial vol Hwf) Hc Hps) as Hle.
  destruct (actual_size (spatial_shape vol) center ps) as [[a0 a1] a2].
  destruct ps as [[pz py] px]. destruct Hps as (Hpz & Hpy & Hpx).
  destruct Hle as (L0 & L1 & L2).
  repeat split; try assumption; try (now apply odd_half).
  - intros c y x Hcc Hy Hx. pose proof (odd_half pz H).
    rewrite V by (simpl; lia). simpl.
    replace (pz - 1 <? a0) with false by (symmetry; apply Z.ltb_ge; lia).
    reflexivity.
  - intros c z x Hcc Hz Hx. pose proof (odd_half py H).
    rewrite V by (simpl; lia). simpl.
    replace (py - 1 <? a1) with false by (symmetry; apply Z.ltb_ge; lia).
    now rewrite andb_false_r.
  - intros c z y Hcc Hz Hy. pose proof (odd_half px H).
    rewrite V by (simpl; lia). simpl.
    replace (px - 1 <? a2) with false by (symmetry; apply Z.ltb_ge; lia).
    now rewrite andb_false_r.
Qed.

End PatchFacts.

Lemma wf_pair4 : wf_volume (Multi pair4).
Proof. repeat split; simpl; lia. Qed.

Lemma wf_cube8 : wf_volume (Single cube8).
Proof. repeat split; simpl; lia. Qed.

(** a center on the far corner of a two-channel volume *)
Lemma extract_patch_exact_shape_witness :
  wf_volume (Multi pair4) /\
  center_in_volume (spatial_shape (Multi pair4)) (2, 2, 1) /\
  positive_size (3, 2, 1) /\
  exists patch,
    extract_patch 0%Q (Multi pair4) (2, 2, 1) (3, 2, 1) = Ok patch /\
    wf_volume patch /\ spatial_shape patch = (3, 2, 1) /\
    same_rank (Multi pair4) patch.
Proof.
  assert (H1 := wf_pair4).
  assert (H2 : center_in_volume (spatial_shape (Multi pair4)) (2, 2, 1))
    by (simpl; lia).
  assert (H3 : positive_size (3, 2, 1)) by (simpl; lia).
  split; [exact H1|]. split; [exact H2|]. split; [exact H3|].
  apply (extract_patch_exact_shape 0%Q (Multi pair4) (2, 2, 1) (3, 2, 1));
    assumption.
Defined.

(** a center on the low corner: one voxel of slice, the rest padding *)
Lemma extract_patch_pads_high_end_witness :
  wf_volume (Single cube8) /\
  center_in_volume (spatial_shape (Single cube8)) (0, 0, 0) /\
  positive_size (2, 2, 2) /\
  short_on_some_axis (actual_size (spatial_shape (Single cube8)) (0, 0, 0) (2, 2, 2))
    (2, 2, 2) /\
  exists patch,
    extract_patch 0%Q (Single cube8) (0, 0, 0) (2, 2, 2) = Ok patch /\
    forall c p, 0 <= c < channels (Single cube8) -> in_bounds (2, 2, 2) p ->
      voxel 0%Q patch c p =
      if idx3_ltb p (actual_size (spatial_shape (Single cube8)) (0, 0, 0) (2, 2, 2))
      then voxel 0%Q (Single cube8) c (idx3_add (patch_start (0, 0, 0) (2, 2, 2)) p)
      else 0%Q.
Proof.
  assert (H1 := wf_cube8).
  assert (H2 : center_in_volume (spatial_shape (Single cube8)) (0, 0, 0))
    by (simpl; lia).
  assert (H3 : positive_size (2, 2, 2)) by (simpl; lia).
  assert (H4 : short_on_some_axis
                 (actual_size (spatial_shape (Single cube8)) (0, 0, 0) (2, 2, 2))
                 (2, 2, 2)) by (vm_compute; left; reflexivity).
  split; [exact H1|]. split; [exact H2|]. split; [exact H3|].
  split; [exact H4|].
  apply (extract_patch_pads_high_end 0%Q (Single cube8) (0, 0, 0) (2, 2, 2));
    assumption.
Defined.

(** an interior center and an odd patch: the last plane is padding *)
Lemma extract_patch_odd_axis_padded_witness :
  wf_volume (Single cube8) /\
  center_in_volume (spatial_shape (Single cube8)) (1, 1, 1) /\
  positive_size (3, 3, 3) /\
  exists patch,
    extract_patch 0%Q (Single cube8) (1, 1, 1) (3, 3, 3) = Ok patch /\
    voxel 0%Q patch 0 (2, 1, 1) = 0%Q /\
    voxel 0%Q patch 0 (1, 2, 1) = 0%Q /\
    voxel 0%Q patch 0 (1, 1, 2) = 0%Q.
Proof.
  assert (H1 := wf_cube8).
  assert (H2 : center_in_volume (spatial_shape (Single cube8)) (1, 1, 1))
    by (simpl; lia).
  assert (H3 : positive_size (3, 3, 3)) by (simpl; lia).
  split; [exact H1|]. split; [exact H2|]. split; [exact H3|].
  destruct (extract_patch_odd_axis_padded 0%Q (Single cube8) (1, 1, 1) (3, 3, 3)
              H1 H2 H3) as (patch & E & P).
  exists patch. split; [exact E|].
  change (actual_size (spatial_shape (Single cube8)) (1, 1, 1) (3, 3, 3))
    with (2, 2, 2) in P.
  destruct P as (Pz & Py & Px).
  destruct (Pz eq_refl) as (_ & _ & Vz).
  destruct (Py eq_refl) as (_ & _ & Vy).
  destruct (Px eq_refl) as (_ & _ & Vx).
  repeat split.
  - apply (Vz 0 1 1); simpl; lia.
  - apply (Vy 0 1 1); simpl; lia.
  - apply (Vx 0 1 1); simpl; lia.
Defined.

(** ** Hotspot Selector *)

(** [argmax_from] scans [t], whose first cell has flat position [i],
    with a running best [b] found at [bi]. *)
Lemma argmax_from_spec t : forall bi b i,
  let r := argmax_from bi b i t in
  (r = bi /\ Forall (fun v => (v <= b)%Q) t) \/
  (i <= r < i + Z.of_nat (length t) /\
   (b < nth (Z.to_nat (r - i)) t 0)%Q /\
   Forall (fun v => (v <= nth (Z.to_nat (r - i)) t 0)%Q) t /\
   forall j, (j < Z.to_nat (r - i))%nat ->
     (nth j t 0 < nth (Z.to_nat (r - i)) t 0)%Q).
Proof.
  induction t as [|v t IH]; intros bi b i; simpl.
  - left. split; [reflexivity | constructor].
  - destruct (Qlt_le_dec b v) as [Hlt | Hle].
    + right. specialize (IH i v (i + 1)). cbv zeta in IH.
      destruct IH as [[E F] | (R & L & F & P)].
      * rewrite E. replace (Z.to_nat (i - i)) with 0%nat by lia. simpl.
        split; [lia|]. split; [exact Hlt|]. split.
        -- constructor; [apply Qle_refl | exact F].
        -- intros j Hj; lia.
      * set (r := argmax_from i v (i + 1) t) in *.
        replace (Z.to_nat (r - i)) with (S (Z.to_nat (r - (i + 1)))) by lia.
        simpl. split; [lia|]. split; [eapply Qlt_trans; eauto|]. split.
        -- constructor; [apply Qlt_le_weak; exact L | exact F].
        -- intros [|j] Hj; [exact L | apply P; lia].
    + specialize (IH bi b (i + 1)). cbv zeta in IH.
      destruct IH as [[E F] | (R & L & F & P)].
      * left. split; [exact E|]. constructor; assumption.
      * right. set (r := argmax_from bi b (i + 1) t) in *.
        replace (Z.to_nat (r - i)) with (S (Z.to_nat (r - (i + 1)))) by lia.
        simpl. split; [lia|]. split; [exact L|]. split.
        -- constructor; [|exact F].
           eapply Qle_trans; [exact Hle | apply Qlt_le_weak; exact L].
        -- intros [|j] Hj; [|apply P; lia].
           eapply Qle_lt_trans; eauto.
Qed.

Lemma np_argmax_spec l :
  l <> [] ->
  exists i, np_argmax l = Ok i /\
    0 <= i < Z.of_nat (length l) /\
    Forall (fun v => (v <= nth (Z.to_nat i) l 0)%Q) l /\
    forall j, (j < Z.to_nat i)%nat -> (nth j l 0 < nth (Z.to_nat i) l 0)%Q.
Proof.
  destruct l as [|v t]; [congruence|]. intros _. simpl.
  eexists; split; [reflexivity|].
  pose proof (argmax_from_spec t 0 v 1) as H. cbv zeta in H.
  set (r := argmax_from 0 v 1 t) in *.
  destruct H as [[E F] | (R & L & F & P)].
  - rewrite E. simpl. split; [lia|]. split.
    + constructor; [apply Qle_refl | exact F].
    + intros j Hj; lia.
  - replace (Z.to_nat r) with (S (Z.to_nat (r - 1))) by lia. simpl.
    split; [lia|]. split.
    + constructor; [apply Qlt_le_weak; exact L | exact F].
    + intros [|j] Hj; [exact L | apply P; lia].
Qed.

Lemma unravel_zero sh : unravel_index 0 sh = (0, 0, 0).
Proof. destruct sh as [[sz sy] sx]. reflexivity. Qed.

Lemma candidate_spec (d : ndarray Q) :
  wf_array d -> 0 < size3 (shape d) ->
  exists c, candidate d = Ok c /\ in_bounds (shape d) c /\
    (forall p, in_bounds (shape d) p -> (get3 0 d p <= get3 0 d c)%Q) /\
    (c <> (0, 0, 0) -> (get3 0 d (0, 0, 0)%Z < get3 0 d c)%Q).
Proof.
  intros Hwf Hsz. pose proof Hwf as [Hs Hlen].
  assert (Hne : data d <> []).
  { intros E. rewrite E in Hlen. simpl in Hlen. lia. }
  destruct (np_argmax_spec (data d) Hne) as (i & E & Hi & Hmax & Hfirst).
  unfold candidate. rewrite E. simpl.
  eexists; split; [reflexivity|].
  assert (Hi' : 0 <= i < size3 (shape d)) by lia.
  split; [now apply unravel_in_bounds|].
  rewrite <- (nth_get3 0%Q d i Hwf Hi').
  split.
  - intros p Hp. unfold get3.
    apply (proj1 (List.Forall_forall _ _) Hmax), List.nth_In.
    pose proof (ravel3_range _ _ Hp). lia.
  - intros Hc.
    assert (i <> 0) by (intros ->; apply Hc; apply unravel_zero).
    specialize (Hfirst 0%nat ltac:(lia)).
    unfold get3. destruct (shape d) as [[sz sy] sx]. simpl. exact Hfirst.
Qed.

Lemma in_slice_box s c h q :
  0 <= c < s -> 0 <= h -> 0 <= q < s ->
  in_slice s (Z.max 0 (c - h)) (Z.min s (c + h)) q = true <-> c - h <= q < c + h.
Proof.
  intros Hc Hh Hq. unfold in_slice. rewrite !slice_pos_nonneg by lia.
  rewrite andb_true_iff, Z.leb_le, Z.ltb_lt. lia.
Qed.

Lemma suppress_spec (d : ndarray Q) c ps :
  wf_array d -> in_bounds (shape d) c -> positive_size ps ->
  let d' := suppress (shape d) ps d c in
  shape d' = shape d /\ wf_array d' /\
  forall p, in_bounds (shape d) p ->
    (in_box c (half ps) p -> get3 0%Q d' p = 0%Q) /\
    (~ in_box c (half ps) p -> get3 0%Q d' p = get3 0%Q d p).
Proof.
  intros Hwf Hc Hps. cbv zeta.
  destruct d as [[[s0 s1] s2] dat], c as [[z y] x], ps as [[pz py] px].
  destruct Hwf as [Hs Hlen]. simpl in Hs, Hc, Hps |- *.
  destruct Hps as (Hpz & Hpy & Hpx).
  destruct (half_le pz Hpz) as [Hz0 _], (half_le py Hpy) as [Hy0 _],
    (half_le px Hpx) as [Hx0 _].
  unfold suppress, fill_slice3; simpl.
  split; [reflexivity|]. split; [now apply wf_tab3|].
  intros [[i j] k] Hp. simpl in Hp.
  rewrite get3_tab3 by exact Hp.
  pose proof (in_slice_box s0 z (pz / 2) i ltac:(lia) Hz0 ltac:(lia)) as B0.
  pose proof (in_slice_box s1 y (py / 2) j ltac:(lia) Hy0 ltac:(lia)) as B1.
  pose proof (in_slice_box s2 x (px / 2) k ltac:(lia) Hx0 ltac:(lia)) as B2.
  destruct (in_slice s0 _ _ i), (in_slice s1 _ _ j), (in_slice s2 _ _ k);
    simpl; split; intros H; try reflexivity; try lia;
    try (exfalso; apply H; lia).
Qed.

Lemma separated_snoc h cs c :
  separated h cs -> (forall a, In a cs -> ~ in_box a h c) ->
  separated h (cs ++ [c]).
Proof.
  unfold separated. induction 1 as [|a l Ha Hl IH]; intros Hc; simpl.
  - constructor; constructor.
  - constructor.
    + apply Forall_app; split; [exact Ha|].
      constructor; [apply Hc; now left | constructor].
    + apply IH. intros b Hb. apply Hc. now right.
Qed.

Lemma center_valid_origin sh ps :
  positive_size ps -> center_valid (0, 0, 0) sh ps = true -> half ps = (0, 0, 0).
Proof.
  destruct sh as [[s0 s1] s2], ps as [[pz py] px]; simpl.
  intros (Hpz & Hpy & Hpx).
  destruct (half_le pz Hpz) as [Hz0 _], (half_le py Hpy) as [Hy0 _],
    (half_le px Hpx) as [Hx0 _].
  unfold too_close. rewrite negb_true_iff, !orb_false_iff.
  intros [[[Hz _] [Hy _]] [Hx _]].
  apply Z.ltb_ge in Hz, Hy, Hx.
  repeat f_equal; lia.
Qed.

Lemma in_box_empty c p : ~ in_box c (0, 0, 0) p.
Proof. destruct c as [[cz cy] cx], p as [[z y] x]; simpl. lia. Qed.

Lemma in_box_dec c h p : in_box c h p \/ ~ in_box c h p.
Proof.
  destruct c as [[cz cy] cx], h as [[hz hy] hx], p as [[z y] x]; simpl. lia.
Qed.

(** One iteration from a state satisfying the invariant. *)
Lemma hotspot_iter_spec sh ps d cs :
  selector_inv sh ps (d, cs) -> 0 < size3 sh -> positive_size ps ->
  exists c,
    candidate d = Ok c /\ in_bounds sh c /\
    let d' := suppress sh ps d c in
    let cs' := if center_valid c sh ps then cs ++ [c] else cs in
    hotspot_iter sh ps (d, cs) = Ok (d', cs') /\
    selector_inv sh ps (d', cs') /\
    box_suppressed d' c (half ps) /\
    (forall c0, box_suppressed d c0 (half ps) -> box_suppressed d' c0 (half ps)) /\
    (forall c0, box_suppressed d c0 (half ps) ->
       center_valid c sh ps = true -> ~ in_box c0 (half ps) c).
Proof.
  intros (Hwf & Hsh & Hnn & Hbox & Hsep) Hsz Hps. subst sh.
  destruct (candidate_spec d Hwf Hsz) as (c & Ec & Hc & Hmax & Hfirst).
  exists c. split; [exact Ec|]. split; [exact Hc|]. cbv zeta.
  destruct (suppress_spec d c ps Hwf Hc Hps) as (Hsh' & Hwf' & Hget).
  set (d' := suppress (shape d) ps d c) in *.
  assert (Hmono : forall c0, box_suppressed d c0 (half ps) ->
                             box_suppressed d' c0 (half ps)).
  { intros c0 H0 p Hp Hin. rewrite Hsh' in Hp.
    destruct (Hget p Hp) as [Hz Hk].
    destruct (in_box_dec c (half ps) p) as [Hb | Hb].
    - rewrite (Hz Hb). reflexivity.
    - rewrite (Hk Hb). now apply H0. }
  assert (Hout : forall c0, box_suppressed d c0 (half ps) ->
                   center_valid c (shape d) ps = true -> ~ in_box c0 (half ps) c).
  { intros c0 H0 Hv Hin.
    assert (Hzero : (get3 0%Q d c == 0)%Q) by now apply H0.
    assert (Horigin : c = (0, 0, 0)).
    { destruct (idx3_eqb c (0, 0, 0)) eqn:E; [now apply idx3_eqb_eq|].
      assert (Hne : c <> (0, 0, 0)).
      { intros ->. rewrite (proj2 (idx3_eqb_eq _ _) eq_refl) in E. discriminate. }
      specialize (Hfirst Hne).
      assert (Ho : in_bounds (shape d) (0, 0, 0)).
      { destruct (shape d) as [[s0 s1] s2], c as [[z y] x]. simpl in *. lia. }
      specialize (Hnn _ Ho). lra. }
    subst c. rewrite (center_valid_origin _ _ Hps Hv) in Hin.
    exact (in_box_empty _ _ Hin). }
  assert (Hnew : box_suppressed d' c (half ps)).
  { intros p Hp Hin. rewrite Hsh' in Hp.
    rewrite (proj1 (Hget p Hp) Hin). reflexivity. }
  assert (Hnn' : nonneg_density d').
  { intros p Hp. rewrite Hsh' in Hp. destruct (Hget p Hp) as [Hz Hk].
    destruct (in_box_dec c (half ps) p) as [Hb | Hb].
    - rewrite (Hz Hb). apply Qle_refl.
    - rewrite (Hk Hb). now apply Hnn. }
  split.
  { unfold hotspot_iter. rewrite Ec. reflexivity. }
  split; [|auto].
  split; [exact Hwf'|]. split; [exact Hsh'|]. split; [exact Hnn'|].
  destruct (center_valid c (shape d) ps) eqn:Hv.
  - split.
    + intros c0 H0. apply in_app_or in H0. destruct H0 as [H0 | [<- | []]].
      * apply Hmono, Hbox, H0.
      * exact Hnew.
    + apply separated_snoc; [exact Hsep|].
      intros a Ha. apply Hout; [now apply Hbox | reflexivity].
  - split; [|exact Hsep].
    intros c0 H0. apply Hmono, Hbox, H0.
Qed.

(** Any number of iterations from a state satisfying the invariant: the
    loop returns, it only appends to the list, every box that was
    suppressed stays suppressed, and nothing appended lies in it. *)
Lemma hotspot_loop_spec sh ps k : forall d cs,
  selector_inv sh ps (d, cs) -> 0 < size3 sh -> positive_size ps ->
  exists d' later,
    hotspot_loop k sh ps (d, cs) = Ok (d', cs ++ later) /\
    selector_inv sh ps (d', cs ++ later) /\
    (length later <= k)%nat /\
    forall c0, box_suppressed d c0 (half ps) ->
      box_suppressed d' c0 (half ps) /\
      Forall (fun c2 => ~ in_box c0 (half ps) c2) later.
Proof.
  induction k as [|k IH]; intros d cs Hinv Hsz Hps.
  - exists d, []. rewrite app_nil_r. simpl.
    split; [reflexivity|]. split; [exact Hinv|]. split; [lia|].
    intros c0 H0. split; [exact H0 | constructor].
  - destruct (hotspot_iter_spec sh ps d cs Hinv Hsz Hps)
      as (c & Ec & Hc & Hit & Hinv1 & Hnew & Hmono & Hout).
    cbv zeta in Hit, Hinv1.
    destruct (IH _ _ Hinv1 Hsz Hps) as (d' & later & El & Hinv' & Hlen & Hkeep).
    cbn [hotspot_loop]. rewrite Hit. cbn [rbind].
    destruct (center_valid c sh ps) eqn:Hv.
    + exists d', (c :: later).
      rewrite <- app_assoc in El, Hinv'. simpl in El, Hinv'.
      split; [exact El|]. split; [exact Hinv'|]. split; [simpl; lia|].
      intros c0 H0. destruct (Hkeep c0 (Hmono c0 H0)) as [K1 K2].
      split; [exact K1|]. constructor; [|exact K2].
      apply Hout; [exact H0 | reflexivity].
    + exists d', later.
      split; [exact El|]. split; [exact Hinv'|]. split; [lia|].
      intros c0 H0. apply Hkeep, Hmono, H0.
Qed.

Lemma selector_inv_init d ps :
  wf_array d -> nonneg_density d -> selector_inv (shape d) ps (d, []).
Proof.
  intros Hwf Hnn. repeat split; auto; try apply Hwf.
  - intros c [].
  - constructor.
Qed.

(** C1 (as amended): started on a non-negative density map, the selector
    returns at most [count] centers and no returned center lies in the
    suppression box (half-extent [patch_size // 2], open at the high end)
    of a center returned before it. *)
Theorem select_hotspots_separated d count ps :
  wf_array d -> 0 < size3 (shape d) -> nonneg_density d -> positive_size ps ->
  exists centers,
    select_hotspots d count ps = Ok centers /\
    Z.of_nat (length centers) <= Z.max 0 count /\
    separated (half ps) centers.
Proof.
  intros Hwf Hsz Hnn Hps.
  destruct (hotspot_loop_spec (shape d) ps (Z.to_nat count) d []
              (selector_inv_init d ps Hwf Hnn) Hsz Hps)
    as (d' & later & El & Hinv & Hlen & _).
  exists later. unfold select_hotspots. rewrite El. simpl.
  split; [reflexivity|]. split; [lia|].
  destruct Hinv as (_ & _ & _ & _ & Hsep). exact Hsep.
Qed.

(** C3: at every iteration of the loop (here the one following [n0]
    completed iterations), whether the candidate is accepted or
    rejected, the density is zero after the suppression step on every
    cell of the candidate's box that lies inside the array (the
    candidate's own cell among them as soon as every patch extent is at
    least 2); these cells stay zero in all later iterations and no
    center accepted later lies in the box. *)
Theorem suppression_zeroes_candidate_box d0 ps n0 :
  wf_array d0 -> 0 < size3 (shape d0) -> nonneg_density d0 -> positive_size ps ->
  exists d cs c,
    hotspot_loop n0 (shape d0) ps (d0, []) = Ok (d, cs) /\
    candidate d = Ok c /\
    let d' := suppress (shape d0) ps d c in
    let cs' := if center_valid c (shape d0) ps then cs ++ [c] else cs in
    hotspot_iter (shape d0) ps (d, cs) = Ok (d', cs') /\
    box_suppressed d' c (half ps) /\
    (size_at_least_2 ps -> (get3 0%Q d' c == 0)%Q) /\
    forall k, exists d'' later,
      hotspot_loop k (shape d0) ps (d', cs') = Ok (d'', cs' ++ later) /\
      box_suppressed d'' c (half ps) /\
      Forall (fun c2 => ~ in_box c (half ps) c2) later.
Proof.
  intros Hwf Hsz Hnn Hps.
  destruct (hotspot_loop_spec (shape d0) ps n0 d0 []
              (selector_inv_init d0 ps Hwf Hnn) Hsz Hps)
    as (d & cs & El & Hinv & _ & _).
  simpl in El, Hinv.
  destruct (hotspot_iter_spec (shape d0) ps d cs Hinv Hsz Hps)
    as (c & Ec & Hc & Hit & Hinv1 & Hnew & _ & _).
  cbv zeta in Hit, Hinv1.
  exists d, cs, c. split; [exact El|]. split; [exact Ec|]. cbv zeta.
  split; [exact Hit|]. split; [exact Hnew|].
  split.
  { intros H2. apply Hnew.
    - destruct Hinv1 as (_ & -> & _). exact Hc.
    - pose proof (half_ge_1 ps H2) as Hh.
      destruct (half ps) as [[hz hy] hx], c as [[z y] x]. simpl in Hh |- *. lia. }
  intros k.
  destruct (hotspot_loop_spec (shape d0) ps k _ _ Hinv1 Hsz Hps)
    as (d'' & later & El' & _ & _ & Hkeep).
  exists d'', later. split; [exact El'|]. apply Hkeep, Hnew.
Qed.

(** ** Density Mapper *)

Lemma Qsum_nonneg l : Forall (fun v => (0 <= v)%Q) l -> (0 <= Qsum l)%Q.
Proof.
  induction 1 as [|v l Hv _ IH]; simpl; [apply Qle_refl|]. lra.
Qed.

Lemma Qsum_zero l : Forall (fun v => (v == 0)%Q) l -> (Qsum l == 0)%Q.
Proof.
  induction 1 as [|v l Hv _ IH]; simpl; [reflexivity|]. lra.
Qed.

Lemma Forall_map_all {X Y} (P : Y -> Prop) (f : X -> Y) l :
  (forall x, P (f x)) -> Forall P (map f l).
Proof. intros H. induction l; simpl; constructor; auto. Qed.

Lemma nth_astype_float_nonneg l n :
  (0 <= nth n (map (fun b : bool => if b then 1%Q else 0%Q) l) 0)%Q.
Proof.
  revert n. induction l as [|b l IH]; intros [|n]; simpl;
    try apply Qle_refl; [|apply IH].
  destruct b; [discriminate | apply Qle_refl].
Qed.

Lemma nth_astype_float_false l n :
  Forall (fun b : bool => b = false) l ->
  nth n (map (fun b : bool => if b then 1%Q else 0%Q) l) 0%Q = 0%Q.
Proof.
  intros H. revert n. induction H as [|b l Hb _ IH]; intros [|n]; simpl;
    try reflexivity; [|apply IH].
  now rewrite Hb.
Qed.

Lemma nth_ones_nonneg {X} (l : list X) n :
  (0 <= nth n (map (fun _ : X => 1%Q) l) 0)%Q.
Proof.
  revert n. induction l as [|b l IH]; intros [|n]; simpl;
    try apply Qle_refl; [discriminate | apply IH].
Qed.

Lemma np_ones_ok sh :
  nonneg_shape sh -> np_ones sh = Ok (mk_ndarray sh (tab3 sh (fun _ => 1%Q))).
Proof.
  destruct sh as [[sz sy] sx]; simpl. intros (Hz & Hy & Hx).
  replace ((sz <? 0) || (sy <? 0) || (sx <? 0)) with false; [reflexivity|].
  symmetry. rewrite !orb_false_iff, !Z.ltb_ge. lia.
Qed.

(** the density map of a run with patch extents of at least 2 *)
Lemma density_map_spec (m : ndarray bool) ps :
  wf_array m -> size_at_least_2 ps ->
  exists kernel d,
    np_ones (half ps) = Ok kernel /\
    ndimage_convolve (astype_float m) kernel = Ok d /\
    wf_array d /\ shape d = shape m /\ nonneg_density d /\
    (all_false m -> all_zero_density d).
Proof.
  intros [Hs Hlen] Hps. pose proof (half_ge_1 ps Hps) as Hh.
  destruct (half ps) as [[hz hy] hx]. destruct Hh as (Hz & Hy & Hx).
  rewrite np_ones_ok by (simpl; lia).
  eexists; eexists. split; [reflexivity|].
  unfold ndimage_convolve. cbn [shape].
  replace ((hz <=? 0) || (hy <=? 0) || (hx <=? 0)) with false
    by (symmetry; rewrite !orb_false_iff, !Z.leb_gt; lia).
  split; [reflexivity|].
  split; [apply wf_tab3; exact Hs|]. split; [reflexivity|]. split.
  - intros p Hp. cbn [shape astype_float] in Hp |- *.
    rewrite get3_tab3 by exact Hp. destruct p as [[z y] x].
    apply Qsum_nonneg. unfold tab3. apply Forall_map_all.
    intros i. destruct (unravel_index i (hz, hy, hx)) as [[m0 m1] m2].
    apply Qmult_le_0_compat.
    + unfold get3, tab3; cbn [data]. apply nth_ones_nonneg.
    + unfold get3_padded. destruct (in_boundsb _ _); [|apply Qle_refl].
      unfold get3, astype_float; cbn [data]. apply nth_astype_float_nonneg.
  - intros Hf p Hp. cbn [shape astype_float] in Hp |- *.
    rewrite get3_tab3 by exact Hp. destruct p as [[z y] x].
    apply Qsum_zero. unfold tab3. apply Forall_map_all.
    intros i. destruct (unravel_index i (hz, hy, hx)) as [[m0 m1] m2].
    unfold get3_padded. destruct (in_boundsb _ _); [|apply Qmult_0_r].
    unfold get3 at 2, astype_float; cbn [data].
    rewrite nth_astype_float_false by exact Hf. apply Qmult_0_r.
Qed.

Lemma origin_in_bounds sh : nonneg_shape sh -> 0 < size3 sh -> in_bounds sh (0, 0, 0).
Proof. destruct sh as [[sz sy] sx]; simpl. intros (Hz & Hy & Hx) H. nia. Qed.

Lemma center_invalid_origin sh ps :
  size_at_least_2 ps -> center_valid (0, 0, 0) sh ps = false.
Proof.
  intros Hps. pose proof (half_ge_1 ps Hps) as Hh.
  destruct sh as [[s0 s1] s2], ps as [[pz py] px]. simpl in Hh |- *.
  unfold too_close. replace (0 <? pz / 2) with true; [reflexivity|].
  symmetry. apply Z.ltb_lt. lia.
Qed.

(** on a density map that is zero everywhere every candidate is the
    origin, which is too close to the edge: nothing is ever accepted *)
Lemma hotspot_loop_all_zero sh ps k : forall d,
  wf_array d -> shape d = sh -> 0 < size3 sh -> all_zero_density d ->
  size_at_least_2 ps ->
  exists d', hotspot_loop k sh ps (d, []) = Ok (d', []).
Proof.
  induction k as [|k IH]; intros d Hwf Hsh Hsz Hz Hps.
  - exists d. reflexivity.
  - subst sh.
    destruct (candidate_spec d Hwf Hsz) as (c & Ec & Hc & _ & Hfirst).
    assert (Horigin : c = (0, 0, 0)).
    { destruct (idx3_eqb c (0, 0, 0)) eqn:E; [now apply idx3_eqb_eq|].
      assert (Hne : c <> (0, 0, 0)).
      { intros ->. rewrite (proj2 (idx3_eqb_eq _ _) eq_refl) in E. discriminate. }
      specialize (Hfirst Hne).
      pose proof (Hz _ (origin_in_bounds _ (proj1 Hwf) Hsz)).
      pose proof (Hz _ Hc). lra. }
    subst c.
    destruct (suppress_spec d (0, 0, 0) ps Hwf Hc (size_at_least_2_positive _ Hps))
      as (Hsh' & Hwf' & Hget).
    cbn [hotspot_loop]. unfold hotspot_iter. rewrite Ec. cbn [rbind].
    rewrite center_invalid_origin by exact Hps.
    apply IH; auto.
    intros p Hp. rewrite Hsh' in Hp. destruct (Hget p Hp) as [H1 H2].
    destruct (in_box_dec (0, 0, 0) (half ps) p) as [Hb | Hb].
    + rewrite (H1 Hb). reflexivity.
    + rewrite (H2 Hb). now apply Hz.
Qed.

(** an all-false mask yields no center *)
Lemma find_hotspots_all_false (m : ndarray bool) n ps :
  wf_array m -> 0 < size3 (shape m) -> all_false m -> size_at_least_2 ps ->
  find_colocalization_hotspots m n ps = Ok [].
Proof.
  intros Hwf Hsz Hf Hps.
  destruct (density_map_spec m ps Hwf Hps) as (kernel & d & Ek & Ed & Hwd & Hsd & _ & Hz).
  unfold find_colocalization_hotspots. rewrite Ek. cbn [rbind]. rewrite Ed. cbn [rbind].
  destruct (hotspot_loop_all_zero (shape m) ps (Z.to_nat n) d Hwd Hsd Hsz (Hz Hf) Hps)
    as (d' & E).
  now rewrite E.
Qed.

(** the same holds for the function itself, whose density map is the
    box convolution of the mask *)
Lemma find_hotspots_separated (m : ndarray bool) count ps :
  wf_array m -> 0 < size3 (shape m) -> size_at_least_2 ps ->
  exists centers,
    find_colocalization_hotspots m count ps = Ok centers /\
    Z.of_nat (length centers) <= Z.max 0 count /\
    separated (half ps) centers.
Proof.
  intros Hwf Hsz Hps.
  destruct (density_map_spec m ps Hwf Hps)
    as (kernel & d & Ek & Ed & Hwd & Hsd & Hnn & _).
  pose proof (selector_inv_init d ps Hwd Hnn) as Hinv. rewrite Hsd in Hinv.
  destruct (hotspot_loop_spec (shape m) ps (Z.to_nat count) d [] Hinv Hsz
              (size_at_least_2_positive ps Hps))
    as (d' & later & El & Hinv' & Hlen & _).
  exists later. unfold find_colocalization_hotspots.
  rewrite Ek. cbn [rbind]. rewrite Ed. cbn [rbind]. rewrite El. simpl.
  split; [reflexivity|]. split; [lia|].
  destruct Hinv' as (_ & _ & _ & _ & Hsep). exact Hsep.
Qed.

(** C1, as stated, fails: with patch size 2 a mask holding two adjacent
    voxels yields both of them as centers, and their boxes share the
    cells of the plane z = 1. *)
Lemma hotspot_boxes_overlap_counterexample :
  find_colocalization_hotspots (mask_of (3, 2, 2) [(1, 1, 1); (2, 1, 1)]) 2 (2, 2, 2)
    = Ok [(1, 1, 1); (2, 1, 1)] /\
  select_hotspots (astype_float (mask_of (3, 2, 2) [(1, 1, 1); (2, 1, 1)])) 2 (2, 2, 2)
    = Ok [(1, 1, 1); (2, 1, 1)] /\
  boxes_overlap (half (2, 2, 2)) (1, 1, 1) (2, 1, 1).
Proof.
  split; [vm_compute; reflexivity|]. split; [vm_compute; reflexivity|].
  exists (1, 1, 1). repeat split; vm_compute; congruence.
Qed.

Lemma nonneg_density_of_data (d : ndarray Q) :
  Forall (fun v => (0 <= v)%Q) (data d) -> nonneg_density d.
Proof.
  intros H p _. unfold get3. generalize (Z.to_nat (ravel3 (shape d) p)).
  induction H as [|v l Hv _ IH]; intros [|n]; simpl;
    try apply Qle_refl; [exact Hv | apply IH].
Qed.

Lemma two_peaks_ok :
  wf_array two_peaks /\ 0 < size3 (shape two_peaks) /\ nonneg_density two_peaks.
Proof.
  split; [repeat split; simpl; lia|]. split; [simpl; lia|].
  apply nonneg_density_of_data. simpl.
  repeat (constructor; [unfold Qle; simpl; lia|]). constructor.
Qed.

Lemma select_hotspots_separated_witness :
  wf_array two_peaks /\ 0 < size3 (shape two_peaks) /\
  nonneg_density two_peaks /\ positive_size (2, 2, 2) /\
  exists centers,
    select_hotspots two_peaks 2 (2, 2, 2) = Ok centers /\
    Z.of_nat (length centers) <= Z.max 0 2 /\
    separated (half (2, 2, 2)) centers.
Proof.
  destruct two_peaks_ok as (H1 & H2 & H3).
  assert (H4 : positive_size (2, 2, 2)) by (simpl; lia).
  split; [exact H1|]. split; [exact H2|]. split; [exact H3|]. split; [exact H4|].
  exact (select_hotspots_separated two_peaks 2 (2, 2, 2) H1 H2 H3 H4).
Defined.

Lemma suppression_zeroes_candidate_box_witness :
  wf_array two_peaks /\ 0 < size3 (shape two_peaks) /\
  nonneg_density two_peaks /\ positive_size (2, 2, 2) /\
  exists d cs c,
    hotspot_loop 1 (shape two_peaks) (2, 2, 2) (two_peaks, []) = Ok (d, cs) /\
    candidate d = Ok c /\
    let d' := suppress (shape two_peaks) (2, 2, 2) d c in
    let cs' := if center_valid c (shape two_peaks) (2, 2, 2) then cs ++ [c] else cs in
    hotspot_iter (shape two_peaks) (2, 2, 2) (d, cs) = Ok (d', cs') /\
    box_suppressed d' c (half (2, 2, 2)) /\
    (size_at_least_2 (2, 2, 2) -> (get3 0%Q d' c == 0)%Q) /\
    forall k, exists d'' later,
      hotspot_loop k (shape two_peaks) (2, 2, 2) (d', cs') = Ok (d'', cs' ++ later) /\
      box_suppressed d'' c (half (2, 2, 2)) /\
      Forall (fun c2 => ~ in_box c (half (2, 2, 2)) c2) later.
Proof.
  destruct two_peaks_ok as (H1 & H2 & H3).
  assert (H4 : positive_size (2, 2, 2)) by (simpl; lia).
  split; [exact H1|]. split; [exact H2|]. split; [exact H3|]. split; [exact H4|].
  exact (suppression_zeroes_candidate_box two_peaks (2, 2, 2) 1 H1 H2 H3 H4).
Defined.

(** ** Thresholder *)

Lemma Qle_bool_false x y : Qle_bool x y = false -> (y <= x)%Q.
Proof.
  intros H. destruct (Qlt_le_dec y x) as [L | L]; [now apply Qlt_le_weak|].
  apply Qle_bool_iff in L. congruence.
Qed.

Lemma length_insert_sorted x l : length (insert_sorted x l) = S (length l).
Proof.
  induction l as [|y l IH]; simpl; [reflexivity|].
  destruct (Qle_bool x y); simpl; auto.
Qed.

Lemma length_np_sort l : length (np_sort l) = length l.
Proof.
  induction l as [|x l IH]; simpl; [reflexivity|].
  now rewrite length_insert_sorted, IH.
Qed.

Lemma In_insert_sorted x l y : In y (insert_sorted x l) <-> y = x \/ In y l.
Proof.
  induction l as [|z l IH]; simpl; [intuition|].
  destruct (Qle_bool x z); simpl; [intuition|]. rewrite IH. intuition.
Qed.

Lemma In_np_sort l y : In y (np_sort l) <-> In y l.
Proof.
  induction l as [|x l IH]; simpl; [reflexivity|].
  rewrite In_insert_sorted, IH. intuition.
Qed.

Lemma insert_sorted_sorted x l :
  StronglySorted Qle l -> StronglySorted Qle (insert_sorted x l).
Proof.
  induction 1 as [|y l Hl IH Hy]; simpl.
  - constructor; constructor.
  - destruct (Qle_bool x y) eqn:E.
    + apply Qle_bool_iff in E. constructor; [constructor; assumption|].
      constructor; [exact E|].
      apply (proj2 (List.Forall_forall _ _)). intros z Hz.
      eapply Qle_trans; [exact E|].
      exact (proj1 (List.Forall_forall _ _) Hy z Hz).
    + apply Qle_bool_false in E. constructor; [exact IH|].
      apply (proj2 (List.Forall_forall _ _)). intros z Hz.
      apply In_insert_sorted in Hz. destruct Hz as [-> | Hz]; [exact E|].
      exact (proj1 (List.Forall_forall _ _) Hy z Hz).
Qed.

Lemma np_sort_sorted l : StronglySorted Qle (np_sort l).
Proof.
  induction l as [|x l IH]; simpl; [constructor|].
  now apply insert_sorted_sorted.
Qed.

Lemma sorted_nth_le s d :
  StronglySorted Qle s -> forall i j,
  (i <= j < length s)%nat -> (nth i s d <= nth j s d)%Q.
Proof.
  induction 1 as [|x l Hl IH Hx]; intros i j Hij; simpl in Hij; [lia|].
  destruct i as [|i], j as [|j]; simpl; try lia.
  - apply Qle_refl.
  - apply (proj1 (List.Forall_forall _ _) Hx), List.nth_In. lia.
  - apply IH. lia.
Qed.

(** where the virtual index falls *)
Lemma virtual_index_range (v : Q) (n : Z) :
  (0 <= v)%Q -> (v <= inject_Z (n - 1))%Q ->
  0 <= Qfloor v <= n - 1 /\
  (inject_Z (Qfloor v) <= v)%Q /\ (v < inject_Z (Qfloor v) + 1)%Q.
Proof.
  intros H0 Hn.
  pose proof (Qfloor_le v) as Hl. pose proof (Qlt_floor v) as Hu.
  rewrite inject_Z_plus in Hu. change (inject_Z 1) with 1%Q in Hu.
  split; [|split; assumption].
  split.
  - change 0 with (Qfloor 0). now apply Qfloor_resp_le.
  - rewrite <- (Qfloor_Z (n - 1)). now apply Qfloor_resp_le.
Qed.

Lemma interpolate_bounds s d v :
  StronglySorted Qle s -> (0 <= v)%Q ->
  (v <= inject_Z (Z.of_nat (length s) - 1))%Q ->
  let prev := Qfloor v in
  let next := Z.min (prev + 1) (Z.of_nat (length s) - 1) in
  (nth (Z.to_nat prev) s d <= interpolate s d v)%Q /\
  (interpolate s d v <= nth (Z.to_nat next) s d)%Q.
Proof.
  intros Hs H0 Hn. cbv zeta.
  destruct (virtual_index_range v _ H0 Hn) as (Hp & Hl & Hu).
  unfold interpolate.
  set (prev := Qfloor v) in *.
  set (next := Z.min (prev + 1) (Z.of_nat (length s) - 1)).
  assert (Hlh : (nth (Z.to_nat prev) s d <= nth (Z.to_nat next) s d)%Q)
    by (apply sorted_nth_le; [exact Hs | lia]).
  set (lo := nth (Z.to_nat prev) s d) in *.
  set (hi := nth (Z.to_nat next) s d) in *.
  set (g := (v - inject_Z prev)%Q).
  assert (Hg0 : (0 <= g)%Q) by (unfold g; lra).
  assert (Hg1 : (g <= 1)%Q) by (unfold g; lra).
  split; nra.
Qed.

Lemma interpolate_monotone s d v1 v2 :
  StronglySorted Qle s -> (0 <= v1)%Q -> (v1 <= v2)%Q ->
  (v2 <= inject_Z (Z.of_nat (length s) - 1))%Q ->
  (interpolate s d v1 <= interpolate s d v2)%Q.
Proof.
  intros Hs H0 H12 Hn.
  assert (H1n : (v1 <= inject_Z (Z.of_nat (length s) - 1))%Q) by lra.
  assert (H02 : (0 <= v2)%Q) by lra.
  destruct (virtual_index_range v1 _ H0 H1n) as (Hp1 & Hl1 & Hu1).
  destruct (virtual_index_range v2 _ H02 Hn) as (Hp2 & Hl2 & Hu2).
  pose proof (Qfloor_resp_le v1 v2 H12) as Hpp.
  destruct (Z.eq_dec (Qfloor v1) (Qfloor v2)) as [E | NE].
  - unfold interpolate. rewrite <- E.
    set (prev := Qfloor v1) in *.
    set (next := Z.min (prev + 1) (Z.of_nat (length s) - 1)).
    assert (Hlh : (nth (Z.to_nat prev) s d <= nth (Z.to_nat next) s d)%Q)
      by (apply sorted_nth_le; [exact Hs | lia]).
    set (lo := nth (Z.to_nat prev) s d) in *.
    set (hi := nth (Z.to_nat next) s d) in *.
    nra.
  - destruct (interpolate_bounds s d v1 Hs H0 H1n) as [_ Hhi].
    destruct (interpolate_bounds s d v2 Hs H02 Hn) as [Hlo _].
    cbv zeta in Hhi, Hlo.
    eapply Qle_trans; [exact Hhi|]. eapply Qle_trans; [|exact Hlo].
    apply sorted_nth_le; [exact Hs | lia].
Qed.

Lemma virtual_index_bounds (q : Q) (n : Z) :
  (0 <= q)%Q -> (q <= 100)%Q -> 1 <= n ->
  (0 <= q / 100 * inject_Z (n - 1))%Q /\
  (q / 100 * inject_Z (n - 1) <= inject_Z (n - 1))%Q.
Proof.
  intros H0 H1 Hn.
  assert (HN : (0 <= inject_Z (n - 1))%Q).
  { change 0%Q with (inject_Z 0). rewrite <- Zle_Qle. lia. }
  set (N := inject_Z (n - 1)) in *.
  unfold Qdiv. change (/ 100)%Q with (1 # 100)%Q.
  assert (Hq0 : (0 <= q * (1 # 100))%Q) by lra.
  assert (Hq1 : (q * (1 # 100) <= 1)%Q) by lra.
  set (r := (q * (1 # 100))%Q) in *.
  split; nra.
Qed.

Lemma virtual_index_monotone (q1 q2 : Q) (n : Z) :
  (q1 <= q2)%Q -> 1 <= n ->
  (q1 / 100 * inject_Z (n - 1) <= q2 / 100 * inject_Z (n - 1))%Q.
Proof.
  intros H Hn.
  assert (HN : (0 <= inject_Z (n - 1))%Q).
  { change 0%Q with (inject_Z 0). rewrite <- Zle_Qle. lia. }
  set (N := inject_Z (n - 1)) in *.
  unfold Qdiv. change (/ 100)%Q with (1 # 100)%Q.
  assert (Hq : (q1 * (1 # 100) <= q2 * (1 # 100))%Q) by lra.
  set (r1 := (q1 * (1 # 100))%Q) in *. set (r2 := (q2 * (1 # 100))%Q) in *.
  nra.
Qed.

Lemma np_sort_nonempty a : a <> [] -> np_sort a <> [].
Proof.
  intros H E. apply (f_equal (@length Q)) in E.
  rewrite length_np_sort in E. destruct a; [congruence | discriminate].
Qed.

Lemma length_pos_of_nonempty {X} (a : list X) : a <> [] -> 1 <= Z.of_nat (length a).
Proof. destruct a; [congruence | simpl; lia]. Qed.

(** [np.percentile] returns on a non-empty array and a percentile in
    [0, 100]; the value is the interpolation of the sorted values. *)
Lemma np_percentile_ok a q :
  a <> [] -> (0 <= q)%Q -> (q <= 100)%Q ->
  np_percentile a q =
  Ok (interpolate (np_sort a) (hd 0%Q (np_sort a))
        (q / 100 * inject_Z (Z.of_nat (length a) - 1))).
Proof.
  intros Ha H0 H1. unfold np_percentile.
  apply Qle_bool_iff in H0, H1. rewrite H0, H1. cbn [andb negb].
  pose proof (np_sort_nonempty a Ha) as Hs. pose proof (length_np_sort a) as Hl.
  destruct (np_sort a) as [|d s]; [congruence|].
  rewrite Hl. reflexivity.
Qed.

Lemma np_percentile_monotone a q1 q2 :
  a <> [] -> (0 <= q1)%Q -> (q1 <= q2)%Q -> (q2 <= 100)%Q ->
  exists t1 t2,
    np_percentile a q1 = Ok t1 /\ np_percentile a q2 = Ok t2 /\ (t1 <= t2)%Q.
Proof.
  intros Ha H0 H12 H1.
  rewrite (np_percentile_ok a q1 Ha H0) by lra.
  rewrite (np_percentile_ok a q2 Ha) by lra.
  eexists; eexists. split; [reflexivity|]. split; [reflexivity|].
  pose proof (length_pos_of_nonempty a Ha) as Hn.
  destruct (virtual_index_bounds q1 _ H0 ltac:(lra) Hn) as [V1 _].
  destruct (virtual_index_bounds q2 _ ltac:(lra) H1 Hn) as [_ V2].
  apply interpolate_monotone; try assumption.
  - apply np_sort_sorted.
  - now apply virtual_index_monotone.
  - now rewrite length_np_sort.
Qed.

(** the percentile lies between any bounds of the data *)
Lemma np_percentile_between a q lo hi :
  a <> [] -> (0 <= q)%Q -> (q <= 100)%Q ->
  Forall (fun v => (lo <= v)%Q /\ (v <= hi)%Q) a ->
  exists t, np_percentile a q = Ok t /\ (lo <= t)%Q /\ (t <= hi)%Q.
Proof.
  intros Ha H0 H1 Hb.
  rewrite (np_percentile_ok a q Ha H0 H1).
  eexists. split; [reflexivity|].
  pose proof (length_pos_of_nonempty a Ha) as Hn.
  destruct (virtual_index_bounds q _ H0 H1 Hn) as [V1 V2].
  pose proof (length_np_sort a) as Hl.
  set (v := (q / 100 * inject_Z (Z.of_nat (length a) - 1))%Q) in *.
  rewrite <- Hl in V2, Hn.
  set (d := hd 0%Q (np_sort a)).
  destruct (interpolate_bounds (np_sort a) d v (np_sort_sorted a) V1 V2) as [B1 B2].
  cbv zeta in B1, B2.
  destruct (virtual_index_range v _ V1 V2) as (Hp & _ & _).
  assert (In1 : In (nth (Z.to_nat (Qfloor v)) (np_sort a) d) a)
    by (apply In_np_sort, List.nth_In; lia).
  assert (In2 : In (nth (Z.to_nat (Z.min (Qfloor v + 1)
                      (Z.of_nat (length (np_sort a)) - 1))) (np_sort a) d) a)
    by (apply In_np_sort, List.nth_In; lia).
  apply (proj1 (List.Forall_forall _ _) Hb) in In1, In2.
  split; lra.
Qed.

Lemma count_greater_antitone (l : list Q) t1 t2 :
  (t1 <= t2)%Q ->
  (length (filter (fun b : bool => b) (map (fun v => Qltb t2 v) l)) <=
   length (filter (fun b : bool => b) (map (fun v => Qltb t1 v) l)))%nat.
Proof.
  intros H. induction l as [|v l IH]; simpl; [lia|].
  destruct (Qltb t2 v) eqn:E2; simpl.
  - assert (E1 : Qltb t1 v = true).
    { unfold Qltb in *. rewrite negb_true_iff in *.
      destruct (Qle_bool v t1) eqn:E; [|reflexivity].
      apply Qle_bool_iff in E.
      assert (Qle_bool v t2 = true)
        by (apply Qle_bool_iff; eapply Qle_trans; eauto).
      congruence. }
    rewrite E1. cbn [filter length]. apply le_n_S, IH.
  - destruct (Qltb t1 v); cbn [filter length]; [apply le_S, IH | apply IH].
Qed.

(** C8: on a non-empty channel the number of voxels above the percentile
    threshold does not grow when the percentile grows within [0, 100]. *)
Theorem threshold_count_antitone (normalized : ndarray Q) (p1 p2 : Q) :
  data normalized <> [] -> (0 <= p1)%Q -> (p1 <= p2)%Q -> (p2 <= 100)%Q ->
  exists m1 m2,
    threshold_mask normalized p1 = Ok m1 /\
    threshold_mask normalized p2 = Ok m2 /\
    count_true m2 <= count_true m1.
Proof.
  intros Ha H0 H12 H1.
  destruct (np_percentile_monotone (data normalized) p1 p2 Ha H0 H12 H1)
    as (t1 & t2 & E1 & E2 & Ht).
  unfold threshold_mask. rewrite E1, E2. cbn [rbind].
  eexists; eexists. split; [reflexivity|]. split; [reflexivity|].
  unfold count_true, greater; cbn [data].
  apply inj_le, count_greater_antitone, Ht.
Qed.

Lemma threshold_count_antitone_witness :
  data cube8 <> [] /\ (0 <= 25)%Q /\ (25 <= 75)%Q /\ (75 <= 100)%Q /\
  exists m1 m2,
    threshold_mask cube8 25 = Ok m1 /\
    threshold_mask cube8 75 = Ok m2 /\
    count_true m2 <= count_true m1.
Proof.
  assert (H1 : data cube8 <> []) by discriminate.
  assert (H2 : (0 <= 25)%Q) by (unfold Qle; simpl; lia).
  assert (H3 : (25 <= 75)%Q) by (unfold Qle; simpl; lia).
  assert (H4 : (75 <= 100)%Q) by (unfold Qle; simpl; lia).
  split; [exact H1|]. split; [exact H2|]. split; [exact H3|]. split; [exact H4|].
  exact (threshold_count_antitone cube8 25 75 H1 H2 H3 H4).
Defined.

(** ** Normalizer *)

Lemma fold_min_spec l : forall acc,
  (fold_left Qmin2 l acc <= acc)%Q /\
  Forall (fun v => (fold_left Qmin2 l acc <= v)%Q) l /\
  (fold_left Qmin2 l acc = acc \/ In (fold_left Qmin2 l acc) l).
Proof.
  induction l as [|x l IH]; intros acc; simpl.
  - split; [apply Qle_refl|]. split; [constructor | now left].
  - destruct (IH (Qmin2 acc x)) as (H1 & H2 & H3).
    assert (Hm : (Qmin2 acc x <= acc)%Q /\ (Qmin2 acc x <= x)%Q /\
                 (Qmin2 acc x = acc \/ Qmin2 acc x = x)).
    { unfold Qmin2. destruct (Qle_bool acc x) eqn:E.
      - apply Qle_bool_iff in E. split; [apply Qle_refl|]. split; [exact E | now left].
      - apply Qle_bool_false in E. split; [exact E|]. split; [apply Qle_refl | now right]. }
    destruct Hm as (Ma & Mx & Me).
    split; [eapply Qle_trans; eauto|]. split.
    + constructor; [eapply Qle_trans; eauto | exact H2].
    + destruct H3 as [H3 | H3]; [|now right; right].
      rewrite H3. destruct Me as [-> | ->]; [now left | now right; left].
Qed.

Lemma fold_max_spec l : forall acc,
  (acc <= fold_left Qmax2 l acc)%Q /\
  Forall (fun v => (v <= fold_left Qmax2 l acc)%Q) l /\
  (fold_left Qmax2 l acc = acc \/ In (fold_left Qmax2 l acc) l).
Proof.
  induction l as [|x l IH]; intros acc; simpl.
  - split; [apply Qle_refl|]. split; [constructor | now left].
  - destruct (IH (Qmax2 acc x)) as (H1 & H2 & H3).
    assert (Hm : (acc <= Qmax2 acc x)%Q /\ (x <= Qmax2 acc x)%Q /\
                 (Qmax2 acc x = acc \/ Qmax2 acc x = x)).
    { unfold Qmax2. destruct (Qle_bool acc x) eqn:E.
      - apply Qle_bool_iff in E. split; [exact E|]. split; [apply Qle_refl | now right].
      - apply Qle_bool_false in E. split; [apply Qle_refl|]. split; [exact E | now left]. }
    destruct Hm as (Ma & Mx & Me).
    split; [eapply Qle_trans; eauto|]. split.
    + constructor; [eapply Qle_trans; eauto | exact H2].
    + destruct H3 as [H3 | H3]; [|now right; right].
      rewrite H3. destruct Me as [-> | ->]; [now left | now right; left].
Qed.

Lemma np_min_spec l :
  l <> [] ->
  exists m, np_min l = Ok m /\ In m l /\ Forall (fun v => (m <= v)%Q) l.
Proof.
  destruct l as [|v t]; [congruence|]. intros _. simpl.
  destruct (fold_min_spec t v) as (H1 & H2 & H3).
  eexists; split; [reflexivity|]. split.
  - destruct H3 as [-> | H3]; [now left | now right].
  - constructor; assumption.
Qed.

Lemma np_max_spec l :
  l <> [] ->
  exists m, np_max l = Ok m /\ In m l /\ Forall (fun v => (v <= m)%Q) l.
Proof.
  destruct l as [|v t]; [congruence|]. intros _. simpl.
  destruct (fold_max_spec t v) as (H1 & H2 & H3).
  eexists; split; [reflexivity|]. split.
  - destruct H3 as [-> | H3]; [now left | now right].
  - constructor; assumption.
Qed.

Lemma eps_pos : (0 < eps)%Q.
Proof. reflexivity. Qed.

(** the normalized channel: same shape, every value in [0, 1] *)
Lemma normalize_spec (ch : ndarray Q) :
  data ch <> [] ->
  exists mn mx,
    In mn (data ch) /\ In mx (data ch) /\
    normalize ch =
      Ok (mk_ndarray (shape ch)
            (map (fun v => (v - mn) / (mx - mn + eps))%Q (data ch))) /\
    Forall (fun v => (0 <= (v - mn) / (mx - mn + eps))%Q /\
                     ((v - mn) / (mx - mn + eps) <= 1)%Q) (data ch).
Proof.
  intros Hne.
  destruct (np_min_spec _ Hne) as (mn & Emn & Imn & Hmn).
  destruct (np_max_spec _ Hne) as (mx & Emx & Imx & Hmx).
  exists mn, mx. split; [exact Imn|]. split; [exact Imx|].
  unfold normalize. rewrite Emn, Emx. split; [reflexivity|].
  apply (proj2 (List.Forall_forall _ _)). intros v Hv.
  pose proof (proj1 (List.Forall_forall _ _) Hmn v Hv) as L.
  pose proof (proj1 (List.Forall_forall _ _) Hmx v Hv) as U.
  pose proof eps_pos as He. cbv beta in L, U.
  assert (Hd : (0 < mx - mn + eps)%Q) by lra.
  split.
  - apply Qle_shift_div_l; [exact Hd | lra].
  - apply Qle_shift_div_r; [exact Hd | lra].
Qed.

(** ** Colocalization Scorer *)

Lemma length_andb_list l1 l2 :
  length l1 = length l2 -> length (andb_list l1 l2) = length l1.
Proof.
  revert l2. induction l1 as [|a l1 IH]; intros [|b l2] H; simpl in *;
    try reflexivity; try discriminate. f_equal. apply IH. lia.
Qed.

Lemma nth_andb_list l1 l2 i :
  length l1 = length l2 ->
  nth i (andb_list l1 l2) false = nth i l1 false && nth i l2 false.
Proof.
  revert l2 i. induction l1 as [|a l1 IH]; intros [|b l2] [|i] H; simpl in *;
    try reflexivity; try discriminate. apply IH. lia.
Qed.

Lemma bcast_dim_refl a : bcast_dim a a = Some a.
Proof. unfold bcast_dim. now rewrite Z.eqb_refl. Qed.

(** on masks of one shape [&] is the elementwise conjunction *)
Lemma logical_and_same_shape (m1 m2 : ndarray bool) :
  wf_array m1 -> wf_array m2 -> shape m1 = shape m2 ->
  logical_and m1 m2 =
  Ok (mk_ndarray (shape m1) (andb_list (data m1) (data m2))).
Proof.
  intros [Hs1 Hl1] [Hs2 Hl2] Hsh.
  assert (Hlen : length (data m1) = length (data m2)) by (rewrite Hsh in Hl1; lia).
  unfold logical_and. rewrite <- Hsh.
  destruct (shape m1) as [[s0 s1] s2] eqn:Es.
  rewrite !bcast_dim_refl. do 2 f_equal.
  apply (nth_ext _ _ false false).
  - rewrite length_tab3, length_andb_list by exact Hlen. lia.
  - intros n Hn. rewrite length_tab3 in Hn.
    rewrite <- (Nat2Z.id n).
    unfold tab3. rewrite nth_map_zrange by lia.
    assert (Hi : 0 <= Z.of_nat n < size3 (s0, s1, s2)) by lia.
    pose proof (unravel_in_bounds (s0, s1, s2) _ Hs1 Hi) as Hb.
    pose proof (ravel_unravel (s0, s1, s2) _ Hs1 Hi) as Hr.
    destruct (unravel_index (Z.of_nat n) (s0, s1, s2)) as [[z y] x].
    simpl in Hb. rewrite !bcast_ix_lt by lia.
    rewrite nth_andb_list by exact Hlen.
    unfold get3. rewrite <- Hsh, Es, Hr. reflexivity.
Qed.

Lemma Qsum_select_nonneg l m :
  Forall (fun v => (0 <= v)%Q) l -> (0 <= Qsum (select l m))%Q.
Proof.
  intros H. revert m. induction H as [|v l Hv _ IH]; intros [|b m]; simpl;
    try apply Qle_refl.
  destruct b; simpl; [|apply IH]. specialize (IH m). lra.
Qed.

Lemma Qsum_select_and_le l m1 m2 :
  Forall (fun v => (0 <= v)%Q) l ->
  (Qsum (select l (andb_list m1 m2)) <= Qsum (select l m1))%Q.
Proof.
  intros H. revert m1 m2.
  induction H as [|v l Hv Hl IH]; intros [|a m1] [|b m2]; simpl;
    try apply Qle_refl.
  - pose proof (Qsum_select_nonneg l m1 Hl). destruct a; simpl; lra.
  - specialize (IH m1 m2).
    pose proof (Qsum_select_nonneg l m1 Hl).
    pose proof (Qsum_select_nonneg l (andb_list m1 m2) Hl).
    destruct a, b; simpl; lra.
Qed.

Lemma andb_list_subset l1 l2 :
  length l1 = length l2 ->
  (forall i, nth i l1 false = true -> nth i l2 false = true) ->
  andb_list l1 l2 = l1.
Proof.
  revert l2. induction l1 as [|a l1 IH]; intros [|b l2] Hlen Hsub; simpl in *;
    try reflexivity; try discriminate.
  f_equal.
  - destruct a; [|reflexivity]. now rewrite (Hsub 0%nat eq_refl).
  - apply IH; [lia|]. intros i Hi. exact (Hsub (S i) Hi).
Qed.

Lemma count_zero_all_false (l : list bool) :
  length (filter (fun b : bool => b) l) = 0%nat <-> Forall (fun b => b = false) l.
Proof.
  induction l as [|b l IH]; simpl.
  - split; [constructor | reflexivity].
  - destruct b; simpl.
    + split; [discriminate | intros H; inversion H; discriminate].
    + rewrite IH. split; [now constructor | intros H; now inversion H].
Qed.

Lemma Qltb_true t v : Qltb t v = true -> (t < v)%Q.
Proof.
  unfold Qltb. rewrite negb_true_iff. intros H.
  destruct (Qlt_le_dec t v) as [L | L]; [exact L|].
  apply Qle_bool_iff in L. congruence.
Qed.

Lemma Qltb_false t v : (v <= t)%Q -> Qltb t v = false.
Proof.
  intros H. unfold Qltb. apply negb_false_iff. now apply Qle_bool_iff.
Qed.

(** the signal above a non-negative threshold is positive as soon as one
    voxel is above it *)
Lemma Qsum_select_pos l t :
  Forall (fun v => (0 <= v)%Q) l -> (0 <= t)%Q ->
  (0 < length (filter (fun b : bool => b) (map (fun v => Qltb t v) l)))%nat ->
  (0 < Qsum (select l (map (fun v => Qltb t v) l)))%Q.
Proof.
  intros H Ht. induction H as [|v l Hv Hl IH]; simpl; [lia|].
  destruct (Qltb t v) eqn:E; simpl.
  - intros _. apply Qltb_true in E.
    pose proof (Qsum_select_nonneg l (map (fun v => Qltb t v) l) Hl). lra.
  - exact IH.
Qed.

Lemma nonempty_of_size {X} (a : @ndarray X) :
  wf_array a -> 0 < size3 (shape a) -> data a <> [].
Proof. intros [_ Hl] Hs E. rewrite E in Hl. simpl in Hl. lia. Qed.

(** The scorer on two well-formed channels of one non-empty shape: it
    returns, and the result is expressed with the two normalized
    channels and their thresholds. *)
Lemma score_spec (ch1 ch2 : ndarray Q) (q : Q) :
  wf_array ch1 -> wf_array ch2 -> shape ch1 = shape ch2 ->
  0 < size3 (shape ch1) -> (0 <= q)%Q -> (q <= 100)%Q ->
  exists n1 n2 t1 t2,
    normalize ch1 = Ok n1 /\ normalize ch2 = Ok n2 /\
    length (data n1) = length (data ch1) /\
    length (data n2) = length (data ch2) /\
    Forall (fun v => (0 <= v)%Q /\ (v <= 1)%Q) (data n1) /\
    np_percentile (data n1) q = Ok t1 /\
    np_percentile (data n2) q = Ok t2 /\
    (0 <= t1)%Q /\
    let m1 := greater n1 t1 in
    let m2 := greater n2 t2 in
    let coloc := mk_ndarray (shape ch1) (andb_list (data m1) (data m2)) in
    channel_mask ch1 q = Ok m1 /\ channel_mask ch2 q = Ok m2 /\
    calculate_colocalization_score ch1 ch2 q =
    Ok (if count_true m1 >? 0
        then (Qsum (select (data n1) (data coloc)) /
              Qsum (select (data n1) (data m1)))%Q
        else 0%Q, coloc).
Proof.
  intros Hw1 Hw2 Hsh Hsz H0 H1.
  assert (Hsz2 : 0 < size3 (shape ch2)) by now rewrite <- Hsh.
  pose proof (nonempty_of_size ch1 Hw1 Hsz) as Hne1.
  pose proof (nonempty_of_size ch2 Hw2 Hsz2) as Hne2.
  destruct (normalize_spec ch1 Hne1) as (mn1 & mx1 & _ & _ & En1 & Hr1).
  destruct (normalize_spec ch2 Hne2) as (mn2 & mx2 & _ & _ & En2 & Hr2).
  set (f1 := fun v => ((v - mn1) / (mx1 - mn1 + eps))%Q) in *.
  set (f2 := fun v => ((v - mn2) / (mx2 - mn2 + eps))%Q) in *.
  set (n1 := mk_ndarray (shape ch1) (map f1 (data ch1))) in *.
  set (n2 := mk_ndarray (shape ch2) (map f2 (data ch2))) in *.
  assert (Hb1 : Forall (fun v => (0 <= v)%Q /\ (v <= 1)%Q) (data n1)).
  { unfold n1; cbn [data]. apply Forall_map. exact Hr1. }
  assert (Hb2 : Forall (fun v => (0 <= v)%Q /\ (v <= 1)%Q) (data n2)).
  { unfold n2; cbn [data]. apply Forall_map. exact Hr2. }
  assert (Hd1 : data n1 <> []).
  { unfold n1; cbn [data]. destruct (data ch1); [congruence | discriminate]. }
  assert (Hd2 : data n2 <> []).
  { unfold n2; cbn [data]. destruct (data ch2); [congruence | discriminate]. }
  destruct (np_percentile_between (data n1) q 0 1 Hd1 H0 H1 Hb1) as (t1 & Et1 & Ht1 & _).
  destruct (np_percentile_between (data n2) q 0 1 Hd2 H0 H1 Hb2) as (t2 & Et2 & _ & _).
  exists n1, n2, t1, t2.
  split; [exact En1|]. split; [exact En2|].
  split; [unfold n1; cbn [data]; apply length_map|].
  split; [unfold n2; cbn [data]; apply length_map|].
  split; [exact Hb1|]. split; [exact Et1|]. split; [exact Et2|].
  split; [exact Ht1|]. cbv zeta.
  split; [unfold channel_mask, threshold_mask; rewrite En1; cbn [rbind];
          rewrite Et1; reflexivity|].
  split; [unfold channel_mask, threshold_mask; rewrite En2; cbn [rbind];
          rewrite Et2; reflexivity|].
  unfold calculate_colocalization_score.
  rewrite En1, En2. cbn [rbind]. rewrite Et1, Et2. cbn [rbind].
  assert (Wm1 : wf_array (greater n1 t1)).
  { destruct Hw1 as [Hs Hl]. split; [exact Hs|].
    unfold greater, n1; cbn [data shape]. now rewrite !length_map. }
  assert (Wm2 : wf_array (greater n2 t2)).
  { destruct Hw2 as [Hs Hl]. split; [exact Hs|].
    unfold greater, n2; cbn [data shape]. now rewrite !length_map. }
  rewrite (logical_and_same_shape _ _ Wm1 Wm2) by exact Hsh.
  cbn [rbind].
  destruct (count_true (greater n1 t1) >? 0); [|reflexivity].
  unfold bool_index. cbn [shape greater n1].
  rewrite (proj2 (idx3_eqb_eq _ _) eq_refl). reflexivity.
Qed.

Lemma count_true_pos_iff (m : ndarray bool) :
  (count_true m >? 0) = true <-> ~ all_false m.
Proof.
  unfold count_true, all_false. rewrite <- count_zero_all_false.
  destruct (Z.gtb_spec (Z.of_nat (length (filter (fun b : bool => b) (data m)))) 0);
    split; intros; try lia; try discriminate; reflexivity.
Qed.

(** In exact arithmetic the coefficient lies in [0, 1]; it is 0 when
    mask1 is entirely false, and 1 when mask1 has a true voxel and every
    true voxel of mask1 is true in mask2.  The upper bound rests on the
    two sums being exact: it does not survive the rounding of binary64
    (see the scorer in binary64 below). *)
Lemma manders_range_exact (ch1 ch2 : ndarray Q) (q : Q) :
  wf_array ch1 -> wf_array ch2 -> shape ch1 = shape ch2 ->
  0 < size3 (shape ch1) -> (0 <= q)%Q -> (q <= 100)%Q ->
  exists coeff coloc mask1 mask2,
    calculate_colocalization_score ch1 ch2 q = Ok (coeff, coloc) /\
    channel_mask ch1 q = Ok mask1 /\ channel_mask ch2 q = Ok mask2 /\
    (0 <= coeff)%Q /\ (coeff <= 1)%Q /\
    (all_false mask1 -> (coeff == 0)%Q) /\
    (~ all_false mask1 -> mask_subset mask1 mask2 -> (coeff == 1)%Q).
Proof.
  intros Hw1 Hw2 Hsh Hsz H0 H1.
  destruct (score_spec ch1 ch2 q Hw1 Hw2 Hsh Hsz H0 H1)
    as (n1 & n2 & t1 & t2 & _ & _ & L1 & L2 & Hb & _ & _ & Ht & Hm1 & Hm2 & Es).
  cbv zeta in Hm1, Hm2, Es.
  set (m1 := greater n1 t1) in *. set (m2 := greater n2 t2) in *.
  eexists; exists (mk_ndarray (shape ch1) (andb_list (data m1) (data m2))), m1, m2.
  split; [exact Es|]. split; [exact Hm1|]. split; [exact Hm2|].
  assert (Hnn : Forall (fun v => (0 <= v)%Q) (data n1)).
  { eapply List.Forall_impl; [|exact Hb]. intros v [Hv _]. exact Hv. }
  cbn [data].
  destruct (count_true m1 >? 0) eqn:Ec.
  - pose proof (proj1 (count_true_pos_iff m1) Ec) as Hne.
    assert (Hden : (0 < Qsum (select (data n1) (data m1)))%Q).
    { unfold m1, greater; cbn [data]. apply Qsum_select_pos; try assumption.
      unfold count_true, m1, greater in Ec; cbn [data] in Ec.
      apply Z.gtb_lt in Ec. lia. }
    pose proof (Qsum_select_nonneg (data n1) (andb_list (data m1) (data m2)) Hnn) as Hnum.
    pose proof (Qsum_select_and_le (data n1) (data m1) (data m2) Hnn) as Hle.
    split; [apply Qle_shift_div_l; [exact Hden | lra]|].
    split; [apply Qle_shift_div_r; [exact Hden | lra]|].
    split; [intros Hf; contradiction|].
    intros _ Hsub.
    assert (Hlen : length (data m1) = length (data m2)).
    { unfold m1, m2, greater; cbn [data]. rewrite !length_map, L1, L2.
      destruct Hw1 as [_ E1], Hw2 as [_ E2]. rewrite Hsh in E1. lia. }
    rewrite (andb_list_subset _ _ Hlen Hsub).
    unfold Qdiv. apply Qmult_inv_r. lra.
  - split; [apply Qle_refl|]. split; [discriminate|].
    split; [reflexivity|].
    intros Hne. exfalso.
    apply (proj2 (count_true_pos_iff m1)) in Hne. congruence.
Qed.

Lemma andb_list_all_false l1 l2 :
  Forall (fun b : bool => b = false) l1 ->
  Forall (fun b : bool => b = false) (andb_list l1 l2).
Proof.
  intros H. revert l2. induction H as [|a l1 Ha _ IH]; intros [|b l2]; simpl;
    try constructor; [now rewrite Ha | apply IH].
Qed.

Lemma Forall_map_all_in {X Y} (P : Y -> Prop) (f : X -> Y) l :
  (forall x, In x l -> P (f x)) -> Forall P (map f l).
Proof.
  induction l as [|x l IH]; intros H; simpl; constructor.
  - apply H. now left.
  - apply IH. intros y Hy. apply H. now right.
Qed.

Lemma Qdiv_zero_num (a b : Q) : (a == 0)%Q -> (a / b == 0)%Q.
Proof. intros H. unfold Qdiv. rewrite H. apply Qmult_0_l. Qed.

(** C7: for two well-formed channels of one non-empty shape, the first of
    them zero everywhere (the second may be anything, zero included), at
    the default percentile 50: mask1 is entirely false, the coefficient
    is exactly 0, the colocalization mask is entirely false,
    [find_colocalization_hotspots] returns no center for any count and
    any patch size with extents of at least 2 (the defaults 3 and
    (64, 64, 64) included), and the whole run ends without an
    exception. *)
Theorem all_zero_volume_yields_nothing (ch1 ch2 : ndarray Q) (n : Z) (ps : idx3) :
  wf_array ch1 -> wf_array ch2 -> shape ch1 = shape ch2 ->
  0 < size3 (shape ch1) -> all_zero_volume ch1 -> size_at_least_2 ps ->
  exists mask1 coloc,
    channel_mask ch1 50 = Ok mask1 /\ all_false mask1 /\
    calculate_colocalization_score ch1 ch2 50 = Ok (0%Q, coloc) /\
    all_false coloc /\
    find_colocalization_hotspots coloc n ps = Ok [] /\
    extraction_run ch1 ch2 n ps = Ok (0%Q, coloc, []).
Proof.
  intros Hw1 Hw2 Hsh Hsz Hz Hps.
  assert (H0 : (0 <= 50)%Q) by (unfold Qle; simpl; lia).
  assert (H1 : (50 <= 100)%Q) by (unfold Qle; simpl; lia).
  destruct (score_spec ch1 ch2 50 Hw1 Hw2 Hsh Hsz H0 H1)
    as (n1 & n2 & t1 & t2 & En1 & _ & L1 & L2 & _ & _ & _ & Ht & Hm1 & _ & Es).
  cbv zeta in Hm1, Es.
  set (m1 := greater n1 t1) in *. set (m2 := greater n2 t2) in *.
  set (coloc := mk_ndarray (shape ch1) (andb_list (data m1) (data m2))) in *.
  (* the normalized first channel is zero everywhere *)
  assert (Hn1 : Forall (fun v => (v <= 0)%Q) (data n1)).
  { destruct (normalize_spec ch1 (nonempty_of_size ch1 Hw1 Hsz))
      as (mn & mx & Imn & _ & En & _).
    rewrite En in En1. injection En1 as <-. cbn [data].
    apply Forall_map_all_in. intros v Hv.
    pose proof (proj1 (List.Forall_forall _ _) Hz v Hv) as Ev.
    pose proof (proj1 (List.Forall_forall _ _) Hz mn Imn) as Em.
    cbv beta in Ev, Em.
    rewrite (Qdiv_zero_num (v - mn) (mx - mn + eps)) by lra.
    apply Qle_refl. }
  assert (Hf1 : all_false m1).
  { unfold all_false, m1, greater; cbn [data].
    apply Forall_map_all_in. intros v Hv.
    pose proof (proj1 (List.Forall_forall _ _) Hn1 v Hv) as Ev. cbv beta in Ev.
    apply Qltb_false. lra. }
  assert (Hfc : all_false coloc).
  { unfold all_false, coloc; cbn [data]. now apply andb_list_all_false. }
  assert (Ec : (count_true m1 >? 0) = false).
  { destruct (count_true m1 >? 0) eqn:E; [|reflexivity].
    apply count_true_pos_iff in E. contradiction. }
  rewrite Ec in Es.
  assert (Wc : wf_array coloc).
  { destruct Hw1 as [Hs Hl1], Hw2 as [_ Hl2]. split; [exact Hs|].
    unfold coloc; cbn [data shape]. rewrite length_andb_list.
    - unfold m1, greater; cbn [data]. rewrite length_map, L1. exact Hl1.
    - unfold m1, m2, greater; cbn [data]. rewrite !length_map, L1, L2.
      rewrite Hsh in Hl1. lia. }
  assert (Eh : find_colocalization_hotspots coloc n ps = Ok [])
    by (apply find_hotspots_all_false; assumption).
  exists m1, coloc.
  split; [exact Hm1|]. split; [exact Hf1|]. split; [exact Es|].
  split; [exact Hfc|]. split; [exact Eh|].
  unfold extraction_run. rewrite Es. cbn [rbind]. rewrite Eh. cbn [rbind].
  unfold np_stack2. rewrite (proj2 (idx3_eqb_eq _ _) Hsh). reflexivity.
Qed.

Lemma wf_dark_voxel : wf_array dark_voxel.
Proof. repeat split; simpl; lia. Qed.

(** the defaults of the source: 3 patches of 64 x 64 x 64 *)
Lemma all_zero_volume_yields_nothing_witness :
  wf_array dark_voxel /\ wf_array dark_voxel /\
  shape dark_voxel = shape dark_voxel /\ 0 < size3 (shape dark_voxel) /\
  all_zero_volume dark_voxel /\ size_at_least_2 (64, 64, 64) /\
  exists mask1 coloc,
    channel_mask dark_voxel 50 = Ok mask1 /\ all_false mask1 /\
    calculate_colocalization_score dark_voxel dark_voxel 50 = Ok (0%Q, coloc) /\
    all_false coloc /\
    find_colocalization_hotspots coloc 3 (64, 64, 64) = Ok [] /\
    extraction_run dark_voxel dark_voxel 3 (64, 64, 64) = Ok (0%Q, coloc, []).
Proof.
  assert (H1 : wf_array dark_voxel) by exact wf_dark_voxel.
  assert (H2 : shape dark_voxel = shape dark_voxel) by reflexivity.
  assert (H3 : 0 < size3 (shape dark_voxel)) by (simpl; lia).
  assert (H4 : all_zero_volume dark_voxel)
    by (constructor; [reflexivity | constructor]).
  assert (H5 : size_at_least_2 (64, 64, 64)) by (simpl; lia).
  split; [exact H1|]. split; [exact H1|]. split; [exact H2|].
  split; [exact H3|]. split; [exact H4|]. split; [exact H5|].
  exact (all_zero_volume_yields_nothing dark_voxel dark_voxel 3 (64, 64, 64)
           H1 H1 H2 H3 H4 H5).
Defined.

(** ** The scorer in binary64 *)

(** *** Signs of the binary64 operations *)











(** *** The order of binary64 *)







(** *** Subtraction of a number that is not larger *)









(** *** A number divided by itself *)



(** *** Rounding a positive number *)














(** *** From the specification to the primitive numbers *)









(** *** Minimum and maximum *)








(** *** Normalizer *)



(** with a range of 10^7 the 1e-10 is absorbed by the rounding of the
    denominator, and the maximum normalizes to exactly 1 *)
Example normalize_f64_reaches_one :
  normalize_f64 (mk_ndarray (1, 1, 2) [0; 10000000]%float)
  = Ok (mk_ndarray (1, 1, 2) [0; 1]%float).
Proof. vm_compute. reflexivity. Qed.


(** *** Sums *)








(** the length of the array is enough fuel: with it, or with more, the
    halving never runs out *)
Lemma pairwise_sum_fuel k : forall a k',
  (length a <= k)%nat -> (length a <= k')%nat ->
  pairwise_sum k a = pairwise_sum k' a.
Proof.
  induction k as [|k IH]; intros a k' H H'.
  - destruct a; [|simpl in H; lia]. destruct k'; reflexivity.
  - destruct k' as [|k']; [destruct a; [reflexivity | simpl in H'; lia]|].
    cbn [pairwise_sum].
    destruct (length a <? 8)%nat eqn:E8; [reflexivity|].
    destruct (length a <=? 128)%nat eqn:E128; [reflexivity|].
    apply Nat.leb_gt in E128.
    assert (Hd : (64 <= length a / 2)%nat)
      by (apply Nat.div_le_lower_bound; lia).
    assert (Hu : (length a / 2 < length a)%nat)
      by (apply Nat.div_lt; lia).
    pose proof (Nat.mod_upper_bound (length a / 2) 8 ltac:(lia)) as Hm.
    f_equal; apply IH; rewrite ?List.length_firstn, ?List.length_skipn; lia.
Qed.



(** *** Thresholder and scorer *)









(** the two sums of the counterexample: the 12 voxels of the overlap add
    up to more than the same 12 voxels and the faint one *)
Example manders_above_one_sums :
  exists n1 m1 coloc,
    normalize_f64 faint_channel = Ok n1 /\
    channel_mask_f64 faint_channel 50 = Ok m1 /\
    calculate_colocalization_score_f64 faint_channel clear_channel 50
      = Ok (0x1.0000000000001p+0%float, coloc) /\
    count_true m1 = 13 /\ count_true coloc = 12 /\
    np_sum_f64 (select_f64 (data n1) (data coloc)) = 0x1.dfffffffcc75ep+2%float /\
    np_sum_f64 (select_f64 (data n1) (data m1)) = 0x1.dfffffffcc75cp+2%float.
Proof.
  eexists; eexists; eexists.
  split; [vm_compute; reflexivity|]. split; [vm_compute; reflexivity|].
  split; [vm_compute; reflexivity|]. split; [vm_compute; reflexivity|].
  split; [vm_compute; reflexivity|]. split; vm_compute; reflexivity.
Qed.

(** a channel against itself: the coefficient is exactly 1 *)
Example score_f64_same_channel :
  exists coloc,
    calculate_colocalization_score_f64 ramp8 ramp8 50 = Ok (1%float, coloc) /\
    count_true coloc = 4.
Proof. eexists; split; [vm_compute; reflexivity | reflexivity]. Qed.


(** ** The selector over the store *)

Lemma fresh_lookup (h : heap) : h !! fresh (dom h) = None.
Proof. apply not_elem_of_dom, is_fresh. Qed.

Lemma preserves_refl (h : heap) : preserves h h.
Proof. intros l c H. exact H. Qed.

Lemma preserves_trans (h1 h2 h3 : heap) :
  preserves h1 h2 -> preserves h2 h3 -> preserves h1 h3.
Proof. intros H12 H23 l c H. apply H23, H12, H. Qed.

Lemma preserves_alloc (h : heap) c : preserves h (<[fresh (dom h) := c]> h).
Proof.
  intros l c' H. rewrite lookup_insert_ne; [exact H|].
  intros E. rewrite <- E, fresh_lookup in H. discriminate.
Qed.

(** The loop over the store runs the loop over values on the array
    behind [ld], and writes nowhere else. *)
Lemma hotspot_loop_st_spec vs ps ld k : forall d cs (h : heap),
  h !! ld = Some (FloatArr d) ->
  exists d',
    hotspot_loop_st k vs ps ld cs h =
    (centers_of (hotspot_loop k vs ps (d, cs)), <[ld := FloatArr d']> h).
Proof.
  induction k as [|k IH]; intros d cs h Hd.
  - exists d. simpl. unfold ret. now rewrite insert_id.
  - cbn [hotspot_loop_st hotspot_loop]. unfold bind at 1, read_float. rewrite Hd.
    unfold hotspot_iter. unfold bind at 1, lift.
    destruct (candidate d) as [c | e]; cbn [rbind].
    + unfold bind at 1, write_float.
      set (d1 := suppress vs ps d c).
      set (cs1 := if center_valid c vs ps then cs ++ [c] else cs).
      destruct (IH d1 cs1 (<[ld := FloatArr d1]> h)) as (d' & E).
      { apply lookup_insert_eq. }
      exists d'. rewrite E. now rewrite insert_insert_eq.
    + exists d. unfold centers_of. cbn [rbind]. now rewrite insert_id.
Qed.

(** C10: the call leaves the array behind the mask reference, and every
    other array of the caller's store, as it found them, whether it
    returns or raises; what it returns is what the function computes
    from the mask. *)
Theorem find_hotspots_leaves_mask (h : heap) (coloc_mask : positive)
  (m : ndarray bool) (n : Z) (ps : idx3) :
  h !! coloc_mask = Some (BoolArr m) ->
  exists h',
    find_colocalization_hotspots_st coloc_mask n ps h =
      (find_colocalization_hotspots m n ps, h') /\
    h' !! coloc_mask = Some (BoolArr m) /\
    preserves h h'.
Proof.
  intros Hm.
  assert (Hfin : forall h', preserves h h' ->
            h' !! coloc_mask = Some (BoolArr m) /\ preserves h h').
  { intros h' P. split; [apply P, Hm | exact P]. }
  unfold find_colocalization_hotspots_st, find_colocalization_hotspots.
  unfold np_ones_st. unfold bind at 1. unfold bind at 1, lift.
  destruct (np_ones (half ps)) as [kernel | e]; cbn [rbind].
  2:{ exists h. split; [reflexivity | apply Hfin, preserves_refl]. }
  unfold alloc at 1.
  set (l1 := fresh (dom h)). set (h1 := <[l1 := FloatArr kernel]> h).
  assert (P1 : preserves h h1) by apply preserves_alloc.
  unfold astype_float_st. unfold bind at 1. unfold bind at 1, read_bool at 1.
  rewrite (P1 _ _ Hm). unfold alloc at 1.
  set (l2 := fresh (dom h1)).
  set (h2 := <[l2 := FloatArr (astype_float m)]> h1).
  assert (P2 : preserves h1 h2) by apply preserves_alloc.
  unfold ndimage_convolve_st. unfold bind at 1. unfold bind at 1, read_float at 1.
  assert (E2 : h2 !! l2 = Some (FloatArr (astype_float m)))
    by apply lookup_insert_eq.
  rewrite E2. unfold bind at 1, read_float at 1.
  assert (E1 : h2 !! l1 = Some (FloatArr kernel))
    by (apply P2, lookup_insert_eq).
  rewrite E1. unfold bind at 1, lift.
  destruct (ndimage_convolve (astype_float m) kernel) as [d | e]; cbn [rbind].
  2:{ exists h2. split; [reflexivity|].
      apply Hfin. eapply preserves_trans; eauto. }
  unfold alloc at 1.
  set (l3 := fresh (dom h2)). set (h3 := <[l3 := FloatArr d]> h2).
  assert (P3 : preserves h2 h3) by apply preserves_alloc.
  assert (P03 : preserves h h3).
  { eapply preserves_trans; [exact P1|]. eapply preserves_trans; eauto. }
  unfold bind at 1, read_bool at 1. rewrite (P03 _ _ Hm).
  destruct (hotspot_loop_st_spec (shape m) ps l3 (Z.to_nat n) d [] h3)
    as (d' & E); [apply lookup_insert_eq|].
  rewrite E. eexists. split; [reflexivity|].
  apply Hfin. unfold h3. rewrite insert_insert_eq.
  eapply preserves_trans; [exact P1|]. eapply preserves_trans; [exact P2|].
  apply preserves_alloc.
Qed.

Lemma find_hotspots_leaves_mask_witness :
  one_mask_store !! 1%positive
    = Some (BoolArr (mask_of (3, 2, 2) [(1, 1, 1); (2, 1, 1)])) /\
  exists h',
    find_colocalization_hotspots_st 1%positive 2 (2, 2, 2) one_mask_store =
      (find_colocalization_hotspots
         (mask_of (3, 2, 2) [(1, 1, 1); (2, 1, 1)]) 2 (2, 2, 2), h') /\
    h' !! 1%positive = Some (BoolArr (mask_of (3, 2, 2) [(1, 1, 1); (2, 1, 1)])) /\
    preserves one_mask_store h'.
Proof.
  assert (H : one_mask_store !! 1%positive
              = Some (BoolArr (mask_of (3, 2, 2) [(1, 1, 1); (2, 1, 1)])))
    by reflexivity.
  split; [exact H|].
  exact (find_hotspots_leaves_mask one_mask_store 1%positive _ 2 (2, 2, 2) H).
Defined.

(** ** Invalid inputs *)

Lemma score_empty_channel (ch1 ch2 : ndarray Q) q :
  data ch1 = [] \/ data ch2 = [] ->
  calculate_colocalization_score ch1 ch2 q = Raise ValueError.
Proof.
  intros H. unfold calculate_colocalization_score, normalize.
  destruct (data ch1) as [|v1 t1] eqn:E1; [reflexivity|].
  destruct H as [H | H]; [discriminate|]. rewrite H. reflexivity.
Qed.

Lemma find_hotspots_small_patch (m : ndarray bool) n ps :
  ~ size_at_least_2 ps -> exists e, find_colocalization_hotspots m n ps = Raise e.
Proof.
  destruct ps as [[pz py] px]. intros Hps. simpl in Hps.
  unfold find_colocalization_hotspots, half, np_ones.
  destruct ((pz / 2 <? 0) || (py / 2 <? 0) || (px / 2 <? 0)) eqn:En;
    cbn [rbind]; [eexists; reflexivity|].
  unfold ndimage_convolve; cbn [shape].
  replace ((pz / 2 <=? 0) || (py / 2 <=? 0) || (px / 2 <=? 0)) with true;
    [eexists; reflexivity|].
  symmetry. rewrite !orb_true_iff, !Z.leb_le.
  assert (pz < 2 \/ py < 2 \/ px < 2) as [H | [H | H]] by lia.
  - left; left. apply Z.lt_succ_r, Z.div_lt_upper_bound; lia.
  - left; right. apply Z.lt_succ_r, Z.div_lt_upper_bound; lia.
  - right. apply Z.lt_succ_r, Z.div_lt_upper_bound; lia.
Qed.

Lemma find_hotspots_no_iteration (m : ndarray bool) n ps :
  size_at_least_2 ps -> n <= 0 -> find_colocalization_hotspots m n ps = Ok [].
Proof.
  intros Hps Hn. pose proof (half_ge_1 ps Hps) as Hh.
  unfold find_colocalization_hotspots.
  destruct (half ps) as [[hz hy] hx]. destruct Hh as (Hz & Hy & Hx).
  rewrite np_ones_ok by (simpl; lia). cbn [rbind].
  unfold ndimage_convolve; cbn [shape].
  replace ((hz <=? 0) || (hy <=? 0) || (hx <=? 0)) with false
    by (symmetry; rewrite !orb_false_iff, !Z.leb_gt; lia).
  cbn [rbind]. replace (Z.to_nat n) with 0%nat by lia. reflexivity.
Qed.

(** channels of different shapes never get through the run: whatever the
    scorer and the selector do with them, [np.stack] (line 265) refuses
    them *)
Lemma run_shape_mismatch (ch1 ch2 : ndarray Q) n ps :
  shape ch1 <> shape ch2 ->
  (exists e, extraction_run ch1 ch2 n ps = Raise e) /\
  (forall sc centers,
     calculate_colocalization_score ch1 ch2 50 = Ok sc ->
     find_colocalization_hotspots (snd sc) n ps = Ok centers ->
     extraction_run ch1 ch2 n ps = Raise ValueError).
Proof.
  intros Hsh.
  assert (Es : np_stack2 ch1 ch2 = Raise ValueError).
  { unfold np_stack2. destruct (idx3_eqb (shape ch1) (shape ch2)) eqn:E;
      [apply idx3_eqb_eq in E; contradiction | reflexivity]. }
  unfold extraction_run. split.
  - destruct (calculate_colocalization_score ch1 ch2 50) as [[m c] | e];
      cbn [rbind]; [|eexists; reflexivity].
    destruct (find_colocalization_hotspots c n ps) as [cs | e];
      cbn [rbind]; [|eexists; reflexivity].
    rewrite Es. eexists; reflexivity.
  - intros [m c] centers E1 E2. cbn [snd] in E2.
    rewrite E1. cbn [rbind]. rewrite E2. cbn [rbind]. now rewrite Es.
Qed.

(** C2 (as amended): nothing is validated up front.  A zero-size channel
    makes the scorer, and with it the run, raise ValueError at the first
    reduction; channels of different shapes always make the run raise,
    though not at once: where the scorer and the selector accept them, it
    is [np.stack] that raises ValueError after both have run; a patch
    size with an extent below 2 (every non-positive one among them) makes
    [find_colocalization_hotspots] raise before its loop; a non-positive
    count raises nothing: the function returns the empty list. *)
Theorem input_errors_come_from_the_library (ch1 ch2 : ndarray Q)
  (mask : ndarray bool) (q : Q) (n : Z) (ps : idx3) :
  (data ch1 = [] \/ data ch2 = [] ->
     calculate_colocalization_score ch1 ch2 q = Raise ValueError /\
     extraction_run ch1 ch2 n ps = Raise ValueError) /\
  (shape ch1 <> shape ch2 ->
     (exists e, extraction_run ch1 ch2 n ps = Raise e) /\
     (forall sc centers,
        calculate_colocalization_score ch1 ch2 50 = Ok sc ->
        find_colocalization_hotspots (snd sc) n ps = Ok centers ->
        extraction_run ch1 ch2 n ps = Raise ValueError)) /\
  (~ size_at_least_2 ps ->
     exists e, find_colocalization_hotspots mask n ps = Raise e) /\
  (size_at_least_2 ps -> n <= 0 ->
     find_colocalization_hotspots mask n ps = Ok []).
Proof.
  split; [|split; [|split]].
  - intros H. split; [now apply score_empty_channel|].
    unfold extraction_run. now rewrite score_empty_channel.
  - apply run_shape_mismatch.
  - apply find_hotspots_small_patch.
  - apply find_hotspots_no_iteration.
Qed.

(** C2, as stated, fails: a patch count of 0 is accepted, the run returns
    a coefficient, a mask and an empty list of patches; and the scorer
    accepts channels of different shapes that numpy can broadcast. *)
Lemma invalid_input_accepted_counterexample :
  invalid_input cube8 cube8 0 (2, 2, 2) /\
  (exists out, extraction_run cube8 cube8 0 (2, 2, 2) = Ok out) /\
  invalid_input cube8 dark_voxel 3 (2, 2, 2) /\
  (exists out, calculate_colocalization_score cube8 dark_voxel 50 = Ok out).
Proof.
  split; [right; right; right; right; lia|].
  split; [eexists; vm_compute; reflexivity|].
  split; [left; discriminate|].
  eexists; vm_compute; reflexivity.
Qed.

(** the scorer and the selector accept a (2, 2, 2) channel beside a
    (1, 1, 1) channel; the run then stops at [np.stack] *)
Example run_stops_at_stack :
  (exists sc centers,
     calculate_colocalization_score cube8 dark_voxel 50 = Ok sc /\
     find_colocalization_hotspots (snd sc) 3 (2, 2, 2) = Ok centers) /\
  extraction_run cube8 dark_voxel 3 (2, 2, 2) = Raise ValueError.
Proof.
  split; [eexists; eexists; split; vm_compute; reflexivity|].
  vm_compute; reflexivity.
Qed.

Lemma input_errors_come_from_the_library_witness :
  (calculate_colocalization_score (mk_ndarray (0, 2, 2) []) cube8 50
     = Raise ValueError /\
   extraction_run (mk_ndarray (0, 2, 2) []) cube8 3 (64, 64, 64)
     = Raise ValueError) /\
  (shape cube8 <> shape dark_voxel /\
   (exists e, extraction_run cube8 dark_voxel 3 (2, 2, 2) = Raise e) /\
   (forall sc centers,
      calculate_colocalization_score cube8 dark_voxel 50 = Ok sc ->
      find_colocalization_hotspots (snd sc) 3 (2, 2, 2) = Ok centers ->
      extraction_run cube8 dark_voxel 3 (2, 2, 2) = Raise ValueError)) /\
  (exists e, find_colocalization_hotspots
               (mask_of (3, 2, 2) [(1, 1, 1)]) 3 (0, 64, 64) = Raise e) /\
  find_colocalization_hotspots (mask_of (3, 2, 2) [(1, 1, 1)]) 0 (64, 64, 64)
    = Ok [].
Proof.
  split; [|split; [|split]].
  - apply (input_errors_come_from_the_library (mk_ndarray (0, 2, 2) []) cube8
             (mask_of (3, 2, 2) [(1, 1, 1)]) 50 3 (64, 64, 64)).
    left; reflexivity.
  - assert (Hsh : shape cube8 <> shape dark_voxel) by discriminate.
    split; [exact Hsh|].
    apply (input_errors_come_from_the_library cube8 dark_voxel
             (mask_of (3, 2, 2) [(1, 1, 1)]) 50 3 (2, 2, 2)).
    exact Hsh.
  - apply (input_errors_come_from_the_library cube8 cube8
             (mask_of (3, 2, 2) [(1, 1, 1)]) 50 3 (0, 64, 64)).
    simpl; lia.
  - apply (input_errors_come_from_the_library cube8 cube8
             (mask_of (3, 2, 2) [(1, 1, 1)]) 50 0 (64, 64, 64)).
    + simpl; lia.
    + lia.
Defined.

(** ** Worked examples *)

(** a patch around the low corner: one voxel of data, padding after it *)
Example extract_patch_low_corner :
  extract_patch 0%Q (Single cube8) (0, 0, 0) (2, 2, 2)
  = Ok (Single (mk_ndarray (2, 2, 2) (map inject_Z [1; 0; 0; 0; 0; 0; 0; 0]))).
Proof. reflexivity. Qed.

(** an interior center with an even patch needs no padding *)
Example extract_patch_interior :
  extract_patch 0%Q (Single cube8) (1, 1, 1) (2, 2, 2) = Ok (Single cube8).
Proof. reflexivity. Qed.

(** both channels are cut by the same bounds *)
Example extract_patch_two_channels :
  extract_patch 0%Q (Multi pair4) (1, 1, 0) (2, 2, 2)
  = Ok (Multi (mk_ndarray4 2 (2, 2, 2)
         (map inject_Z [1; 0; 2; 0; 3; 0; 4; 0; 5; 0; 6; 0; 7; 0; 8; 0]))).
Proof. reflexivity. Qed.

(** the median of four values lies half way between the middle two *)
Example percentile_median :
  exists t, np_percentile (map inject_Z [4; 1; 3; 2]) 50 = Ok t /\ (t == 5 # 2)%Q.
Proof. eexists. split; [vm_compute; reflexivity | reflexivity]. Qed.

Example percentile_out_of_range :
  np_percentile (map inject_Z [4; 1; 3; 2]) 101 = Raise ValueError.
Proof. reflexivity. Qed.

(** a peak at the origin is rejected, and its box is cleared all the same *)
Example origin_candidate_rejected :
  hotspot_iter (3, 2, 2) (2, 2, 2)
    (mk_ndarray (3, 2, 2) (map inject_Z [9; 0; 0; 0; 0; 0; 0; 0; 0; 0; 0; 0]), [])
  = Ok (mk_ndarray (3, 2, 2) (map inject_Z [0; 0; 0; 0; 0; 0; 0; 0; 0; 0; 0; 0]), []).
Proof. reflexivity. Qed.

(** a patch extent of 1 gives a kernel without cells, which the
    convolution refuses *)
Example unit_patch_size_raises :
  find_colocalization_hotspots (mask_of (3, 2, 2) [(1, 1, 1)]) 3 (1, 1, 1)
  = Raise RuntimeError.
Proof. reflexivity. Qed.

Example negative_patch_size_raises :
  find_colocalization_hotspots (mask_of (3, 2, 2) [(1, 1, 1)]) 3 (-1, 2, 2)
  = Raise ValueError.
Proof. reflexivity. Qed.

(** identical channels: the coefficient is 1 *)
Example identical_channels_score :
  exists c m, calculate_colocalization_score cube8 cube8 50 = Ok (c, m) /\
    (c == 1)%Q /\ data m = [false; false; false; false; true; true; true; true].
Proof. eexists; eexists. split; [vm_compute; reflexivity|]. split; reflexivity. Qed.

(** * Further properties *)

(** ** Hotspot Selector: validity, scan order, decreasing peaks *)

Lemma center_valid_far sh ps c :
  center_valid c sh ps = true <-> far_from_edges sh ps c.
Proof.
  destruct sh as [[s0 s1] s2], ps as [[pz py] px], c as [[z y] x].
  unfold center_valid, too_close, far_from_edges.
  rewrite negb_true_iff, !orb_false_iff, !Z.ltb_ge.
  rewrite !Z.gtb_ltb, !Z.ltb_ge. lia.
Qed.

Lemma suppress_wf vs ps (d : ndarray Q) c :
  wf_array d -> shape (suppress vs ps d c) = shape d /\ wf_array (suppress vs ps d c).
Proof.
  intros [Hs _]. unfold suppress, fill_slice3.
  destruct c as [[z y] x], vs as [[s0 s1] s2], (half ps) as [[h0 h1] h2].
  destruct (shape d) as [[a0 a1] a2] eqn:E. cbn [shape].
  split; [reflexivity|]. now apply wf_tab3.
Qed.

(** the loop on any density map of a non-empty shape: it returns, and
    what it appends passed the edge test *)
Lemma hotspot_loop_valid sh ps k : forall d cs,
  wf_array d -> shape d = sh -> 0 < size3 sh ->
  exists d' later,
    hotspot_loop k sh ps (d, cs) = Ok (d', cs ++ later) /\
    wf_array d' /\ shape d' = sh /\ (length later <= k)%nat /\
    Forall (fun c => in_bounds sh c /\ far_from_edges sh ps c) later.
Proof.
  induction k as [|k IH]; intros d cs Hwf Hsh Hsz.
  - exists d, []. rewrite app_nil_r.
    split; [reflexivity|]. split; [exact Hwf|]. split; [exact Hsh|].
    split; [simpl; lia | constructor].
  - subst sh.
    destruct (candidate_spec d Hwf Hsz) as (c & Ec & Hc & _).
    destruct (suppress_wf (shape d) ps d c Hwf) as [Hs' Hw'].
    cbn [hotspot_loop]. unfold hotspot_iter. rewrite Ec. cbn [rbind].
    destruct (center_valid c (shape d) ps) eqn:Hv.
    + destruct (IH (suppress (shape d) ps d c) (cs ++ [c]) Hw' Hs' Hsz)
        as (d' & later & El & W & S & L & F).
      exists d', (c :: later). rewrite <- app_assoc in El.
      split; [exact El|]. split; [exact W|]. split; [exact S|].
      split; [simpl; lia|].
      constructor; [|exact F]. split; [exact Hc | now apply center_valid_far].
    + destruct (IH (suppress (shape d) ps d c) cs Hw' Hs' Hsz)
        as (d' & later & El & W & S & L & F).
      exists d', later.
      split; [exact El|]. split; [exact W|]. split; [exact S|].
      split; [lia | exact F].
Qed.

(** X1: on a well-formed non-empty mask and a patch size with extents of
    at least 2, [find_colocalization_hotspots] returns, with at most
    [count] centers, and every returned center lies inside the volume at
    a distance of at least [patch_size // 2] from both faces of every
    axis (it passed the test of lines 88-89). *)
Theorem hotspots_keep_clear_of_edges (m : ndarray bool) count ps :
  wf_array m -> 0 < size3 (shape m) -> size_at_least_2 ps ->
  exists centers,
    find_colocalization_hotspots m count ps = Ok centers /\
    Z.of_nat (length centers) <= Z.max 0 count /\
    Forall (fun c => in_bounds (shape m) c /\ far_from_edges (shape m) ps c) centers.
Proof.
  intros Hwf Hsz Hps.
  destruct (density_map_spec m ps Hwf Hps) as (kernel & d & Ek & Ed & Hwd & Hsd & _).
  destruct (hotspot_loop_valid (shape m) ps (Z.to_nat count) d [] Hwd Hsd Hsz)
    as (d' & later & El & _ & _ & L & F).
  exists later. unfold find_colocalization_hotspots.
  rewrite Ek. cbn [rbind]. rewrite Ed. cbn [rbind]. rewrite El.
  split; [reflexivity|]. split; [lia | exact F].
Qed.

Lemma ravel_lt_to_nat sh p q :
  in_bounds sh p -> in_bounds sh q -> ravel3 sh p < ravel3 sh q ->
  (Z.to_nat (ravel3 sh p) < Z.to_nat (ravel3 sh q))%nat.
Proof.
  intros Hp Hq H. pose proof (ravel3_range _ _ Hp). pose proof (ravel3_range _ _ Hq). lia.
Qed.

(** X2: the candidate of an iteration is the first maximum of the
    density map in row-major scan order: no cell holds a larger value, and
    every cell scanned before it holds a strictly smaller one. *)
Theorem candidate_is_first_maximum (d : ndarray Q) :
  wf_array d -> 0 < size3 (shape d) ->
  exists c, candidate d = Ok c /\ in_bounds (shape d) c /\
    forall p, in_bounds (shape d) p ->
      (get3 0%Q d p <= get3 0%Q d c)%Q /\
      (ravel3 (shape d) p < ravel3 (shape d) c -> (get3 0%Q d p < get3 0%Q d c)%Q).
Proof.
  intros Hwf Hsz. pose proof Hwf as [Hs Hlen].
  assert (Hne : data d <> []).
  { intros E. rewrite E in Hlen. simpl in Hlen. lia. }
  destruct (np_argmax_spec (data d) Hne) as (i & E & Hi & Hmax & Hfirst).
  unfold candidate. rewrite E. cbn [rbind].
  eexists; split; [reflexivity|].
  assert (Hi' : 0 <= i < size3 (shape d)) by lia.
  split; [now apply unravel_in_bounds|].
  intros p Hp. pose proof (ravel3_range _ _ Hp) as Hr.
  rewrite <- (nth_get3 0%Q d i Hwf Hi'). unfold get3. split.
  - apply (proj1 (List.Forall_forall _ _) Hmax), List.nth_In. lia.
  - intros Hlt. rewrite (ravel_unravel _ _ Hs Hi') in Hlt. apply Hfirst. lia.
Qed.

(** X3: on a non-negative density map the value found at the candidate
    of the next iteration is at most the value found at the candidate of
    this one, and it is never negative: the peaks visited by the loop do
    not increase. *)
Theorem successive_candidates_decrease (d : ndarray Q) ps :
  wf_array d -> 0 < size3 (shape d) -> nonneg_density d -> positive_size ps ->
  exists c c',
    candidate d = Ok c /\
    candidate (suppress (shape d) ps d c) = Ok c' /\
    (0 <= get3 0%Q (suppress (shape d) ps d c) c')%Q /\
    (get3 0%Q (suppress (shape d) ps d c) c' <= get3 0%Q d c)%Q.
Proof.
  intros Hwf Hsz Hnn Hps.
  destruct (candidate_spec d Hwf Hsz) as (c & Ec & Hc & Hmax & _).
  destruct (suppress_spec d c ps Hwf Hc Hps) as (Hsh' & Hwf' & Hget).
  set (d' := suppress (shape d) ps d c) in *.
  assert (Hsz' : 0 < size3 (shape d')) by now rewrite Hsh'.
  destruct (candidate_spec d' Hwf' Hsz') as (c' & Ec' & Hc' & _).
  exists c, c'. split; [exact Ec|]. split; [exact Ec'|]. fold d'.
  rewrite Hsh' in Hc'. destruct (Hget c' Hc') as [Hz Hk].
  pose proof (Hnn c Hc) as N. pose proof (Hnn c' Hc') as N'.
  pose proof (Hmax c' Hc') as M.
  destruct (in_box_dec c (half ps) c') as [Hb | Hb].
  - rewrite (Hz Hb). split; [apply Qle_refl | exact N].
  - rewrite (Hk Hb). split; [exact N' | exact M].
Qed.

Lemma Qsum_le_length l :
  Forall (fun v => (v <= 1)%Q) l -> (Qsum l <= inject_Z (Z.of_nat (length l)))%Q.
Proof.
  induction 1 as [|v l Hv _ IH]; [apply Qle_refl|].
  cbn [Qsum fold_right length]. rewrite Nat2Z.inj_succ, <- Z.add_1_l, inject_Z_plus.
  change (inject_Z 1) with 1%Q. unfold Qsum in IH. lra.
Qed.

Lemma nth_ones_le_1 {X} (l : list X) n :
  (nth n (map (fun _ : X => 1%Q) l) 0 <= 1)%Q.
Proof.
  revert n. induction l as [|b l IH]; intros [|n]; simpl;
    try discriminate; apply IH.
Qed.

Lemma nth_astype_float_le_1 l n :
  (nth n (map (fun b : bool => if b then 1%Q else 0%Q) l) 0 <= 1)%Q.
Proof.
  revert n. induction l as [|b l IH]; intros [|n]; simpl;
    try discriminate; [|apply IH].
  destruct b; discriminate.
Qed.

Lemma box_term_le_1 sh (m : ndarray bool) q r :
  (get3 0%Q (mk_ndarray sh (tab3 sh (fun _ => 1%Q))) q *
   get3_padded (astype_float m) r <= 1)%Q.
Proof.
  assert (W0 : (0 <= get3 0%Q (mk_ndarray sh (tab3 sh (fun _ => 1%Q))) q)%Q)
    by (unfold get3, tab3; cbn [data]; apply nth_ones_nonneg).
  assert (W1 : (get3 0%Q (mk_ndarray sh (tab3 sh (fun _ => 1%Q))) q <= 1)%Q)
    by (unfold get3, tab3; cbn [data]; apply nth_ones_le_1).
  assert (V0 : (0 <= get3_padded (astype_float m) r)%Q).
  { unfold get3_padded. destruct (in_boundsb _ _); [|apply Qle_refl].
    unfold get3, astype_float; cbn [data]. apply nth_astype_float_nonneg. }
  assert (V1 : (get3_padded (astype_float m) r <= 1)%Q).
  { unfold get3_padded. destruct (in_boundsb _ _); [|discriminate].
    unfold get3, astype_float; cbn [data]. apply nth_astype_float_le_1. }
  set (w := get3 0%Q _ q) in *. set (v := get3_padded _ r) in *. nra.
Qed.

(** X4: the density map built at lines 67-75 has the shape of the mask,
    its values lie between 0 and the number of kernel cells, and it is 0
    everywhere when the mask is entirely false. *)
Theorem density_map_counts_neighbours (m : ndarray bool) ps :
  wf_array m -> size_at_least_2 ps ->
  exists kernel d,
    np_ones (half ps) = Ok kernel /\
    ndimage_convolve (astype_float m) kernel = Ok d /\
    wf_array d /\ shape d = shape m /\
    (forall p, in_bounds (shape m) p ->
       (0 <= get3 0%Q d p)%Q /\ (get3 0%Q d p <= inject_Z (size3 (half ps)))%Q) /\
    (all_false m -> all_zero_density d).
Proof.
  intros Hwf Hps.
  destruct (density_map_spec m ps Hwf Hps) as (kernel & d & Ek & Ed & Hwd & Hsd & Hnn & Hz).
  exists kernel, d. split; [exact Ek|]. split; [exact Ed|].
  split; [exact Hwd|]. split; [exact Hsd|]. split; [|exact Hz].
  intros p Hp. split; [apply Hnn; now rewrite Hsd|].
  pose proof (half_ge_1 ps Hps) as Hh.
  destruct (half ps) as [[hz hy] hx] eqn:Eh. destruct Hh as (H0 & H1 & H2).
  rewrite np_ones_ok in Ek by (simpl; lia). injection Ek as <-.
  unfold ndimage_convolve in Ed. cbn [shape] in Ed.
  replace ((hz <=? 0) || (hy <=? 0) || (hx <=? 0)) with false in Ed
    by (symmetry; rewrite !orb_false_iff, !Z.leb_gt; lia).
  injection Ed as <-. cbn [shape astype_float] in Hp |- *.
  rewrite get3_tab3 by exact Hp. destruct p as [[z y] x].
  assert (Hk : 0 <= size3 (hz, hy, hx)) by (apply size3_nonneg; simpl; lia).
  match goal with |- (Qsum ?l <= _)%Q =>
    assert (Hl : Z.of_nat (length l) = size3 (hz, hy, hx))
      by (rewrite length_tab3; lia);
    rewrite <- Hl; apply Qsum_le_length
  end.
  unfold tab3 at 1. apply Forall_map_all. intros i.
  destruct (unravel_index i (hz, hy, hx)) as [[m0 m1] m2].
  apply box_term_le_1.
Qed.

(** ** Patch Extractor: centers anywhere, interior centers, composition *)

Lemma slice_len_axis_nonneg s c p :
  0 <= s -> 0 <= c -> 0 < p ->
  let a := slice_len s (Z.max 0 (c - p / 2)) (Z.min s (c + p / 2)) in
  0 <= a <= 2 * (p / 2) /\ a <= p /\ slice_len p 0 a = a /\
  (s <= c - p / 2 -> a = 0) /\
  (forall i, 0 <= i < a -> 0 <= slice_pos s (Z.max 0 (c - p / 2)) + i < s) /\
  (p / 2 <= c <= s - p / 2 ->
     a = 2 * (p / 2) /\ slice_pos s (Z.max 0 (c - p / 2)) = c - p / 2).
Proof.
  intros Hs Hc Hp. destruct (half_le p Hp) as [H0 H2].
  cbv zeta. unfold slice_len. rewrite !slice_pos_nonneg by lia.
  repeat split; try lia.
Qed.

Section PatchFactsFurther.
Context {A : Type} (zero : A).

Local Arguments idx3_eqb : simpl never.

(** [extract_patch] for a center with non-negative coordinates, inside
    the volume or not *)
Lemma extract_patch_spec_nonneg (vol : volume A) center ps :
  wf_volume vol -> nonneg_center center -> positive_size ps ->
  exists patch,
    extract_patch zero vol center ps = Ok patch /\
    wf_volume patch /\ spatial_shape patch = ps /\ same_rank vol patch /\
    forall c p, 0 <= c < channels vol -> in_bounds ps p ->
      voxel zero patch c p =
      if idx3_ltb p (actual_size (spatial_shape vol) center ps)
      then voxel zero vol c (idx3_add (slice_start (spatial_shape vol) center ps) p)
      else zero.
Proof.
  intros Hwf Hc Hps.
  destruct center as [[z y] x], ps as [[pz py] px].
  destruct Hps as (Hpz & Hpy & Hpx). destruct Hc as (Hz & Hy & Hx).
  destruct vol as [v|v]; simpl in Hwf |- *.
  - destruct v as [[[s0 s1] s2] d]. simpl in *.
    destruct Hwf as [(Hs0 & Hs1 & Hs2) Hlen].
    pose proof (slice_len_axis_nonneg s0 z pz Hs0 Hz Hpz) as (Ha0 & Hb0 & Hc0 & _).
    pose proof (slice_len_axis_nonneg s1 y py Hs1 Hy Hpy) as (Ha1 & Hb1 & Hc1 & _).
    pose proof (slice_len_axis_nonneg s2 x px Hs2 Hx Hpx) as (Ha2 & Hb2 & Hc2 & _).
    unfold extract_patch, slice3; simpl.
    set (a0 := slice_len s0 _ _) in *.
    set (a1 := slice_len s1 _ _) in *.
    set (a2 := slice_len s2 _ _) in *.
    destruct (idx3_eqb (a0, a1, a2) (pz, py, px)) eqn:E; simpl.
    + apply idx3_eqb_eq in E. injection E as E0 E1 E2.
      eexists; split; [reflexivity|].
      split; [apply wf_tab3; simpl; lia|].
      split; [simpl; congruence|]. split; [exact I|].
      intros c [[i j] k] _ Hp. simpl in Hp. simpl.
      rewrite get3_tab3 by (simpl; lia).
      replace (i <? a0) with true by (symmetry; apply Z.ltb_lt; lia).
      replace (j <? a1) with true by (symmetry; apply Z.ltb_lt; lia).
      replace (k <? a2) with true by (symmetry; apply Z.ltb_lt; lia).
      reflexivity.
    + replace ((pz <? 0) || (py <? 0) || (px <? 0)) with false
        by (symmetry; rewrite !orb_false_iff, !Z.ltb_ge; lia).
      simpl. unfold assign_prefix3; simpl.
      rewrite Hc0, Hc1, Hc2, !bcast_ok_refl. simpl.
      eexists; split; [reflexivity|].
      split; [apply wf_tab3; simpl; lia|].
      split; [reflexivity|]. split; [exact I|].
      intros c [[i j] k] _ Hp. simpl in Hp. simpl.
      rewrite get3_tab3 by (simpl; lia).
      rewrite !in_slice_prefix by lia.
      destruct (Z.ltb_spec i a0); simpl;
        [|now rewrite get3_tab3 by (simpl; lia)].
      destruct (Z.ltb_spec j a1); simpl;
        [|now rewrite get3_tab3 by (simpl; lia)].
      destruct (Z.ltb_spec k a2); simpl;
        [|now rewrite get3_tab3 by (simpl; lia)].
      rewrite !bcast_ix_lt by lia.
      now rewrite get3_tab3 by (simpl; lia).
  - destruct v as [nc [[s0 s1] s2] d]. simpl in *.
    destruct Hwf as (Hnc & (Hs0 & Hs1 & Hs2) & Hlen). simpl in Hnc.
    pose proof (slice_len_axis_nonneg s0 z pz Hs0 Hz Hpz) as (Ha0 & Hb0 & Hc0 & _).
    pose proof (slice_len_axis_nonneg s1 y py Hs1 Hy Hpy) as (Ha1 & Hb1 & Hc1 & _).
    pose proof (slice_len_axis_nonneg s2 x px Hs2 Hx Hpx) as (Ha2 & Hb2 & Hc2 & _).
    unfold extract_patch, slice4; simpl.
    set (a0 := slice_len s0 _ _) in *.
    set (a1 := slice_len s1 _ _) in *.
    set (a2 := slice_len s2 _ _) in *.
    destruct (idx3_eqb (a0, a1, a2) (pz, py, px)) eqn:E; simpl.
    + apply idx3_eqb_eq in E. injection E as E0 E1 E2.
      eexists; split; [reflexivity|].
      split; [apply wf_tab4; simpl; lia|].
      split; [simpl; congruence|]. split; [reflexivity|].
      intros c [[i j] k] Hcc Hp. simpl in Hp, Hcc. simpl.
      rewrite get4_tab4 by (simpl; lia).
      replace (i <? a0) with true by (symmetry; apply Z.ltb_lt; lia).
      replace (j <? a1) with true by (symmetry; apply Z.ltb_lt; lia).
      replace (k <? a2) with true by (symmetry; apply Z.ltb_lt; lia).
      reflexivity.
    + replace ((nc <? 0) || (pz <? 0) || (py <? 0) || (px <? 0)) with false
        by (symmetry; rewrite !orb_false_iff, !Z.ltb_ge; lia).
      simpl. unfold assign_prefix4; simpl.
      rewrite Hc0, Hc1, Hc2, !bcast_ok_refl. simpl.
      eexists; split; [reflexivity|].
      split; [apply wf_tab4; simpl; lia|].
      split; [reflexivity|]. split; [reflexivity|].
      intros c [[i j] k] Hcc Hp. simpl in Hp, Hcc. simpl.
      rewrite get4_tab4 by (simpl; lia).
      rewrite !in_slice_prefix by lia.
      destruct (Z.ltb_spec i a0); simpl;
        [|now rewrite get4_tab4 by (simpl; lia)].
      destruct (Z.ltb_spec j a1); simpl;
        [|now rewrite get4_tab4 by (simpl; lia)].
      destruct (Z.ltb_spec k a2); simpl;
        [|now rewrite get4_tab4 by (simpl; lia)].
      rewrite !bcast_ix_lt by lia.
      now rewrite get4_tab4 by (simpl; lia).
Qed.

(** facts about the clamped slice, all axes at once *)
Lemma actual_size_facts (sh center ps : idx3) :
  nonneg_shape sh -> nonneg_center center -> positive_size ps ->
  let '(s0, s1, s2) := sh in
  let '(z, y, x) := center in
  let '(pz, py, px) := ps in
  let '(a0, a1, a2) := actual_size sh center ps in
  let '(b0, b1, b2) := slice_start sh center ps in
  (s0 <= z - pz / 2 -> a0 = 0) /\ (s1 <= y - py / 2 -> a1 = 0) /\
  (s2 <= x - px / 2 -> a2 = 0) /\
  (forall i j k, 0 <= i < a0 -> 0 <= j < a1 -> 0 <= k < a2 ->
     in_bounds sh (b0 + i, b1 + j, b2 + k)) /\
  (far_from_edges sh ps center ->
     (a0, a1, a2) = (2 * (pz / 2), 2 * (py / 2), 2 * (px / 2)) /\
     (b0, b1, b2) = (z - pz / 2, y - py / 2, x - px / 2)).
Proof.
  destruct sh as [[s0 s1] s2], center as [[z y] x], ps as [[pz py] px].
  simpl. intros (Hs0 & Hs1 & Hs2) (Hz & Hy & Hx) (Hpz & Hpy & Hpx).
  pose proof (slice_len_axis_nonneg s0 z pz Hs0 Hz Hpz) as (_ & _ & _ & Z0 & B0 & F0).
  pose proof (slice_len_axis_nonneg s1 y py Hs1 Hy Hpy) as (_ & _ & _ & Z1 & B1 & F1).
  pose proof (slice_len_axis_nonneg s2 x px Hs2 Hx Hpx) as (_ & _ & _ & Z2 & B2 & F2).
  cbv zeta in *.
  split; [exact Z0|]. split; [exact Z1|]. split; [exact Z2|]. split.
  - intros i j k Hi Hj Hk. split; [now apply B0|]. split; [now apply B1 | now apply B2].
  - intros (Fz & Fy & Fx).
    destruct (F0 Fz) as [-> ->], (F1 Fy) as [-> ->], (F2 Fx) as [-> ->].
    split; reflexivity.
Qed.

Lemma far_from_edges_nonneg sh ps c :
  positive_size ps -> far_from_edges sh ps c -> nonneg_center c.
Proof.
  destruct sh as [[s0 s1] s2], ps as [[pz py] px], c as [[z y] x]; simpl.
  intros (Hpz & Hpy & Hpx) (Hz & Hy & Hx).
  destruct (half_le pz Hpz), (half_le py Hpy), (half_le px Hpx). lia.
Qed.

Lemma even_half p : Z.even p = true -> 2 * (p / 2) = p.
Proof.
  intros H. apply Z.even_spec in H. destruct H as [k ->].
  rewrite (Z.mul_comm 2 k), Z.div_mul by lia. lia.
Qed.

(** for a center that passes the edge test and an even patch size the
    patch is the block of the volume around the center *)
Lemma extract_patch_far_from_edges (vol : volume A) center ps :
  wf_volume vol -> positive_size ps -> even_size ps ->
  far_from_edges (spatial_shape vol) ps center ->
  exists patch,
    extract_patch zero vol center ps = Ok patch /\
    wf_volume patch /\ spatial_shape patch = ps /\ same_rank vol patch /\
    forall c p, 0 <= c < channels vol -> in_bounds ps p ->
      voxel zero patch c p =
      voxel zero vol c (idx3_add (idx3_sub center (half ps)) p).
Proof.
  intros Hwf Hps Hev Hfar.
  pose proof (far_from_edges_nonneg _ _ _ Hps Hfar) as Hc.
  destruct (extract_patch_spec_nonneg vol center ps Hwf Hc Hps)
    as (patch & E & W & S & R & V).
  exists patch. split; [exact E|]. split; [exact W|]. split; [exact S|].
  split; [exact R|].
  intros c p Hcc Hp. rewrite (V c p Hcc Hp).
  pose proof (actual_size_facts _ center ps (wf_spatial vol Hwf) Hc Hps) as F.
  destruct (spatial_shape vol) as [[s0 s1] s2], center as [[z y] x],
    ps as [[pz py] px].
  destruct (actual_size (s0, s1, s2) (z, y, x) (pz, py, px)) as [[a0 a1] a2].
  destruct (slice_start (s0, s1, s2) (z, y, x) (pz, py, px)) as [[b0 b1] b2].
  destruct F as (_ & _ & _ & _ & F). destruct (F Hfar) as [Ea Eb].
  injection Ea as -> -> ->. injection Eb as -> -> ->.
  destruct Hev as (Ez & Ey & Ex).
  rewrite (even_half pz Ez), (even_half py Ey), (even_half px Ex).
  destruct p as [[i j] k]. simpl in Hp. simpl.
  replace (i <? pz) with true by (symmetry; apply Z.ltb_lt; lia).
  replace (j <? py) with true by (symmetry; apply Z.ltb_lt; lia).
  replace (k <? px) with true by (symmetry; apply Z.ltb_lt; lia).
  reflexivity.
Qed.

(** X5: for every center with non-negative coordinates, inside the
    volume or past its far faces, [extract_patch] returns a patch of
    exactly [patch_size]; when the center lies at least half a patch
    past the far face of some axis, every voxel of the patch is 0. *)
Theorem extract_patch_any_nonneg_center (vol : volume A) center ps :
  wf_volume vol -> nonneg_center center -> positive_size ps ->
  exists patch,
    extract_patch zero vol center ps = Ok patch /\
    wf_volume patch /\ spatial_shape patch = ps /\ same_rank vol patch /\
    (beyond_far_face (spatial_shape vol) ps center ->
     forall c p, 0 <= c < channels vol -> in_bounds ps p ->
       voxel zero patch c p = zero).
Proof.
  intros Hwf Hc Hps.
  destruct (extract_patch_spec_nonneg vol center ps Hwf Hc Hps)
    as (patch & E & W & S & R & V).
  exists patch. split; [exact E|]. split; [exact W|]. split; [exact S|].
  split; [exact R|].
  intros Hfar c p Hcc Hp. rewrite (V c p Hcc Hp).
  pose proof (actual_size_facts _ center ps (wf_spatial vol Hwf) Hc Hps) as F.
  destruct (spatial_shape vol) as [[s0 s1] s2], center as [[z y] x],
    ps as [[pz py] px].
  destruct (actual_size (s0, s1, s2) (z, y, x) (pz, py, px)) as [[a0 a1] a2].
  destruct (slice_start (s0, s1, s2) (z, y, x) (pz, py, px)) as [[b0 b1] b2].
  destruct F as (Z0 & Z1 & Z2 & _).
  destruct p as [[i j] k]. simpl in Hp, Hfar. simpl.
  destruct Hfar as [H | [H | H]].
  - rewrite (Z0 H). replace (i <? 0) with false by (symmetry; apply Z.ltb_ge; lia).
    reflexivity.
  - rewrite (Z1 H). replace (j <? 0) with false by (symmetry; apply Z.ltb_ge; lia).
    now rewrite andb_false_r.
  - rewrite (Z2 H). replace (k <? 0) with false by (symmetry; apply Z.ltb_ge; lia).
    now rewrite andb_false_r.
Qed.

(** X6: for an even patch size and a center at least half a patch away
    from both faces of every axis, the patch is the block of the volume
    that starts at [center - patch_size // 2]: no voxel is padding. *)
Theorem extract_patch_interior_block (vol : volume A) center ps :
  wf_volume vol -> positive_size ps -> even_size ps ->
  far_from_edges (spatial_shape vol) ps center ->
  exists patch,
    extract_patch zero vol center ps = Ok patch /\
    spatial_shape patch = ps /\
    forall c p, 0 <= c < channels vol -> in_bounds ps p ->
      voxel zero patch c p =
      voxel zero vol c (idx3_add (idx3_sub center (half ps)) p).
Proof.
  intros Hwf Hps Hev Hfar.
  destruct (extract_patch_far_from_edges vol center ps Hwf Hps Hev Hfar)
    as (patch & E & _ & S & _ & V).
  exists patch; auto.
Qed.

(** X7: a center so far below 0 on the first axis that the upper slice
    bound [z + pz // 2] is negative makes the slice wrap from the end of
    the volume; when the wrapped slice is longer than the patch, the
    copy into the padded buffer fails and [extract_patch] raises
    ValueError instead of returning a zero patch. *)
Theorem extract_patch_negative_center_raises (vol : volume A) center ps :
  wf_volume vol -> positive_size ps ->
  (let '(s0, _, _) := spatial_shape vol in
   let '(z, _, _) := center in let '(pz, _, _) := ps in
   z + pz / 2 < 0 /\ pz < s0 + (z + pz / 2)) ->
  extract_patch zero vol center ps = Raise ValueError.
Proof.
  intros Hwf Hps Hneg.
  destruct center as [[z y] x], ps as [[pz py] px].
  destruct Hps as (Hpz & Hpy & Hpx).
  destruct (half_le pz Hpz) as [Hh _].
  destruct vol as [v|v]; simpl in Hwf, Hneg.
  - destruct v as [[[s0 s1] s2] d]. simpl in *.
    destruct Hwf as [(Hs0 & Hs1 & Hs2) _]. destruct Hneg as [Hn1 Hn2].
    unfold extract_patch, slice3; simpl.
    assert (Ea : slice_len s0 (Z.max 0 (z - pz / 2)) (Z.min s0 (z + pz / 2))
                 = s0 + (z + pz / 2)).
    { unfold slice_len, slice_pos.
      destruct (Z.ltb_spec (Z.min s0 (z + pz / 2)) 0); [|lia].
      destruct (Z.ltb_spec (Z.max 0 (z - pz / 2)) 0); lia. }
    rewrite Ea.
    set (a0 := s0 + (z + pz / 2)) in *.
    set (a1 := slice_len s1 _ _). set (a2 := slice_len s2 _ _).
    assert (E : idx3_eqb (a0, a1, a2) (pz, py, px) = false).
    { destruct (idx3_eqb (a0, a1, a2) (pz, py, px)) eqn:E; [|reflexivity].
      apply idx3_eqb_eq in E. injection E as E0 _ _. lia. }
    rewrite E. simpl.
    replace ((pz <? 0) || (py <? 0) || (px <? 0)) with false
      by (symmetry; rewrite !orb_false_iff, !Z.ltb_ge; lia).
    simpl. unfold assign_prefix3; simpl.
    assert (B : bcast_ok (slice_len pz 0 a0) a0 = false).
    { unfold bcast_ok, slice_len. rewrite !slice_pos_nonneg by lia.
      rewrite orb_false_iff, !Z.eqb_neq. lia. }
    rewrite B. reflexivity.
  - destruct v as [nc [[s0 s1] s2] d]. simpl in *.
    destruct Hwf as (Hnc & (Hs0 & Hs1 & Hs2) & _). simpl in Hnc.
    destruct Hneg as [Hn1 Hn2].
    unfold extract_patch, slice4; simpl.
    assert (Ea : slice_len s0 (Z.max 0 (z - pz / 2)) (Z.min s0 (z + pz / 2))
                 = s0 + (z + pz / 2)).
    { unfold slice_len, slice_pos.
      destruct (Z.ltb_spec (Z.min s0 (z + pz / 2)) 0); [|lia].
      destruct (Z.ltb_spec (Z.max 0 (z - pz / 2)) 0); lia. }
    rewrite Ea.
    set (a0 := s0 + (z + pz / 2)) in *.
    set (a1 := slice_len s1 _ _). set (a2 := slice_len s2 _ _).
    assert (E : idx3_eqb (a0, a1, a2) (pz, py, px) = false).
    { destruct (idx3_eqb (a0, a1, a2) (pz, py, px)) eqn:E; [|reflexivity].
      apply idx3_eqb_eq in E. injection E as E0 _ _. lia. }
    rewrite E. simpl.
    replace ((nc <? 0) || (pz <? 0) || (py <? 0) || (px <? 0)) with false
      by (symmetry; rewrite !orb_false_iff, !Z.ltb_ge; lia).
    simpl. unfold assign_prefix4; simpl.
    assert (B : bcast_ok (slice_len pz 0 a0) a0 = false).
    { unfold bcast_ok, slice_len. rewrite !slice_pos_nonneg by lia.
      rewrite orb_false_iff, !Z.eqb_neq. lia. }
    rewrite B, andb_false_r. reflexivity.
Qed.

(** X8: with an even patch size, every center returned by
    [find_colocalization_hotspots] gives, on any volume with the spatial
    shape of the mask, a patch that is an exact block of that volume:
    the patches of the run are never padded. *)
Theorem patches_at_hotspots_need_no_padding (m : ndarray bool) (vol : volume A)
  count ps :
  wf_array m -> 0 < size3 (shape m) -> size_at_least_2 ps -> even_size ps ->
  wf_volume vol -> spatial_shape vol = shape m ->
  exists centers,
    find_colocalization_hotspots m count ps = Ok centers /\
    Forall (fun center =>
      exists patch,
        extract_patch zero vol center ps = Ok patch /\
        spatial_shape patch = ps /\
        forall c p, 0 <= c < channels vol -> in_bounds ps p ->
          voxel zero patch c p =
          voxel zero vol c (idx3_add (idx3_sub center (half ps)) p)) centers.
Proof.
  intros Hwf Hsz Hps Hev Hwv Hsh.
  destruct (density_map_spec m ps Hwf Hps) as (kernel & d & Ek & Ed & Hwd & Hsd & _).
  destruct (hotspot_loop_valid (shape m) ps (Z.to_nat count) d [] Hwd Hsd Hsz)
    as (d' & later & El & _ & _ & _ & F).
  exists later. unfold find_colocalization_hotspots.
  rewrite Ek. cbn [rbind]. rewrite Ed. cbn [rbind]. rewrite El.
  split; [reflexivity|].
  eapply List.Forall_impl; [|exact F]. intros center [_ Hfar].
  rewrite <- Hsh in Hfar.
  destruct (extract_patch_far_from_edges vol center ps Hwv
              (size_at_least_2_positive ps Hps) Hev Hfar)
    as (patch & E & _ & S & _ & V).
  exists patch; auto.
Qed.

End PatchFactsFurther.

(** ** Stacked channels and the extraction run *)

Lemma array_ext {A} (zero : A) (a b : ndarray A) :
  wf_array a -> wf_array b -> shape a = shape b ->
  (forall p, in_bounds (shape a) p -> get3 zero a p = get3 zero b p) ->
  a = b.
Proof.
  intros Wa Wb Hsh Hget.
  pose proof Wa as [Hsa Hla]. pose proof Wb as [Hsb Hlb].
  assert (Hd : data a = data b).
  { apply (nth_ext _ _ zero zero); [rewrite Hsh in Hla; lia|].
    intros n Hn.
    assert (Hi : 0 <= Z.of_nat n < size3 (shape a)) by lia.
    pose proof (nth_get3 zero a _ Wa Hi) as Ea.
    assert (Hi' : 0 <= Z.of_nat n < size3 (shape b)) by now rewrite <- Hsh.
    pose proof (nth_get3 zero b _ Wb Hi') as Eb.
    rewrite Nat2Z.id in Ea, Eb. rewrite Ea, Eb, <- Hsh.
    apply Hget. now apply unravel_in_bounds. }
  destruct a, b. simpl in *. congruence.
Qed.

Lemma np_stack2_spec (a b : ndarray Q) :
  wf_array a -> wf_array b -> shape a = shape b ->
  exists mv,
    np_stack2 a b = Ok mv /\ wf_array4 mv /\ nchan mv = 2 /\
    shape4 mv = shape a /\
    forall p, in_bounds (shape a) p ->
      get4 0%Q mv 0 p = get3 0%Q a p /\ get4 0%Q mv 1 p = get3 0%Q b p.
Proof.
  intros [Hsa Hla] [Hsb Hlb] Hsh. unfold np_stack2.
  rewrite (proj2 (idx3_eqb_eq _ _) Hsh).
  eexists; split; [reflexivity|].
  split. { repeat split; cbn; try lia; try assumption. rewrite length_app. rewrite Hsh in *. lia. }
  split; [reflexivity|]. split; [reflexivity|].
  intros p Hp. pose proof (ravel3_range _ _ Hp) as Hr.
  unfold get4, get3; cbn [shape4 data4]. split.
  - rewrite Z.mul_0_l, Z.add_0_l. apply app_nth1. lia.
  - rewrite Z.mul_1_l, app_nth2 by lia. rewrite <- Hsh. f_equal. lia.
Qed.

Lemma in_bounds_nonneg_center sh c : in_bounds sh c -> nonneg_center c.
Proof. destruct sh as [[s0 s1] s2], c as [[z y] x]; simpl. lia. Qed.

(** X9: extracting a patch from the stack of two channels and taking
    channel 0 (or 1) of it gives the patch extracted from the first (or
    second) channel alone. *)
Theorem stacked_patch_is_channelwise (a b : ndarray Q) center ps :
  wf_array a -> wf_array b -> shape a = shape b ->
  nonneg_center center -> positive_size ps ->
  exists mv patch pa pb,
    np_stack2 a b = Ok mv /\
    extract_patch 0%Q (Multi mv) center ps = Ok (Multi patch) /\
    extract_patch 0%Q (Single a) center ps = Ok (Single pa) /\
    extract_patch 0%Q (Single b) center ps = Ok (Single pb) /\
    take_channel 0%Q patch 0 = pa /\ take_channel 0%Q patch 1 = pb.
Proof.
  intros Wa Wb Hsh Hc Hps.
  destruct (np_stack2_spec a b Wa Wb Hsh) as (mv & Em & Wm & Nm & Sm & Gm).
  destruct (extract_patch_spec_nonneg 0%Q (Multi mv) center ps Wm Hc Hps)
    as ([? | patch] & E & W & S & R & V); [destruct R|].
  destruct (extract_patch_spec_nonneg 0%Q (Single a) center ps Wa Hc Hps)
    as ([pa | ?] & Ea & Wpa & Spa & Ra & Va); [|destruct Ra].
  destruct (extract_patch_spec_nonneg 0%Q (Single b) center ps Wb Hc Hps)
    as ([pb | ?] & Eb & Wpb & Spb & Rb & Vb); [|destruct Rb].
  exists mv, patch, pa, pb.
  split; [exact Em|]. split; [exact E|]. split; [exact Ea|]. split; [exact Eb|].
  cbn [spatial_shape same_rank channels wf_volume voxel] in *.
  assert (Hps' : nonneg_shape ps).
  { destruct ps as [[pz py] px]. simpl in *. lia. }
  pose proof (actual_size_facts _ center ps (proj1 Wa) Hc Hps) as F.
  assert (Hblock : forall p, in_bounds ps p ->
            idx3_ltb p (actual_size (shape a) center ps) = true ->
            in_bounds (shape a) (idx3_add (slice_start (shape a) center ps) p)).
  { intros p Hp Hlt.
    destruct (shape a) as [[s0 s1] s2], center as [[z y] x], ps as [[pz py] px].
    destruct (actual_size (s0, s1, s2) (z, y, x) (pz, py, px)) as [[a0 a1] a2].
    destruct (slice_start (s0, s1, s2) (z, y, x) (pz, py, px)) as [[b0 b1] b2].
    destruct F as (_ & _ & _ & B & _). destruct p as [[i j] k].
    simpl in Hp, Hlt. rewrite !andb_true_iff, !Z.ltb_lt in Hlt.
    apply B; lia. }
  split.
  - apply (array_ext 0%Q); [apply wf_tab3; rewrite S; exact Hps' | exact Wpa | |].
    + cbn [take_channel shape]. congruence.
    + cbn [take_channel shape]. intros p Hp.
      unfold take_channel. rewrite get3_tab3 by exact Hp. rewrite S in Hp.
      rewrite (V 0 p ltac:(lia) Hp), (Va 0 p ltac:(lia) Hp), Sm.
      destruct (idx3_ltb p (actual_size (shape a) center ps)) eqn:El;
        [|reflexivity].
      apply Gm. now apply Hblock.
  - apply (array_ext 0%Q); [apply wf_tab3; rewrite S; exact Hps' | exact Wpb | |].
    + cbn [take_channel shape]. congruence.
    + cbn [take_channel shape]. intros p Hp.
      unfold take_channel. rewrite get3_tab3 by exact Hp. rewrite S in Hp.
      rewrite (V 1 p ltac:(lia) Hp), (Vb 0 p ltac:(lia) Hp), Sm, <- Hsh.
      destruct (idx3_ltb p (actual_size (shape a) center ps)) eqn:El;
        [|reflexivity].
      apply Gm. now apply Hblock.
Qed.

Lemma count_true_le_length (m : ndarray bool) :
  0 <= count_true m <= Z.of_nat (length (data m)).
Proof.
  unfold count_true. split; [lia|]. apply inj_le, length_filter.
Qed.

(** X10: the co-localization density of a non-empty mask array lies in
    [0, 100], and it is 0 exactly when no voxel of the array is true. *)
Theorem coloc_density_is_a_percentage (coloc_patch : ndarray bool) :
  data coloc_patch <> [] ->
  (0 <= coloc_density coloc_patch)%Q /\ (coloc_density coloc_patch <= 100)%Q /\
  ((coloc_density coloc_patch == 0)%Q <-> all_false coloc_patch).
Proof.
  intros Hne. pose proof (count_true_le_length coloc_patch) as [H0 H1].
  pose proof (length_pos_of_nonempty _ Hne) as Hn.
  unfold coloc_density.
  set (k := count_true coloc_patch) in *.
  set (n := Z.of_nat (length (data coloc_patch))) in *.
  assert (Hn' : (0 < inject_Z n)%Q).
  { change 0%Q with (inject_Z 0). rewrite <- Zlt_Qlt. lia. }
  assert (Hk0 : (0 <= inject_Z (100 * k))%Q).
  { change 0%Q with (inject_Z 0). rewrite <- Zle_Qle. lia. }
  assert (Hk1 : (inject_Z (100 * k) <= 100 * inject_Z n)%Q).
  { change 100%Q with (inject_Z 100). rewrite <- inject_Z_mult, <- Zle_Qle. lia. }
  split; [apply Qle_shift_div_l; [exact Hn' | lra]|].
  split; [apply Qle_shift_div_r; [exact Hn' | lra]|].
  unfold all_false. rewrite <- count_zero_all_false. fold (count_true coloc_patch).
  split.
  - intros E.
    assert (Hnz : ~ (inject_Z n == 0)%Q).
    { intros H. rewrite H in Hn'. exact (Qlt_irrefl _ Hn'). }
    pose proof (Qmult_div_r (inject_Z (100 * k)) (inject_Z n) Hnz) as M.
    rewrite E, Qmult_0_r in M.
    unfold Qeq in M. cbn [Qnum Qden inject_Z] in M.
    unfold k, count_true in M. lia.
  - intros E. unfold k, count_true. rewrite E. reflexivity.
Qed.

(** ** Normalizer and Scorer: ranges, the mask, edge inputs *)

(** the normalized channel in exact arithmetic, with the strict upper
    bound *)
Lemma normalize_values (ch : ndarray Q) :
  data ch <> [] ->
  exists n,
    normalize ch = Ok n /\ shape n = shape ch /\
    length (data n) = length (data ch) /\
    Forall (fun v => (0 <= v)%Q /\ (v < 1)%Q) (data n) /\
    Exists (fun v => (v == 0)%Q) (data n).
Proof.
  intros Hne.
  destruct (np_min_spec _ Hne) as (mn & Emn & Imn & Hmn).
  destruct (np_max_spec _ Hne) as (mx & Emx & Imx & Hmx).
  unfold normalize. rewrite Emn, Emx. cbn [rbind].
  eexists; split; [reflexivity|]. cbn [shape data].
  split; [reflexivity|]. split; [apply length_map|].
  pose proof eps_pos as He.
  assert (Hd : (0 < mx - mn + eps)%Q).
  { pose proof (proj1 (List.Forall_forall _ _) Hmx mn Imn) as U.
    cbv beta in U. lra. }
  split.
  - apply Forall_map_all_in. intros v Hv.
    pose proof (proj1 (List.Forall_forall _ _) Hmn v Hv) as L.
    pose proof (proj1 (List.Forall_forall _ _) Hmx v Hv) as U.
    cbv beta in L, U. split.
    + apply Qle_shift_div_l; [exact Hd | lra].
    + apply Qlt_shift_div_r; [exact Hd | lra].
  - apply List.Exists_exists.
    exists ((mn - mn) / (mx - mn + eps))%Q. split.
    + apply (in_map (fun v => ((v - mn) / (mx - mn + eps))%Q)). exact Imn.
    + apply Qdiv_zero_num. lra.
Qed.

Lemma andb_list_comm l1 l2 : andb_list l1 l2 = andb_list l2 l1.
Proof.
  revert l2. induction l1 as [|a l1 IH]; intros [|b l2]; simpl; try reflexivity.
  now rewrite IH, andb_comm.
Qed.

(** the mask returned by the scorer on channels of one shape *)
Lemma score_mask_spec (ch1 ch2 : ndarray Q) (q : Q) :
  wf_array ch1 -> wf_array ch2 -> shape ch1 = shape ch2 ->
  0 < size3 (shape ch1) -> (0 <= q)%Q -> (q <= 100)%Q ->
  exists coeff m1 m2,
    channel_mask ch1 q = Ok m1 /\ channel_mask ch2 q = Ok m2 /\
    wf_array m1 /\ wf_array m2 /\
    shape m1 = shape ch1 /\ shape m2 = shape ch1 /\
    calculate_colocalization_score ch1 ch2 q =
      Ok (coeff, mk_ndarray (shape ch1) (andb_list (data m1) (data m2))) /\
    wf_array (mk_ndarray (shape ch1) (andb_list (data m1) (data m2))).
Proof.
  intros Hw1 Hw2 Hsh Hsz H0 H1.
  destruct (score_spec ch1 ch2 q Hw1 Hw2 Hsh Hsz H0 H1)
    as (n1 & n2 & t1 & t2 & En1 & En2 & L1 & L2 & _ & _ & _ & _ & Hm1 & Hm2 & Es).
  cbv zeta in Hm1, Hm2, Es.
  destruct (normalize_values ch1 (nonempty_of_size ch1 Hw1 Hsz)) as (n1' & En1' & S1 & _).
  assert (Hsz2 : 0 < size3 (shape ch2)) by now rewrite <- Hsh.
  destruct (normalize_values ch2 (nonempty_of_size ch2 Hw2 Hsz2)) as (n2' & En2' & S2 & _).
  rewrite En1 in En1'. injection En1' as <-.
  rewrite En2 in En2'. injection En2' as <-.
  eexists; exists (greater n1 t1), (greater n2 t2).
  split; [exact Hm1|]. split; [exact Hm2|].
  assert (W1 : wf_array (greater n1 t1)).
  { destruct Hw1 as [Hs Hl]. split; [cbn [greater shape]; now rewrite S1|].
    cbn [greater shape data]. rewrite length_map, L1, S1. exact Hl. }
  assert (W2 : wf_array (greater n2 t2)).
  { destruct Hw2 as [Hs Hl]. split; [cbn [greater shape]; now rewrite S2|].
    cbn [greater shape data]. rewrite length_map, L2, S2. exact Hl. }
  split; [exact W1|]. split; [exact W2|].
  split; [exact S1|]. split; [cbn [greater shape]; congruence|].
  split; [exact Es|].
  destruct Hw1 as [Hs Hl]. split; [exact Hs|]. cbn [shape data].
  rewrite length_andb_list.
  - cbn [greater data]. rewrite length_map, L1. exact Hl.
  - destruct W1 as [_ E1], W2 as [_ E2].
    cbn [greater shape] in E1, E2. rewrite S1 in E1. rewrite S2, <- Hsh in E2. lia.
Qed.

(** X12: on two channels of one shape the returned mask has that shape
    and is true at a voxel exactly when both channel masks are true
    there. *)
Theorem coloc_mask_is_conjunction (ch1 ch2 : ndarray Q) (q : Q) :
  wf_array ch1 -> wf_array ch2 -> shape ch1 = shape ch2 ->
  0 < size3 (shape ch1) -> (0 <= q)%Q -> (q <= 100)%Q ->
  exists coeff coloc m1 m2,
    calculate_colocalization_score ch1 ch2 q = Ok (coeff, coloc) /\
    channel_mask ch1 q = Ok m1 /\ channel_mask ch2 q = Ok m2 /\
    wf_array coloc /\ shape coloc = shape ch1 /\
    forall p, in_bounds (shape ch1) p ->
      get3 false coloc p = get3 false m1 p && get3 false m2 p.
Proof.
  intros Hw1 Hw2 Hsh Hsz H0 H1.
  destruct (score_mask_spec ch1 ch2 q Hw1 Hw2 Hsh Hsz H0 H1)
    as (coeff & m1 & m2 & E1 & E2 & W1 & W2 & S1 & S2 & Es & Wc).
  exists coeff, (mk_ndarray (shape ch1) (andb_list (data m1) (data m2))), m1, m2.
  split; [exact Es|]. split; [exact E1|]. split; [exact E2|].
  split; [exact Wc|]. split; [reflexivity|].
  intros p Hp. unfold get3. cbn [shape data]. rewrite S1, S2.
  apply nth_andb_list.
  destruct W1 as [_ L1], W2 as [_ L2]. rewrite S1 in L1. rewrite S2 in L2. lia.
Qed.

(** X13: swapping the two channels leaves the returned mask unchanged
    (the coefficient may differ). *)
Theorem coloc_mask_symmetric (ch1 ch2 : ndarray Q) (q : Q) :
  wf_array ch1 -> wf_array ch2 -> shape ch1 = shape ch2 ->
  0 < size3 (shape ch1) -> (0 <= q)%Q -> (q <= 100)%Q ->
  exists c12 c21 coloc,
    calculate_colocalization_score ch1 ch2 q = Ok (c12, coloc) /\
    calculate_colocalization_score ch2 ch1 q = Ok (c21, coloc).
Proof.
  intros Hw1 Hw2 Hsh Hsz H0 H1.
  assert (Hsz2 : 0 < size3 (shape ch2)) by now rewrite <- Hsh.
  destruct (score_mask_spec ch1 ch2 q Hw1 Hw2 Hsh Hsz H0 H1)
    as (c12 & m1 & m2 & E1 & E2 & _ & _ & _ & _ & Es & _).
  destruct (score_mask_spec ch2 ch1 q Hw2 Hw1 (eq_sym Hsh) Hsz2 H0 H1)
    as (c21 & m2' & m1' & E2' & E1' & _ & _ & _ & _ & Es' & _).
  rewrite E1 in E1'. injection E1' as <-.
  rewrite E2 in E2'. injection E2' as <-.
  exists c12, c21, (mk_ndarray (shape ch1) (andb_list (data m1) (data m2))).
  split; [exact Es|]. rewrite Es', <- Hsh, (andb_list_comm (data m2)). reflexivity.
Qed.

(** when mask1 has no true voxel the guard of line 47 yields 0 *)
Lemma score_of_empty_mask (ch1 ch2 : ndarray Q) (q : Q) m1 :
  wf_array ch1 -> wf_array ch2 -> shape ch1 = shape ch2 ->
  0 < size3 (shape ch1) -> (0 <= q)%Q -> (q <= 100)%Q ->
  channel_mask ch1 q = Ok m1 -> all_false m1 ->
  exists coloc,
    calculate_colocalization_score ch1 ch2 q = Ok (0%Q, coloc) /\
    wf_array coloc /\ shape coloc = shape ch1 /\ all_false coloc.
Proof.
  intros Hw1 Hw2 Hsh Hsz H0 H1 Em Hf.
  destruct (score_spec ch1 ch2 q Hw1 Hw2 Hsh Hsz H0 H1)
    as (n1 & n2 & t1 & t2 & _ & _ & _ & _ & _ & _ & _ & _ & Hm1 & _ & Es).
  cbv zeta in Hm1, Es. rewrite Em in Hm1. injection Hm1 as ->.
  destruct (score_mask_spec ch1 ch2 q Hw1 Hw2 Hsh Hsz H0 H1)
    as (coeff & m1' & m2 & E1 & _ & _ & _ & _ & _ & Es' & Wc).
  rewrite Em in E1. injection E1 as <-.
  assert (Ec : (count_true (greater n1 t1) >? 0) = false).
  { destruct (count_true (greater n1 t1) >? 0) eqn:E; [|reflexivity].
    apply count_true_pos_iff in E. contradiction. }
  rewrite Ec in Es.
  assert (Hc : coeff = 0%Q) by congruence. subst coeff.
  eexists. split; [exact Es'|].
  split; [exact Wc|]. split; [reflexivity|].
  unfold all_false; cbn [data]. now apply andb_list_all_false.
Qed.

(** X14: a first channel of constant intensity, whatever the value and
    the percentile, gives coefficient 0 and an entirely false mask, on
    which [find_colocalization_hotspots] finds no center. *)
Theorem constant_channel_scores_zero (ch1 ch2 : ndarray Q) (q : Q) n ps :
  wf_array ch1 -> wf_array ch2 -> shape ch1 = shape ch2 ->
  0 < size3 (shape ch1) -> (0 <= q)%Q -> (q <= 100)%Q ->
  constant_volume ch1 -> size_at_least_2 ps ->
  exists coloc,
    calculate_colocalization_score ch1 ch2 q = Ok (0%Q, coloc) /\
    all_false coloc /\
    find_colocalization_hotspots coloc n ps = Ok [].
Proof.
  intros Hw1 Hw2 Hsh Hsz H0 H1 [k Hk] Hps.
  destruct (score_spec ch1 ch2 q Hw1 Hw2 Hsh Hsz H0 H1)
    as (n1 & n2 & t1 & t2 & En1 & _ & _ & _ & _ & _ & _ & Ht & Hm1 & _ & _).
  cbv zeta in Hm1.
  assert (Hn1 : Forall (fun v => (v <= 0)%Q) (data n1)).
  { destruct (normalize_spec ch1 (nonempty_of_size ch1 Hw1 Hsz))
      as (mn & mx & Imn & _ & En & _).
    rewrite En in En1. injection En1 as <-. cbn [data].
    apply Forall_map_all_in. intros v Hv.
    pose proof (proj1 (List.Forall_forall _ _) Hk v Hv) as Ev.
    pose proof (proj1 (List.Forall_forall _ _) Hk mn Imn) as Em.
    cbv beta in Ev, Em.
    rewrite (Qdiv_zero_num (v - mn) (mx - mn + eps)) by lra.
    apply Qle_refl. }
  assert (Hf1 : all_false (greater n1 t1)).
  { unfold all_false, greater; cbn [data].
    apply Forall_map_all_in. intros v Hv.
    pose proof (proj1 (List.Forall_forall _ _) Hn1 v Hv) as Ev. cbv beta in Ev.
    apply Qltb_false. lra. }
  destruct (score_of_empty_mask ch1 ch2 q _ Hw1 Hw2 Hsh Hsz H0 H1 Hm1 Hf1)
    as (coloc & Es & Wc & Sc & Fc).
  exists coloc. split; [exact Es|]. split; [exact Fc|].
  apply find_hotspots_all_false; try assumption. now rewrite Sc.
Qed.

Lemma np_percentile_100 a :
  a <> [] ->
  exists t, np_percentile a 100 = Ok t /\ Forall (fun v => (v <= t)%Q) a.
Proof.
  intros Ha.
  assert (H0 : (0 <= 100)%Q) by discriminate.
  rewrite (np_percentile_ok a 100 Ha H0 (Qle_refl _)).
  eexists; split; [reflexivity|].
  pose proof (length_pos_of_nonempty a Ha) as Hn.
  pose proof (length_np_sort a) as Hl.
  set (n := Z.of_nat (length a)) in *.
  set (v := (100 / 100 * inject_Z (n - 1))%Q).
  assert (Ev : (v == inject_Z (n - 1))%Q).
  { unfold v. assert (E : (100 / 100 == 1)%Q) by reflexivity.
    rewrite E. apply Qmult_1_l. }
  assert (V0 : (0 <= v)%Q).
  { rewrite Ev. change 0%Q with (inject_Z 0). rewrite <- Zle_Qle. lia. }
  assert (V1 : (v <= inject_Z (Z.of_nat (length (np_sort a)) - 1))%Q).
  { rewrite Ev, Hl. apply Qle_refl. }
  set (d := hd 0%Q (np_sort a)).
  destruct (interpolate_bounds (np_sort a) d v (np_sort_sorted a) V0 V1) as [B _].
  cbv zeta in B.
  assert (Ef : Qfloor v = n - 1) by (rewrite Ev; apply Qfloor_Z).
  rewrite Ef in B.
  apply (proj2 (List.Forall_forall _ _)). intros x Hx.
  apply In_np_sort in Hx. destruct (In_nth _ _ d Hx) as (i & Hi & <-).
  eapply Qle_trans; [|exact B].
  apply sorted_nth_le; [apply np_sort_sorted | lia].
Qed.

(** X15: at percentile 100 the threshold is the maximum of the
    channel, so mask1 is entirely false, the coefficient is 0 and the
    returned mask is entirely false. *)
Theorem percentile_100_selects_nothing (ch1 ch2 : ndarray Q) :
  wf_array ch1 -> wf_array ch2 -> shape ch1 = shape ch2 ->
  0 < size3 (shape ch1) ->
  exists m1 coloc,
    channel_mask ch1 100 = Ok m1 /\ all_false m1 /\
    calculate_colocalization_score ch1 ch2 100 = Ok (0%Q, coloc) /\
    all_false coloc.
Proof.
  intros Hw1 Hw2 Hsh Hsz.
  assert (H0 : (0 <= 100)%Q) by discriminate.
  destruct (score_spec ch1 ch2 100 Hw1 Hw2 Hsh Hsz H0 (Qle_refl _))
    as (n1 & n2 & t1 & t2 & En1 & _ & L1 & _ & _ & Et1 & _ & _ & Hm1 & _ & _).
  cbv zeta in Hm1.
  assert (Hd1 : data n1 <> []).
  { pose proof (nonempty_of_size ch1 Hw1 Hsz) as Hne.
    intros E. rewrite E in L1. destruct (data ch1); [congruence | discriminate]. }
  destruct (np_percentile_100 (data n1) Hd1) as (t & Et & Hmax).
  rewrite Et1 in Et. injection Et as <-.
  assert (Hf1 : all_false (greater n1 t1)).
  { unfold all_false, greater; cbn [data].
    apply Forall_map_all_in. intros v Hv.
    apply Qltb_false. exact (proj1 (List.Forall_forall _ _) Hmax v Hv). }
  destruct (score_of_empty_mask ch1 ch2 100 _ Hw1 Hw2 Hsh Hsz H0 (Qle_refl _) Hm1 Hf1)
    as (coloc & Es & _ & _ & Fc).
  exists (greater n1 t1), coloc. auto.
Qed.


Lemma bcast_dim_none a b : ~ broadcastable a b -> bcast_dim a b = None.
Proof.
  unfold broadcastable, bcast_dim. intros H.
  destruct (Z.eqb_spec a b); [tauto|].
  destruct (Z.eqb_spec a 1); [tauto|].
  destruct (Z.eqb_spec b 1); [tauto | reflexivity].
Qed.

Lemma broadcastable_dec a b : broadcastable a b \/ ~ broadcastable a b.
Proof. unfold broadcastable. lia. Qed.

(** X17: on non-empty channels whose shapes cannot be broadcast (on some
    axis the extents differ and neither is 1) the scorer raises
    ValueError (from [mask1 & mask2]). *)
Theorem score_rejects_incompatible_shapes (ch1 ch2 : ndarray Q) (q : Q) :
  data ch1 <> [] -> data ch2 <> [] -> (0 <= q)%Q -> (q <= 100)%Q ->
  ~ shapes_broadcastable (shape ch1) (shape ch2) ->
  calculate_colocalization_score ch1 ch2 q = Raise ValueError.
Proof.
  intros H1 H2 Hq0 Hq1 Hsh.
  destruct (normalize_values ch1 H1) as (n1 & E1 & S1 & L1 & _).
  destruct (normalize_values ch2 H2) as (n2 & E2 & S2 & L2 & _).
  unfold calculate_colocalization_score. rewrite E1, E2. cbn [rbind].
  assert (D1 : data n1 <> []).
  { intros E. rewrite E in L1. destruct (data ch1); [congruence | discriminate]. }
  assert (D2 : data n2 <> []).
  { intros E. rewrite E in L2. destruct (data ch2); [congruence | discriminate]. }
  rewrite (np_percentile_ok _ q D1 Hq0 Hq1), (np_percentile_ok _ q D2 Hq0 Hq1).
  cbn [rbind]. unfold logical_and. cbn [greater shape]. rewrite S1, S2.
  destruct (shape ch1) as [[a0 a1] a2], (shape ch2) as [[b0 b1] b2].
  simpl in Hsh.
  destruct (broadcastable_dec a0 b0) as [B0 | B0];
    [|rewrite (bcast_dim_none _ _ B0); reflexivity].
  destruct (broadcastable_dec a1 b1) as [B1 | B1];
    [|rewrite (bcast_dim_none _ _ B1); destruct (bcast_dim a0 b0); reflexivity].
  destruct (broadcastable_dec a2 b2) as [B2 | B2]; [tauto|].
  rewrite (bcast_dim_none _ _ B2).
  destruct (bcast_dim a0 b0), (bcast_dim a1 b1); reflexivity.
Qed.

(** every center inside the volume gives a well-shaped record *)
Lemma extract_all_spec (mv : ndarray4 Q) (mask : ndarray bool) ps centers :
  wf_array4 mv -> nchan mv = 2 -> wf_array mask -> positive_size ps ->
  Forall nonneg_center centers ->
  exists records,
    extract_all mv mask ps centers = Ok records /\
    map pr_center records = centers /\
    Forall (well_shaped_record ps) records.
Proof.
  intros Wm Nm Wk Hps. induction 1 as [|c cs Hc _ IH].
  - exists []. repeat split; constructor.
  - destruct IH as (records & E & Ec & F).
    destruct (extract_patch_spec_nonneg 0%Q (Multi mv) c ps Wm Hc Hps)
      as ([? | p] & Ep & Wp & Sp & Rp & _); [destruct Rp|].
    destruct (extract_patch_spec_nonneg false (Single mask) c ps Wk Hc Hps)
      as ([q | ?] & Eq & Wq & Sq & Rq & _); [|destruct Rq].
    cbn [extract_all]. rewrite Ep. cbn [rbind]. rewrite Eq. cbn [rbind].
    rewrite E. cbn [rbind].
    eexists; split; [reflexivity|]. split; [cbn; now rewrite Ec|].
    constructor; [|exact F].
    exists p, q. cbn in *. repeat split; try tauto; try congruence.
    all: try apply Wp; try apply Wq.
Qed.

(** X18: on two well-formed channels of one non-empty shape and a patch
    size with extents of at least 2 the run of [main] raises nothing: it
    returns the scorer's coefficient and mask and one record per center
    found, at most [count] of them, each center clear of the edges, each
    with a 2-channel patch and a mask patch of exactly the patch size. *)
Theorem extraction_run_total (ch1 ch2 : ndarray Q) (n : Z) (ps : idx3) :
  wf_array ch1 -> wf_array ch2 -> shape ch1 = shape ch2 ->
  0 < size3 (shape ch1) -> size_at_least_2 ps ->
  exists coeff coloc records,
    extraction_run ch1 ch2 n ps = Ok (coeff, coloc, records) /\
    calculate_colocalization_score ch1 ch2 50 = Ok (coeff, coloc) /\
    find_colocalization_hotspots coloc n ps = Ok (map pr_center records) /\
    Z.of_nat (length records) <= Z.max 0 n /\
    Forall (fun r => far_from_edges (shape ch1) ps (pr_center r) /\
                     well_shaped_record ps r) records.
Proof.
  intros Hw1 Hw2 Hsh Hsz Hps.
  assert (H0 : (0 <= 50)%Q) by discriminate.
  assert (H1 : (50 <= 100)%Q) by discriminate.
  destruct (score_mask_spec ch1 ch2 50 Hw1 Hw2 Hsh Hsz H0 H1)
    as (coeff & m1 & m2 & _ & _ & _ & _ & _ & _ & Es & Wc).
  set (coloc := mk_ndarray (shape ch1) (andb_list (data m1) (data m2))) in *.
  assert (Hszc : 0 < size3 (shape coloc)) by exact Hsz.
  destruct (density_map_spec coloc ps Wc Hps) as (kernel & d & Ek & Ed & Hwd & Hsd & _).
  destruct (hotspot_loop_valid (shape coloc) ps (Z.to_nat n) d [] Hwd Hsd Hszc)
    as (d' & centers & El & _ & _ & L & F).
  assert (Eh : find_colocalization_hotspots coloc n ps = Ok centers).
  { unfold find_colocalization_hotspots.
    rewrite Ek. cbn [rbind]. rewrite Ed. cbn [rbind]. now rewrite El. }
  destruct (np_stack2_spec ch1 ch2 Hw1 Hw2 Hsh) as (mv & Em & Wm & Nm & _).
  assert (Fc : Forall nonneg_center centers).
  { eapply List.Forall_impl; [|exact F]. intros c [Hc _].
    exact (in_bounds_nonneg_center _ _ Hc). }
  destruct (extract_all_spec mv coloc ps centers Wm Nm Wc
              (size_at_least_2_positive ps Hps) Fc) as (records & Er & Ec & Fr).
  exists coeff, coloc, records.
  split.
  { unfold extraction_run. rewrite Es. cbn [rbind]. rewrite Eh. cbn [rbind].
    rewrite Em. cbn [rbind]. rewrite Er. reflexivity. }
  split; [exact Es|]. split; [now rewrite Ec|].
  split; [rewrite <- (length_map pr_center), Ec; lia|].
  rewrite <- Ec in F. clear - F Fr.
  induction Fr as [|r rs Hr _ IH]; [constructor|].
  inversion F as [|? ? [_ Hf] Ft]; subst.
  constructor; [split; assumption | now apply IH].
Qed.

(** ** The further properties at concrete inputs *)

Lemma wf_two_voxels : wf_array two_voxels.
Proof. split; [simpl; lia | reflexivity]. Qed.

Lemma wf_two_peaks : wf_array two_peaks.
Proof. exact (proj1 two_peaks_ok). Qed.

Lemma wf_flat_cube : wf_array flat_cube.
Proof. split; [simpl; lia | reflexivity]. Qed.

Lemma hotspots_keep_clear_of_edges_witness :
  wf_array two_voxels /\ 0 < size3 (shape two_voxels) /\
  size_at_least_2 (2, 2, 2) /\
  exists centers,
    find_colocalization_hotspots two_voxels 2 (2, 2, 2) = Ok centers /\
    Z.of_nat (length centers) <= Z.max 0 2 /\
    Forall (fun c => in_bounds (shape two_voxels) c /\
                     far_from_edges (shape two_voxels) (2, 2, 2) c) centers.
Proof.
  assert (H1 := wf_two_voxels).
  assert (H2 : 0 < size3 (shape two_voxels)) by reflexivity.
  assert (H3 : size_at_least_2 (2, 2, 2)) by (simpl; lia).
  split; [exact H1|]. split; [exact H2|]. split; [exact H3|].
  exact (hotspots_keep_clear_of_edges two_voxels 2 (2, 2, 2) H1 H2 H3).
Defined.

Lemma candidate_is_first_maximum_witness :
  wf_array two_peaks /\ 0 < size3 (shape two_peaks) /\
  exists c, candidate two_peaks = Ok c /\ in_bounds (shape two_peaks) c /\
    forall p, in_bounds (shape two_peaks) p ->
      (get3 0%Q two_peaks p <= get3 0%Q two_peaks c)%Q /\
      (ravel3 (shape two_peaks) p < ravel3 (shape two_peaks) c ->
       (get3 0%Q two_peaks p < get3 0%Q two_peaks c)%Q).
Proof.
  assert (H1 := wf_two_peaks).
  assert (H2 : 0 < size3 (shape two_peaks)) by reflexivity.
  split; [exact H1|]. split; [exact H2|].
  exact (candidate_is_first_maximum two_peaks H1 H2).
Defined.

Lemma successive_candidates_decrease_witness :
  wf_array two_peaks /\ 0 < size3 (shape two_peaks) /\
  nonneg_density two_peaks /\ positive_size (2, 2, 2) /\
  exists c c',
    candidate two_peaks = Ok c /\
    candidate (suppress (shape two_peaks) (2, 2, 2) two_peaks c) = Ok c' /\
    (0 <= get3 0%Q (suppress (shape two_peaks) (2, 2, 2)%Z two_peaks c) c')%Q /\
    (get3 0%Q (suppress (shape two_peaks) (2, 2, 2)%Z two_peaks c) c'
     <= get3 0%Q two_peaks c)%Q.
Proof.
  destruct two_peaks_ok as (H1 & H2 & H3).
  assert (H4 : positive_size (2, 2, 2)) by (simpl; lia).
  split; [exact H1|]. split; [exact H2|]. split; [exact H3|]. split; [exact H4|].
  exact (successive_candidates_decrease two_peaks (2, 2, 2) H1 H2 H3 H4).
Defined.

Lemma density_map_counts_neighbours_witness :
  wf_array two_voxels /\ size_at_least_2 (4, 4, 4) /\
  exists kernel d,
    np_ones (half (4, 4, 4)) = Ok kernel /\
    ndimage_convolve (astype_float two_voxels) kernel = Ok d /\
    wf_array d /\ shape d = shape two_voxels /\
    (forall p, in_bounds (shape two_voxels) p ->
       (0 <= get3 0%Q d p)%Q /\
       (get3 0%Q d p <= inject_Z (size3 (half (4, 4, 4)%Z)))%Q) /\
    (all_false two_voxels -> all_zero_density d).
Proof.
  assert (H1 := wf_two_voxels).
  assert (H2 : size_at_least_2 (4, 4, 4)) by (simpl; lia).
  split; [exact H1|]. split; [exact H2|].
  exact (density_map_counts_neighbours two_voxels (4, 4, 4) H1 H2).
Defined.

Lemma extract_patch_any_nonneg_center_witness :
  wf_volume (Single cube8) /\ nonneg_center (5, 0, 0) /\
  positive_size (2, 2, 2) /\
  exists patch,
    extract_patch 0%Q (Single cube8) (5, 0, 0) (2, 2, 2) = Ok patch /\
    wf_volume patch /\ spatial_shape patch = (2, 2, 2) /\
    same_rank (Single cube8) patch /\
    (beyond_far_face (spatial_shape (Single cube8)) (2, 2, 2) (5, 0, 0) ->
     forall c p, 0 <= c < channels (Single cube8) -> in_bounds (2, 2, 2) p ->
       voxel 0%Q patch c p = 0%Q).
Proof.
  assert (H1 := wf_cube8).
  assert (H2 : nonneg_center (5, 0, 0)) by (simpl; lia).
  assert (H3 : positive_size (2, 2, 2)) by (simpl; lia).
  split; [exact H1|]. split; [exact H2|]. split; [exact H3|].
  exact (extract_patch_any_nonneg_center 0%Q (Single cube8) (5, 0, 0) (2, 2, 2)
           H1 H2 H3).
Defined.

Lemma extract_patch_interior_block_witness :
  wf_volume (Single two_peaks) /\ positive_size (2, 2, 2) /\
  even_size (2, 2, 2) /\
  far_from_edges (spatial_shape (Single two_peaks)) (2, 2, 2) (2, 1, 1) /\
  exists patch,
    extract_patch 0%Q (Single two_peaks) (2, 1, 1) (2, 2, 2) = Ok patch /\
    spatial_shape patch = (2, 2, 2) /\
    forall c p, 0 <= c < channels (Single two_peaks) -> in_bounds (2, 2, 2) p ->
      voxel 0%Q patch c p =
      voxel 0%Q (Single two_peaks) c
        (idx3_add (idx3_sub (2, 1, 1) (half (2, 2, 2))) p).
Proof.
  assert (H1 : wf_volume (Single two_peaks)) by exact wf_two_peaks.
  assert (H2 : positive_size (2, 2, 2)) by (simpl; lia).
  assert (H3 : even_size (2, 2, 2)) by (simpl; auto).
  assert (H4 : far_from_edges (spatial_shape (Single two_peaks)) (2, 2, 2) (2, 1, 1))
    by (vm_compute; repeat split; congruence).
  split; [exact H1|]. split; [exact H2|]. split; [exact H3|]. split; [exact H4|].
  exact (extract_patch_interior_block 0%Q (Single two_peaks) (2, 1, 1) (2, 2, 2)
           H1 H2 H3 H4).
Defined.

(** a 3 x 2 x 2 volume, center z = -1, patch extent 1: the slice [0:-1]
    has two planes, one more than the patch *)
Lemma extract_patch_negative_center_raises_witness :
  wf_volume (Single two_peaks) /\ positive_size (1, 1, 1) /\
  (-1 + 1 / 2 < 0 /\ 1 < 3 + (-1 + 1 / 2)) /\
  extract_patch 0%Q (Single two_peaks) (-1, 0, 0) (1, 1, 1) = Raise ValueError.
Proof.
  assert (H1 : wf_volume (Single two_peaks)) by exact wf_two_peaks.
  assert (H2 : positive_size (1, 1, 1)) by (simpl; lia).
  assert (H3 : -1 + 1 / 2 < 0 /\ 1 < 3 + (-1 + 1 / 2))
    by (split; reflexivity).
  split; [exact H1|]. split; [exact H2|]. split; [exact H3|].
  exact (extract_patch_negative_center_raises 0%Q (Single two_peaks) (-1, 0, 0)
           (1, 1, 1) H1 H2 H3).
Defined.

Lemma patches_at_hotspots_need_no_padding_witness :
  wf_array two_voxels /\ 0 < size3 (shape two_voxels) /\
  size_at_least_2 (2, 2, 2) /\ even_size (2, 2, 2) /\
  wf_volume (Single two_peaks) /\
  spatial_shape (Single two_peaks) = shape two_voxels /\
  exists centers,
    find_colocalization_hotspots two_voxels 2 (2, 2, 2) = Ok centers /\
    Forall (fun center =>
      exists patch,
        extract_patch 0%Q (Single two_peaks) center (2, 2, 2) = Ok patch /\
        spatial_shape patch = (2, 2, 2) /\
        forall c p, 0 <= c < channels (Single two_peaks) ->
          in_bounds (2, 2, 2) p ->
          voxel 0%Q patch c p =
          voxel 0%Q (Single two_peaks) c
            (idx3_add (idx3_sub center (half (2, 2, 2))) p)) centers.
Proof.
  assert (H1 := wf_two_voxels).
  assert (H2 : 0 < size3 (shape two_voxels)) by reflexivity.
  assert (H3 : size_at_least_2 (2, 2, 2)) by (simpl; lia).
  assert (H4 : even_size (2, 2, 2)) by (simpl; auto).
  assert (H5 : wf_volume (Single two_peaks)) by exact wf_two_peaks.
  assert (H6 : spatial_shape (Single two_peaks) = shape two_voxels) by reflexivity.
  split; [exact H1|]. split; [exact H2|]. split; [exact H3|]. split; [exact H4|].
  split; [exact H5|]. split; [exact H6|].
  exact (patches_at_hotspots_need_no_padding 0%Q two_voxels (Single two_peaks)
           2 (2, 2, 2) H1 H2 H3 H4 H5 H6).
Defined.

Lemma stacked_patch_is_channelwise_witness :
  wf_array cube8 /\ wf_array two_cube8 /\ shape cube8 = shape two_cube8 /\
  nonneg_center (0, 1, 2) /\ positive_size (3, 2, 2) /\
  exists mv patch pa pb,
    np_stack2 cube8 two_cube8 = Ok mv /\
    extract_patch 0%Q (Multi mv) (0, 1, 2) (3, 2, 2) = Ok (Multi patch) /\
    extract_patch 0%Q (Single cube8) (0, 1, 2) (3, 2, 2) = Ok (Single pa) /\
    extract_patch 0%Q (Single two_cube8) (0, 1, 2) (3, 2, 2) = Ok (Single pb) /\
    take_channel 0%Q patch 0 = pa /\ take_channel 0%Q patch 1 = pb.
Proof.
  assert (H1 : wf_array cube8) by exact wf_cube8.
  assert (H2 : wf_array two_cube8) by (split; [simpl; lia | reflexivity]).
  assert (H3 : shape cube8 = shape two_cube8) by reflexivity.
  assert (H4 : nonneg_center (0, 1, 2)) by (simpl; lia).
  assert (H5 : positive_size (3, 2, 2)) by (simpl; lia).
  split; [exact H1|]. split; [exact H2|]. split; [exact H3|]. split; [exact H4|].
  split; [exact H5|].
  exact (stacked_patch_is_channelwise cube8 two_cube8 (0, 1, 2) (3, 2, 2)
           H1 H2 H3 H4 H5).
Defined.

Lemma coloc_density_is_a_percentage_witness :
  data two_voxels <> [] /\
  (0 <= coloc_density two_voxels)%Q /\ (coloc_density two_voxels <= 100)%Q /\
  ((coloc_density two_voxels == 0)%Q <-> all_false two_voxels).
Proof.
  assert (H1 : data two_voxels <> []) by discriminate.
  split; [exact H1|].
  exact (coloc_density_is_a_percentage two_voxels H1).
Defined.

Lemma score_hypotheses_cube8 :
  wf_array cube8 /\ wf_array two_cube8 /\ shape cube8 = shape two_cube8 /\
  0 < size3 (shape cube8) /\ (0 <= 50)%Q /\ (50 <= 100)%Q.
Proof.
  split; [exact wf_cube8|]. split; [split; [simpl; lia | reflexivity]|].
  split; [reflexivity|]. split; [reflexivity|]. split; discriminate.
Qed.

Lemma coloc_mask_is_conjunction_witness :
  wf_array cube8 /\ wf_array two_cube8 /\ shape cube8 = shape two_cube8 /\
  0 < size3 (shape cube8) /\ (0 <= 50)%Q /\ (50 <= 100)%Q /\
  exists coeff coloc m1 m2,
    calculate_colocalization_score cube8 two_cube8 50 = Ok (coeff, coloc) /\
    channel_mask cube8 50 = Ok m1 /\ channel_mask two_cube8 50 = Ok m2 /\
    wf_array coloc /\ shape coloc = shape cube8 /\
    forall p, in_bounds (shape cube8) p ->
      get3 false coloc p = get3 false m1 p && get3 false m2 p.
Proof.
  destruct score_hypotheses_cube8 as (H1 & H2 & H3 & H4 & H5 & H6).
  split; [exact H1|]. split; [exact H2|]. split; [exact H3|]. split; [exact H4|].
  split; [exact H5|]. split; [exact H6|].
  exact (coloc_mask_is_conjunction cube8 two_cube8 50 H1 H2 H3 H4 H5 H6).
Defined.

Lemma coloc_mask_symmetric_witness :
  wf_array cube8 /\ wf_array two_cube8 /\ shape cube8 = shape two_cube8 /\
  0 < size3 (shape cube8) /\ (0 <= 50)%Q /\ (50 <= 100)%Q /\
  exists c12 c21 coloc,
    calculate_colocalization_score cube8 two_cube8 50 = Ok (c12, coloc) /\
    calculate_colocalization_score two_cube8 cube8 50 = Ok (c21, coloc).
Proof.
  destruct score_hypotheses_cube8 as (H1 & H2 & H3 & H4 & H5 & H6).
  split; [exact H1|]. split; [exact H2|]. split; [exact H3|]. split; [exact H4|].
  split; [exact H5|]. split; [exact H6|].
  exact (coloc_mask_symmetric cube8 two_cube8 50 H1 H2 H3 H4 H5 H6).
Defined.

Lemma constant_channel_scores_zero_witness :
  wf_array flat_cube /\ wf_array cube8 /\ shape flat_cube = shape cube8 /\
  0 < size3 (shape flat_cube) /\ (0 <= 25)%Q /\ (25 <= 100)%Q /\
  constant_volume flat_cube /\ size_at_least_2 (64, 64, 64) /\
  exists coloc,
    calculate_colocalization_score flat_cube cube8 25 = Ok (0%Q, coloc) /\
    all_false coloc /\
    find_colocalization_hotspots coloc 3 (64, 64, 64) = Ok [].
Proof.
  assert (H1 := wf_flat_cube). assert (H2 : wf_array cube8) by exact wf_cube8.
  assert (H3 : shape flat_cube = shape cube8) by reflexivity.
  assert (H4 : 0 < size3 (shape flat_cube)) by reflexivity.
  assert (H5 : (0 <= 25)%Q) by discriminate.
  assert (H6 : (25 <= 100)%Q) by discriminate.
  assert (H7 : constant_volume flat_cube).
  { exists 7%Q. simpl. repeat (constructor; [reflexivity|]). constructor. }
  assert (H8 : size_at_least_2 (64, 64, 64)) by (simpl; lia).
  split; [exact H1|]. split; [exact H2|]. split; [exact H3|]. split; [exact H4|].
  split; [exact H5|]. split; [exact H6|]. split; [exact H7|]. split; [exact H8|].
  exact (constant_channel_scores_zero flat_cube cube8 25 3 (64, 64, 64)
           H1 H2 H3 H4 H5 H6 H7 H8).
Defined.

Lemma percentile_100_selects_nothing_witness :
  wf_array cube8 /\ wf_array two_cube8 /\ shape cube8 = shape two_cube8 /\
  0 < size3 (shape cube8) /\
  exists m1 coloc,
    channel_mask cube8 100 = Ok m1 /\ all_false m1 /\
    calculate_colocalization_score cube8 two_cube8 100 = Ok (0%Q, coloc) /\
    all_false coloc.
Proof.
  destruct score_hypotheses_cube8 as (H1 & H2 & H3 & H4 & _).
  split; [exact H1|]. split; [exact H2|]. split; [exact H3|]. split; [exact H4|].
  exact (percentile_100_selects_nothing cube8 two_cube8 H1 H2 H3 H4).
Defined.


Lemma score_rejects_incompatible_shapes_witness :
  data cube8 <> [] /\ data two_peaks <> [] /\ (0 <= 50)%Q /\ (50 <= 100)%Q /\
  ~ shapes_broadcastable (shape cube8) (shape two_peaks) /\
  calculate_colocalization_score cube8 two_peaks 50 = Raise ValueError.
Proof.
  assert (H1 : data cube8 <> []) by discriminate.
  assert (H2 : data two_peaks <> []) by discriminate.
  assert (H3 : (0 <= 50)%Q) by discriminate.
  assert (H4 : (50 <= 100)%Q) by discriminate.
  assert (H5 : ~ shapes_broadcastable (shape cube8) (shape two_peaks)).
  { simpl. unfold broadcastable. lia. }
  split; [exact H1|]. split; [exact H2|]. split; [exact H3|]. split; [exact H4|].
  split; [exact H5|].
  exact (score_rejects_incompatible_shapes cube8 two_peaks 50 H1 H2 H3 H4 H5).
Defined.

(** On the two example channels the mask is the plane z = 1.  Its first
    three candidates lie on the edge and are rejected, each using up
    one pass of the loop: a count of 3 gives no patch, a count of 4 gives
    the patch around (1, 1, 1). *)
Example extraction_run_count_3 :
  exists coeff coloc,
    extraction_run cube8 two_cube8 3 (2, 2, 2) = Ok (coeff, coloc, []) /\
    (coeff == 1)%Q.
Proof. eexists; eexists. split; [vm_compute; reflexivity | reflexivity]. Qed.

Example extraction_run_count_4 :
  exists coeff coloc r,
    extraction_run cube8 two_cube8 4 (2, 2, 2) = Ok (coeff, coloc, [r]) /\
    pr_center r = (1, 1, 1) /\ (coeff == 1)%Q.
Proof.
  eexists; eexists; eexists. split; [vm_compute; reflexivity|].
  split; reflexivity.
Qed.

(** the run with a count of 4: one record, the patch around (1, 1, 1) *)
Lemma extraction_run_total_witness :
  wf_array cube8 /\ wf_array two_cube8 /\ shape cube8 = shape two_cube8 /\
  0 < size3 (shape cube8) /\ size_at_least_2 (2, 2, 2) /\
  exists coeff coloc records,
    (extraction_run cube8 two_cube8 4 (2, 2, 2) = Ok (coeff, coloc, records) /\
     calculate_colocalization_score cube8 two_cube8 50 = Ok (coeff, coloc) /\
     find_colocalization_hotspots coloc 4 (2, 2, 2) = Ok (map pr_center records) /\
     Z.of_nat (length records) <= Z.max 0 4 /\
     Forall (fun r => far_from_edges (shape cube8) (2, 2, 2) (pr_center r) /\
                      well_shaped_record (2, 2, 2) r) records) /\
    map pr_center records = [(1, 1, 1)].
Proof.
  destruct score_hypotheses_cube8 as (H1 & H2 & H3 & H4 & _).
  assert (H5 : size_at_least_2 (2, 2, 2)) by (simpl; lia).
  split; [exact H1|]. split; [exact H2|]. split; [exact H3|]. split; [exact H4|].
  split; [exact H5|].
  destruct (extraction_run_total cube8 two_cube8 4 (2, 2, 2) H1 H2 H3 H4 H5)
    as (coeff & coloc & records & Hrun).
  exists coeff, coloc, records. split; [exact Hrun|].
  destruct Hrun as (Er & _).
  destruct extraction_run_count_4 as (c4 & m4 & r4 & E4 & Ec & _).
  rewrite E4 in Er. injection Er as _ _ <-. cbn [map]. now rewrite Ec.
Defined.

(** a wrapped slice that still fits is copied from the wrong end of the
    volume: the patch around z = -1 holds the first plane *)
Example extract_patch_wrapped_slice :
  extract_patch 0%Q (Single cube8) (-1, 1, 1) (1, 2, 2)
  = Ok (Single (mk_ndarray (1, 2, 2) (map inject_Z [1; 2; 3; 4]))).
Proof. reflexivity. Qed.

(** one more pass of the loop is one more iteration at the end *)
Lemma hotspot_loop_succ sh ps k : forall st,
  hotspot_loop (S k) sh ps st =
  rbind (hotspot_loop k sh ps st) (hotspot_iter sh ps).
Proof.
  induction k as [|k IH]; intros st.
  - cbn [hotspot_loop rbind]. destruct (hotspot_iter sh ps st); reflexivity.
  - change (hotspot_loop (S (S k)) sh ps st)
      with (rbind (hotspot_iter sh ps st) (hotspot_loop (S k) sh ps)).
    change (hotspot_loop (S k) sh ps st)
      with (rbind (hotspot_iter sh ps st) (hotspot_loop k sh ps)).
    destruct (hotspot_iter sh ps st) as [st' | e]; cbn [rbind]; [|reflexivity].
    apply IH.
Qed.

(** X19: asking for one more patch only appends: the centers returned
    for a count [n] are a prefix of the centers returned for [n + 1], which
    holds at most one center more. *)
Theorem more_patches_only_append (m : ndarray bool) n ps :
  wf_array m -> 0 < size3 (shape m) -> size_at_least_2 ps -> 0 <= n ->
  exists centers more,
    find_colocalization_hotspots m n ps = Ok centers /\
    find_colocalization_hotspots m (n + 1) ps = Ok (centers ++ more) /\
    (length more <= 1)%nat.
Proof.
  intros Hwf Hsz Hps Hn.
  destruct (density_map_spec m ps Hwf Hps) as (kernel & d & Ek & Ed & Hwd & Hsd & _).
  destruct (hotspot_loop_valid (shape m) ps (Z.to_nat n) d [] Hwd Hsd Hsz)
    as (d' & centers & El & Hwd' & Hsd' & _).
  cbn [app] in El.
  destruct (hotspot_loop_valid (shape m) ps 1 d' centers Hwd' Hsd' Hsz)
    as (d'' & more & El' & _ & _ & L & _).
  exists centers, more. unfold find_colocalization_hotspots.
  rewrite Ek. cbn [rbind]. rewrite Ed. cbn [rbind]. rewrite El.
  split; [reflexivity|].
  replace (Z.to_nat (n + 1)) with (S (Z.to_nat n)) by lia.
  rewrite hotspot_loop_succ, El. cbn [rbind].
  cbn [hotspot_loop] in El'.
  destruct (hotspot_iter (shape m) ps (d', centers)) as [st | e];
    cbn [rbind] in El'; [|discriminate].
  injection El' as ->. split; [reflexivity | exact L].
Qed.

Lemma more_patches_only_append_witness :
  wf_array two_voxels /\ 0 < size3 (shape two_voxels) /\
  size_at_least_2 (2, 2, 2) /\ 0 <= 1 /\
  exists centers more,
    find_colocalization_hotspots two_voxels 1 (2, 2, 2) = Ok centers /\
    find_colocalization_hotspots two_voxels (1 + 1) (2, 2, 2)
      = Ok (centers ++ more) /\
    (length more <= 1)%nat.
Proof.
  assert (H1 := wf_two_voxels).
  assert (H2 : 0 < size3 (shape two_voxels)) by reflexivity.
  assert (H3 : size_at_least_2 (2, 2, 2)) by (simpl; lia).
  assert (H4 : 0 <= 1) by lia.
  split; [exact H1|]. split; [exact H2|]. split; [exact H3|]. split; [exact H4|].
  exact (more_patches_only_append two_voxels 1 (2, 2, 2) H1 H2 H3 H4).
Defined.
